(** * Midi-Fy: the compose pipeline of [server.js]

    A shallow embedding of the server-side core of Midi-Fy (scale helpers,
    JSON extraction, and the validation half of the [/compose] route)
    together with the properties stated about it.

    Conventions of the embedding.
    - A JavaScript number is a [number]: [NaN], the two infinities, or a
      finite value carried as a rational in lowest terms.  Every double is
      a rational, so the finite numbers of the program are among the
      finite values of the model.  The operators [+], [-] and [*] return
      the double nearest to the exact result, the one with an even
      significand when two are equally near, and an infinity beyond the
      range of the doubles ([double]); [%] is exact, as it is on doubles.
      Negative zero is identified with zero: the program never divides,
      and zero prints and compares alike with either sign.
    - A JavaScript string is a [string] holding its UTF-8 encoding.
    - A value produced by [JSON.parse] is a [json]; [undefined] is the
      [None] of [option json].
    - The built-ins whose full definition lives in the engine
      ([JSON.parse], the string-to-number and number-to-string
      conversions) are the methods of the class [Builtins]; the general
      statements hold for every instance, and the examples run with the
      executable instance [ref_builtins]. *)

From Stdlib Require Import ZArith QArith Qreduction Qpower Qabs Qround.
From Stdlib Require Import Bool List String Ascii Lia.
From Stdlib Require Import DecimalString.
From Stdlib Require Qcanon.
Import ListNotations.

Set Warnings "-register-all".
Local Open Scope string_scope.
Local Open Scope Z_scope.

(* ================================================================== *)
(** ** JavaScript numbers *)
(* ================================================================== *)

Module Num.

Inductive number : Type :=
| NaN
| PosInf
| NegInf
| Fin (q : Q).

(** Finite results are kept in lowest terms, so that equal numbers are
    equal terms. *)
Definition fin (q : Q) : number := Fin (Qred q).

Definition of_Z (z : Z) : number := Fin (inject_Z z).

Definition isFinite (n : number) : bool :=
  match n with Fin _ => true | _ => false end.

(** [ToBoolean] on a number: [0] and [NaN] are falsy. *)
Definition truthy (n : number) : bool :=
  match n with
  | NaN => false
  | Fin q => negb (Qeq_bool q 0)
  | _ => true
  end.

Definition sign_inf (positive : bool) : number :=
  if positive then PosInf else NegInf.

(** *** Rounding to binary64 *)

Definition pow2 (x : Z) : Q := (2 ^ x)%Q.

(** The integer nearest to [q]; the even one when [q] lies half-way
    between two integers. *)
Definition nearest_even (q : Q) : Z :=
  let n := Qnum q in
  let d := Zpos (Qden q) in
  let f := n / d in
  let r := n mod d in
  if 2 * r <? d then f
  else if d <? 2 * r then f + 1
  else if Z.even f then f else f + 1.

(** The exponent [e] with [2 ^ e <= |q| < 2 ^ (e + 1)], for [q <> 0]. *)
Definition binade (q : Q) : Z :=
  let k := Z.log2 (Z.abs (Qnum q)) - Z.log2 (Zpos (Qden q)) in
  if Qle_bool (pow2 k) (Qabs q) then k else k - 1.

(** The exponent of the unit in the last place of the doubles of the
    binade of [q]: 52 binary places below the leading one, and never
    below the spacing [2 ^ -1074] of the subnormal numbers. *)
Definition ulp_exponent (q : Q) : Z := Z.max (binade q) (-1022) - 52.

(** Round to nearest, ties to even, on the grid of the binade; a result
    that reaches [2 ^ 1024] is an infinity. *)
Definition nearest_double (q : Q) : number :=
  if Qeq_bool q 0 then Fin 0
  else
    let u := pow2 (ulp_exponent q) in
    let r := Qred (inject_Z (nearest_even (q / u)) * u) in
    if Qle_bool (pow2 1024) (Qabs r) then sign_inf (Qle_bool 0 q) else Fin r.

(** The Number value for the real number [q]. *)
Definition double (q : Q) : number := nearest_double (Qred q).

(** [Number.MAX_VALUE] *)
Definition MAX_VALUE : Q := inject_Z (2 ^ 1024 - 2 ^ 971).

Definition add (a b : number) : number :=
  match a, b with
  | NaN, _ | _, NaN => NaN
  | PosInf, NegInf | NegInf, PosInf => NaN
  | PosInf, _ | _, PosInf => PosInf
  | NegInf, _ | _, NegInf => NegInf
  | Fin x, Fin y => double (x + y)
  end.

Definition sub (a b : number) : number :=
  match a, b with
  | NaN, _ | _, NaN => NaN
  | PosInf, PosInf | NegInf, NegInf => NaN
  | PosInf, _ | _, NegInf => PosInf
  | NegInf, _ | _, PosInf => NegInf
  | Fin x, Fin y => double (x - y)
  end.

Definition mul (a b : number) : number :=
  match a, b with
  | NaN, _ | _, NaN => NaN
  | Fin x, Fin y => double (x * y)
  | Fin x, PosInf | PosInf, Fin x =>
      if Qeq_bool x 0 then NaN else sign_inf (Qle_bool 0 x)
  | Fin x, NegInf | NegInf, Fin x =>
      if Qeq_bool x 0 then NaN else sign_inf (negb (Qle_bool 0 x))
  | PosInf, PosInf | NegInf, NegInf => PosInf
  | PosInf, NegInf | NegInf, PosInf => NegInf
  end.

(** Truncation toward zero. *)
Definition Qtrunc (q : Q) : Z := Z.quot (Qnum q) (Zpos (Qden q)).

(** The [%] operator: the remainder has the sign of the dividend.  The
    remainder of two doubles is a double, so nothing is rounded. *)
Definition rem (a b : number) : number :=
  match a, b with
  | NaN, _ | _, NaN => NaN
  | PosInf, _ | NegInf, _ => NaN
  | Fin x, PosInf | Fin x, NegInf => Fin x
  | Fin x, Fin y =>
      if Qeq_bool y 0 then NaN
      else fin (x - y * inject_Z (Qtrunc (x / y)))
  end.

(** Relational operators; every comparison with [NaN] is false. *)
Definition leb (a b : number) : bool :=
  match a, b with
  | NaN, _ | _, NaN => false
  | NegInf, _ => true
  | _, PosInf => true
  | PosInf, _ => false
  | _, NegInf => false
  | Fin x, Fin y => Qle_bool x y
  end.

Definition ltb (a b : number) : bool :=
  match a, b with
  | NaN, _ | _, NaN => false
  | PosInf, _ => false
  | _, NegInf => false
  | NegInf, _ => true
  | _, PosInf => true
  | Fin x, Fin y => negb (Qle_bool y x)
  end.

Definition geb (a b : number) : bool := leb b a.
Definition gtb (a b : number) : bool := ltb b a.

(** [===] on numbers. *)
Definition strict_eq (a b : number) : bool :=
  match a, b with
  | PosInf, PosInf | NegInf, NegInf => true
  | Fin x, Fin y => Qeq_bool x y
  | _, _ => false
  end.

(** SameValueZero, the equality of [Set.prototype.has]. *)
Definition sameValueZero (a b : number) : bool :=
  match a, b with
  | NaN, NaN => true
  | _, _ => strict_eq a b
  end.

(** The number is the integer [z]. *)
Definition is_int (n : number) (z : Z) : Prop :=
  match n with Fin q => q == inject_Z z | _ => False end.

End Num.
Export Num.

(* ================================================================== *)
(** ** JSON values, objects and the conversions the route relies on *)
(* ================================================================== *)

Module JS.

Inductive json : Type :=
| JNull
| JBool (b : bool)
| JNum (n : number)
| JStr (s : string)
| JArr (elems : list json)
| JObj (fields : list (string * json)).

(** Own properties of an object, in insertion order. *)
Definition object := list (string * json).

Fixpoint lookup (k : string) (o : object) : option json :=
  match o with
  | [] => None
  | (k', v) :: rest => if String.eqb k k' then Some v else lookup k rest
  end.

(** [o[k] = v]: an existing property keeps its place, a new one is
    appended. *)
Fixpoint assign (k : string) (v : json) (o : object) : object :=
  match o with
  | [] => [(k, v)]
  | (k', v') :: rest =>
      if String.eqb k k' then (k, v) :: rest else (k', v') :: assign k v rest
  end.

Definition hasOwn (k : string) (o : object) : bool :=
  match lookup k o with Some _ => true | None => false end.

(** What a handler can throw. *)
Inductive exn : Type :=
| TypeError
| Error (message : string).

Inductive result (A : Type) : Type :=
| Ok (a : A)
| Throw (e : exn).
Arguments Ok {A} a.
Arguments Throw {A} e.

Definition bind {A B : Type} (r : result A) (k : A -> result B) : result B :=
  match r with
  | Ok a => k a
  | Throw e => Throw e
  end.

Declare Scope js_scope.
Delimit Scope js_scope with js.
Notation "x <- c ;; k" := (bind c (fun x => k))
  (at level 61, c at next level, right associativity) : js_scope.

(** The engine's built-ins that the embedding does not define. *)
Class Builtins : Type := {
  JSON_parse : string -> option json;
  StringToNumber : string -> number;
  NumberToString : number -> string
}.

(** [ToBoolean]. *)
Definition truthy (v : json) : bool :=
  match v with
  | JNull => false
  | JBool b => b
  | JNum n => Num.truthy n
  | JStr s => negb (String.eqb s "")
  | JArr _ | JObj _ => true
  end.

Definition truthy_opt (v : option json) : bool :=
  match v with Some x => truthy x | None => false end.

(** [a || b] on possibly-undefined values. *)
Definition or_else (a b : option json) : option json :=
  if truthy_opt a then a else b.

(** [v == null]. *)
Definition is_nullish (v : option json) : bool :=
  match v with None | Some JNull => true | _ => false end.

Definition isArray (v : option json) : bool :=
  match v with Some (JArr _) => true | _ => false end.

(** [v.k] for the property names of the clip schema, none of which is on
    a built-in prototype: on a primitive or an array the read yields
    [undefined], on [null] it throws. *)
Definition prop (v : json) (k : string) : option json :=
  match v with
  | JObj o => lookup k o
  | _ => None
  end.

Definition read (v : json) (k : string) : result (option json) :=
  match v with
  | JNull => Throw TypeError
  | _ => Ok (prop v k)
  end.

Section Conversions.
Context `{Builtins}.

Local Open Scope js_scope.

(** [ToString].  An object parsed from JSON converts through
    [Object.prototype.toString] unless it shadows [toString] with an own
    (hence non-callable) property, in which case the conversion throws.
    An array converts through [join], where [null] prints as the empty
    string. *)
Fixpoint ToString (v : json) : result string :=
  match v with
  | JNull => Ok "null"
  | JBool true => Ok "true"
  | JBool false => Ok "false"
  | JNum n => Ok (NumberToString n)
  | JStr s => Ok s
  | JArr elems =>
      (fix join (l : list json) : result string :=
         match l with
         | [] => Ok ""
         | x :: rest =>
             s <- match x with JNull => Ok "" | _ => ToString x end ;;
             match rest with
             | [] => Ok s
             | _ => t <- join rest ;; Ok (s ++ "," ++ t)
             end
         end) elems
  | JObj o => if hasOwn "toString" o then Throw TypeError
              else Ok "[object Object]"
  end.

(** [ToString] of a possibly-undefined value (a template hole). *)
Definition ToString_opt (v : option json) : result string :=
  match v with
  | None => Ok "undefined"
  | Some x => ToString x
  end.

(** [ToNumber] (the call [Number(v)]). *)
Definition ToNumber (v : option json) : result number :=
  match v with
  | None => Ok NaN
  | Some JNull => Ok (of_Z 0)
  | Some (JBool b) => Ok (of_Z (if b then 1 else 0))
  | Some (JNum n) => Ok n
  | Some (JStr s) => Ok (StringToNumber s)
  | Some (JArr elems) => s <- ToString (JArr elems) ;; Ok (StringToNumber s)
  | Some (JObj o) => _ <- ToString (JObj o) ;; Ok NaN
  end.

End Conversions.

(** ASCII case folding.  No code point outside [A-Z] lower-cases to a
    string over the alphabet of the keys of [MODES] and of
    [Object.prototype], so this decides the table lookups exactly. *)
Definition lower_ascii (c : ascii) : ascii :=
  let n := nat_of_ascii c in
  if andb (Nat.leb 65 n) (Nat.leb n 90) then ascii_of_nat (n + 32) else c.

Fixpoint toLowerCase (s : string) : string :=
  match s with
  | EmptyString => EmptyString
  | String c r => String (lower_ascii c) (toLowerCase r)
  end.

Definition startsWith (pre s : string) : bool := String.prefix pre s.

End JS.
Export JS.

(* ================================================================== *)
(** ** Scale helpers ([PITCH_CLASS], [MODES], [pc], [buildScale],
       [inScale], [nearestInScale]) *)
(* ================================================================== *)

Module ScaleModel.

(** What reading [table[k]] on an object literal yields when it is not
    [undefined]: an own entry, or a member inherited from
    [Object.prototype] (a function, or the prototype object itself). *)
Inductive member (A : Type) : Type :=
| Own (a : A)
| Inherited.
Arguments Own {A} a.
Arguments Inherited {A}.

Definition Object_prototype : list string :=
  [ "constructor"; "__defineGetter__"; "__defineSetter__"; "hasOwnProperty";
    "__lookupGetter__"; "__lookupSetter__"; "isPrototypeOf";
    "propertyIsEnumerable"; "toString"; "valueOf"; "__proto__";
    "toLocaleString" ].

Fixpoint own {A : Type} (t : list (string * A)) (k : string) : option A :=
  match t with
  | [] => None
  | (k', a) :: rest => if String.eqb k k' then Some a else own rest k
  end.

Definition table_get {A : Type} (t : list (string * A)) (k : string)
  : option (member A) :=
  match own t k with
  | Some a => Some (Own a)
  | None => if existsb (String.eqb k) Object_prototype then Some Inherited
            else None
  end.

Definition PITCH_CLASS : list (string * number) :=
  [ ("C", of_Z 0); ("C#", of_Z 1); ("Db", of_Z 1); ("D", of_Z 2);
    ("D#", of_Z 3); ("Eb", of_Z 3); ("E", of_Z 4); ("F", of_Z 5);
    ("F#", of_Z 6); ("Gb", of_Z 6); ("G", of_Z 7); ("G#", of_Z 8);
    ("Ab", of_Z 8); ("A", of_Z 9); ("A#", of_Z 10); ("Bb", of_Z 10);
    ("B", of_Z 11) ].

Definition MODES_major : list number := map of_Z [0; 2; 4; 5; 7; 9; 11].

Definition MODES : list (string * list number) :=
  [ ("major", MODES_major);
    ("minor", map of_Z [0; 2; 3; 5; 7; 8; 10]);
    ("dorian", map of_Z [0; 2; 3; 5; 7; 9; 10]);
    ("mixolydian", map of_Z [0; 2; 4; 5; 7; 9; 10]) ].

(** [const pc = (n) => ((n % 12) + 12) % 12] *)
Definition pc (n : number) : number :=
  rem (add (rem n (of_Z 12)) (of_Z 12)) (of_Z 12).

(** A [Set] of numbers: its elements in insertion order. *)
Definition NumSet := list number.

Definition Set_has (s : NumSet) (x : number) : bool :=
  existsb (sameValueZero x) s.

Definition Set_add (s : NumSet) (x : number) : NumSet :=
  if Set_has s x then s else (s ++ [x])%list.

Definition new_Set (l : list number) : NumSet := fold_left Set_add l [].

Record Scale : Type := {
  root : member number;
  degrees : list number;
  set : NumSet
}.

(** [(root + d) % 12].  With an inherited [root] the sum is a string
    concatenation and the remainder is [NaN]. *)
Definition degree_class (r : member number) (d : number) : number :=
  match r with
  | Own n => rem (add n d) (of_Z 12)
  | Inherited => NaN
  end.

Section WithBuiltins.
Context `{Builtins}.

Local Open Scope js_scope.

Definition buildScale (key mode : json) : result (option Scale) :=
  k <- ToString key ;;
  let root := table_get PITCH_CLASS k in
  m <- match (if truthy mode then mode else JStr "") with
       | JStr s => Ok (toLowerCase s)
       | _ => Throw TypeError
       end ;;
  let degrees := match table_get MODES m with
                 | Some d => d
                 | None => Own MODES_major
                 end in
  match root with
  | None => Ok None
  | Some r =>
      match degrees with
      | Inherited => Throw TypeError
      | Own ds =>
          Ok (Some {| root := r;
                      degrees := ds;
                      set := new_Set (map (degree_class r) ds) |})
      end
  end.

End WithBuiltins.

Definition inScale (p : number) (scaleSet : option Scale) : bool :=
  match scaleSet with
  | None => true
  | Some s => Set_has (set s) (pc p)
  end.

(** The loop [for (let d = 1; d <= 6; d++)], entered at distance [d] with
    [n] iterations left; falling out of it returns [p]. *)
Fixpoint search (p : number) (s : Scale) (d : Z) (n : nat) : number :=
  match n with
  | O => p
  | S n' =>
      let down := pc (sub p (of_Z d)) in
      if Set_has (set s) down then sub p (of_Z d)
      else
        let up := pc (add p (of_Z d)) in
        if Set_has (set s) up then add p (of_Z d)
        else search p s (d + 1) n'
  end.

Definition nearestInScale (p : number) (scaleSet : option Scale) : number :=
  match scaleSet with
  | None => p
  | Some s => if inScale p scaleSet then p else search p s 1 6
  end.

End ScaleModel.
Export ScaleModel.

(* ================================================================== *)
(** ** [extractJson] *)
(* ================================================================== *)

Module JsonExtractor.

Definition bytes (l : list Z) : string :=
  fold_right (fun n s => String (ascii_of_N (Z.to_N n)) s) EmptyString l.

(** The code points removed by [String.prototype.trim] (WhiteSpace and
    LineTerminator), in UTF-8. *)
Definition whitespace : list string :=
  map bytes
    [ [9]; [10]; [11]; [12]; [13]; [32]; [194; 160]; [225; 154; 128];
      [226; 128; 128]; [226; 128; 129]; [226; 128; 130]; [226; 128; 131];
      [226; 128; 132]; [226; 128; 133]; [226; 128; 134]; [226; 128; 135];
      [226; 128; 136]; [226; 128; 137]; [226; 128; 138]; [226; 128; 168];
      [226; 128; 169]; [226; 128; 175]; [226; 129; 159]; [227; 128; 128];
      [239; 187; 191] ].

Fixpoint rev_string (s acc : string) : string :=
  match s with
  | EmptyString => acc
  | String c r => rev_string r (String c acc)
  end.

Definition reverse (s : string) : string := rev_string s EmptyString.

Fixpoint drop (n : nat) (s : string) : string :=
  match n, s with
  | S k, String _ r => drop k r
  | _, _ => s
  end.

(** The length of the pattern of [pats] that starts [s], if any. *)
Fixpoint match_prefix (pats : list string) (s : string) : option nat :=
  match pats with
  | [] => None
  | p :: rest => if String.prefix p s then Some (String.length p)
                 else match_prefix rest s
  end.

Fixpoint strip_leading (pats : list string) (fuel : nat) (s : string)
  : string :=
  match fuel with
  | O => s
  | S f =>
      match match_prefix pats s with
      | Some (S k) => strip_leading pats f (drop (S k) s)
      | _ => s
      end
  end.

Definition trimStart (s : string) : string :=
  strip_leading whitespace (String.length s) s.

Definition trimEnd (s : string) : string :=
  reverse (strip_leading (map reverse whitespace) (String.length s)
             (reverse s)).

Definition trim (s : string) : string := trimEnd (trimStart s).

(** [text.replace(/```(?:json)?/gi, '')]: every fence marker, with the
    language tag when it follows, is removed, scanning left to right;
    [skip] counts the characters of the current match still to drop. *)
Fixpoint strip_fences_from (skip : nat) (s : string) : string :=
  match s with
  | EmptyString => EmptyString
  | String c r =>
      match skip with
      | S k => strip_fences_from k r
      | O =>
          if String.prefix "```" s then
            strip_fences_from
              (if String.eqb (toLowerCase (substring 3 4 s)) "json"
               then 6%nat else 2%nat) r
          else String c (strip_fences_from O r)
      end
  end.

Definition strip_fences (s : string) : string := strip_fences_from O s.

(** [indexOf] and [lastIndexOf] of a character, [-1] when absent. *)
Fixpoint indexOf_from (c : ascii) (s : string) (i : Z) : Z :=
  match s with
  | EmptyString => -1
  | String c' r => if Ascii.eqb c' c then i else indexOf_from c r (i + 1)
  end.

Definition indexOf (c : ascii) (s : string) : Z := indexOf_from c s 0.

Fixpoint lastIndexOf_from (c : ascii) (s : string) (i found : Z) : Z :=
  match s with
  | EmptyString => found
  | String c' r =>
      lastIndexOf_from c r (i + 1) (if Ascii.eqb c' c then i else found)
  end.

Definition lastIndexOf (c : ascii) (s : string) : Z :=
  lastIndexOf_from c s 0 (-1).

(** [text.slice(a, b)] for [0 <= a <= b]. *)
Definition slice (text : string) (a b : Z) : string :=
  substring (Z.to_nat a) (Z.to_nat (b - a)) text.

Section WithBuiltins.
Context `{Builtins}.

(** The balance-braces loop at index [i], [rest] being [text] from [i]
    on; [None] when the loop ends without a [return]. *)
Fixpoint scan (text rest : string) (i depth start : Z) : option json :=
  match rest with
  | EmptyString => None
  | String ch rest' =>
      if Ascii.eqb ch "{" then
        scan text rest' (i + 1) (depth + 1) (if depth =? 0 then i else start)
      else if Ascii.eqb ch "}" then
        let depth := depth - 1 in
        if (depth =? 0) && negb (start =? -1) then
          match JSON_parse (slice text start (i + 1)) with
          | Some v => Some v
          | None => scan text rest' (i + 1) depth start
          end
        else scan text rest' (i + 1) depth start
      else scan text rest' (i + 1) depth start
  end.

Definition extractJson (text : json) : result json :=
  match text with
  | JStr t =>
      if String.eqb t "" then Throw (Error "Empty response")
      else
        let text := trim (strip_fences t) in
        match JSON_parse text with
        | Some v => Ok v
        | None =>
            let first := indexOf "{" text in
            let last := lastIndexOf "}" text in
            match
              (if negb (first =? -1) && negb (last =? -1) && (first <? last)
               then JSON_parse (slice text first (last + 1))
               else None)
            with
            | Some v => Ok v
            | None =>
                match scan text text 0 0 (-1) with
                | Some v => Ok v
                | None => Throw (Error "No valid JSON found")
                end
            end
        end
  | _ => Throw (Error "Empty response")
  end.

End WithBuiltins.

End JsonExtractor.
Export JsonExtractor.

(* ================================================================== *)
(** ** The [/compose] route *)
(* ================================================================== *)

Module Compose.

(** The two environment flags read at start-up. *)
Record Config : Type := {
  SNAP_TO_SCALE : bool;
  STRICT_SCALE : bool
}.

(** The fields destructured from [req.body || {}]. *)
Record Request : Type := {
  clipType : option json;
  bars : option json;
  key : option json;
  mode : option json;
  feel : option json;
  text : option json
}.

(** The body of a non-JSON answer. *)
Inductive body : Type :=
| AI_JSON_ERROR (e : exn)
| SCHEMA_MISSING_FIELDS
| OUT_OF_SCALE (count : nat) (key mode : string)
| Thrown (e : exn)
| Detail (d : string).

(** [res.json(data)] and [res.status(status).send(b)].  [Json] carries
    the object handed to [res.json]; what the client reads is
    [sent data]. *)
Inductive response : Type :=
| Json (data : json)
| Send (status : Z) (b : body).

(** The value that arrives when [res.json] has printed [data] with
    [JSON.stringify]: a number that is not finite is printed as
    [null]. *)
Fixpoint sent (v : json) : json :=
  match v with
  | JNum n => if isFinite n then JNum n else JNull
  | JArr elems => JArr (map sent elems)
  | JObj fields => JObj (map (fun kv : string * json => let (k, x) := kv in (k, sent x)) fields)
  | _ => v
  end.

(** The text-generation collaborator.  A rejected call carries the status
    and the detail with which the outer [catch] answers. *)
Inductive block : Type :=
| TextBlock (text : string)
| OtherBlock.

Inductive reply : Type :=
| Message (content : list block)
| Rejected (status : Z) (detail : string).

Inductive instruction : Type :=
| SYSTEM_PROMPT
| REPAIR_PROMPT.

Record call : Type := {
  system : instruction;
  temperature : Q;
  max_tokens : Z;
  user : string
}.

Definition nl : string := String (ascii_of_nat 10) EmptyString.

Fixpoint join (sep : string) (l : list string) : string :=
  match l with
  | [] => ""
  | [s] => s
  | s :: rest => s ++ sep ++ join sep rest
  end.

(** [v || 'lit'] *)
Definition or_str (v : option json) (lit : string) : json :=
  match v with
  | Some x => if truthy x then x else JStr lit
  | None => JStr lit
  end.

Definition is_str (v : option json) (lit : string) : bool :=
  match v with Some (JStr s) => String.eqb s lit | _ => false end.

(** [(msg.content || []).map(c => c.type === 'text' ? c.text : '').join('')] *)
Definition text_of (content : list block) : string :=
  join "" (map (fun c => match c with TextBlock t => t | OtherBlock => "" end)
             content).

(** [Number.isFinite(v)]: no coercion, only finite numbers pass. *)
Definition Number_isFinite (v : option json) : bool :=
  match v with Some (JNum x) => isFinite x | _ => false end.

(** The number read from a property already known to hold one. *)
Definition num (v : option json) : number :=
  match v with Some (JNum x) => x | _ => NaN end.

(** The callback of the note filter, on a non-null element. *)
Definition keep (totalBeats : number) (n : json) : bool :=
  Number_isFinite (prop n "tb") && geb (num (prop n "tb")) (of_Z 0) &&
  Number_isFinite (prop n "db") && gtb (num (prop n "db")) (of_Z 0) &&
  Number_isFinite (prop n "p") && geb (num (prop n "p")) (of_Z 0) &&
  leb (num (prop n "p")) (of_Z 127) &&
  leb (add (num (prop n "tb")) (num (prop n "db"))) totalBeats.

Local Open Scope js_scope.

(** [data.notes.filter(n => ...)]; reading [n.tb] on a [null] element
    throws. *)
Fixpoint filterNotes (totalBeats : number) (notes : list json)
  : result (list json) :=
  match notes with
  | [] => Ok []
  | n :: rest =>
      _ <- read n "tb" ;;
      rest' <- filterNotes totalBeats rest ;;
      Ok (if keep totalBeats n then n :: rest' else rest')
  end.

(** [Array.isArray(data.notes) ? data.notes : []] *)
Definition notes_of (data : object) : list json :=
  match lookup "notes" data with
  | Some (JArr l) => l
  | _ => []
  end.

(** [{ ...n, p: p2 }]; the notes that reach the spread passed the filter,
    hence are objects. *)
Definition with_p (n : json) (p2 : number) : json :=
  match n with
  | JObj o => JObj (assign "p" (JNum p2) o)
  | _ => JObj [("p", JNum p2)]
  end.

(** The callback of the snap [map], threading [snappedCount]. *)
Definition snapNote (scaleSet : option Scale) (n : json) (snappedCount : nat)
  : json * nat :=
  let p := num (prop n "p") in
  if inScale p scaleSet then (n, snappedCount)
  else
    let p2 := nearestInScale p scaleSet in
    (with_p n p2, if strict_eq p2 p then snappedCount else S snappedCount).

Fixpoint snapNotes (scaleSet : option Scale) (notes : list json)
    (snappedCount : nat) : list json * nat :=
  match notes with
  | [] => ([], snappedCount)
  | n :: rest =>
      let (n', c) := snapNote scaleSet n snappedCount in
      let (rest', c') := snapNotes scaleSet rest c in
      (n' :: rest', c')
  end.

(** [data.notes.filter(n => !inScale(n.p, scaleSet))] *)
Definition outOfScale (scaleSet : option Scale) (notes : list json)
  : list json :=
  filter (fun n => negb (inScale (num (prop n "p")) scaleSet)) notes.

(** [{ snapped_count: snappedCount, mode: 'snap_to_scale' }] *)
Definition snapped_info (snappedCount : nat) : json :=
  JObj [ ("snapped_count", JNum (of_Z (Z.of_nat snappedCount)));
         ("mode", JStr "snap_to_scale") ].

(** Lines 215-219. *)
Definition finish (data : object) (snappedCount : nat) : response * json :=
  let data := if (0 <? snappedCount)%nat
              then assign "_snapped_info" (snapped_info snappedCount) data
              else data in
  (Json (JObj data), JObj data).

(** Line 176. *)
Definition schema_missing (data : json) : bool :=
  negb (truthy data)
  || negb (isArray (prop data "notes"))
  || negb (truthy_opt (prop data "time_signature"))
  || is_nullish (prop data "length_bars").

(** Line 181. *)
Definition beatsPerBar (data : object) : result number :=
  match lookup "time_signature" data with
  | Some (JStr s) =>
      Ok (if truthy (JStr s) && startsWith "3/" s then of_Z 3 else of_Z 4)
  | Some v => if truthy v then Throw TypeError else Ok (of_Z 4)
  | None => Ok (of_Z 4)
  end.

Section Route.
Context `{Builtins}.

(** [Number(data.length_bars) || barsNum] (lines 182 and 185). *)
Definition lengthBars (data : object) (barsNum : number) : result number :=
  n <- ToNumber (lookup "length_bars" data) ;;
  Ok (if Num.truthy n then n else barsNum).

(** Line 182. *)
Definition totalBeats (data : object) (barsNum : number) : result number :=
  beats <- beatsPerBar data ;;
  bars' <- lengthBars data barsNum ;;
  Ok (mul bars' beats).

(** Lines 184-188, on the fields of [data]. *)
Definition applyDefaults (req : Request) (barsNum : number) (data : object)
  : result object :=
  let data :=
    assign "clip_type"
      (or_str (or_else (clipType req) (lookup "clip_type" data)) "chords")
      data in
  bars' <- lengthBars data barsNum ;;
  let data := assign "length_bars" (JNum bars') data in
  let data :=
    assign "time_signature" (or_str (lookup "time_signature" data) "4/4")
      data in
  let data :=
    match key req with
    | Some k => if truthy k && negb (truthy_opt (lookup "key" data))
                then assign "key" k data else data
    | None => data
    end in
  let data :=
    match mode req with
    | Some m => if truthy m && negb (truthy_opt (lookup "mode" data))
                then assign "mode" m data else data
    | None => data
    end in
  Ok data.

(** Line 198. *)
Definition scaleOf (data : object) : result (option Scale) :=
  match lookup "key" data, lookup "mode" data with
  | Some k, Some m =>
      if truthy k && truthy m then buildScale k m else Ok None
  | _, _ => Ok None
  end.

(** Lines 201-213, on the notes that survived the clamp.  The answer is
    paired with the state of [data] when it is sent. *)
Definition enforceScale (cfg : Config) (scaleSet : option Scale)
    (data : object) : response * json :=
  match scaleSet with
  | Some _ =>
      if SNAP_TO_SCALE cfg then
        let (notes', snappedCount) := snapNotes scaleSet (notes_of data) 0 in
        finish (assign "notes" (JArr notes') data) snappedCount
      else if STRICT_SCALE cfg then
        let bad := outOfScale scaleSet (notes_of data) in
        match List.length bad with
        | O => finish data 0
        | S _ =>
            match
              (k <- ToString_opt (lookup "key" data) ;;
               m <- ToString_opt (lookup "mode" data) ;;
               Ok (OUT_OF_SCALE (List.length bad) k m))
            with
            | Ok b => (Send 400 b, JObj data)
            | Throw e => (Send 400 (Thrown e), JObj data)
            end
        end
      else finish data 0
  | None => finish data 0
  end.

(** Lines 176-219: everything after the candidate [data] is extracted. *)
Definition validate (cfg : Config) (req : Request) (barsNum : number)
    (data : json) : response * json :=
  if schema_missing data then (Send 400 SCHEMA_MISSING_FIELDS, data)
  else
    match data with
    | JObj o =>
        match
          (total <- totalBeats o barsNum ;;
           o' <- applyDefaults req barsNum o ;;
           Ok (total, o'))
        with
        | Throw e => (Send 400 (Thrown e), data)
        | Ok (total, o1) =>
            match filterNotes total (notes_of o1) with
            | Throw e => (Send 400 (Thrown e), JObj o1)
            | Ok kept =>
                let o2 := assign "notes" (JArr kept) o1 in
                match scaleOf o2 with
                | Throw e => (Send 400 (Thrown e), JObj o2)
                | Ok scaleSet => enforceScale cfg scaleSet o2
                end
            end
        end
    | _ => (Send 400 SCHEMA_MISSING_FIELDS, data)
    end.

(** Lines 112-140: the user prompt. *)
Definition userPrompt (req : Request) (barsNum : number) : result string :=
  kind <- ToString (or_str (clipType req) "chords") ;;
  scale <- (if truthy_opt (key req) && truthy_opt (mode req) then
              k <- ToString_opt (key req) ;;
              m <- ToString_opt (mode req) ;;
              Ok ("Key/scale: " ++ k ++ " " ++ m ++ ".")
            else Ok "Key/scale: auto.") ;;
  feeling <- (if truthy_opt (feel req) then
                f <- ToString_opt (feel req) ;;
                Ok ("Feel: " ++ f ++ ".")
              else Ok "") ;;
  details <- (if truthy_opt (text req) then
                t <- ToString_opt (text req) ;;
                Ok ("Details: " ++ t)
              else Ok "") ;;
  let parts :=
    filter (fun s => negb (String.eqb s ""))
      [ "Make a " ++ kind ++ " clip.";
        "Length: " ++ NumberToString barsNum ++ " bars.";
        "Time signature: 4/4.";
        scale; feeling; details ] in
  let parts :=
    if is_str (clipType req) "chords" then
      (parts ++
       [ "Voicing: triads or 4-note voicings; at least 3 notes per chord onset; avoid single-note chords.";
         "Prefer chord tones and in-scale extensions (6, 7, 9, 11)." ])%list
    else parts in
  let parts :=
    if is_str (clipType req) "bass" then
      (parts ++
       [ "Monophonic bassline: one note at a time; no overlapping notes.";
         "Use in-scale chord tones and scalar passing tones; avoid non-diatonic accidentals." ])%list
    else parts in
  let parts :=
    if is_str (clipType req) "lead" then
      (parts ++
       [ "Monophonic melody; mostly stepwise with occasional leaps; all notes in-scale." ])%list
    else parts in
  k <- ToString (or_str (key req) "the chosen") ;;
  m <- ToString (or_str (mode req) "scale") ;;
  let requirements :=
    "Requirements:" ++ nl ++
    "- Fit exactly within " ++ NumberToString barsNum ++
    " bars (no notes beyond bar " ++ NumberToString barsNum ++ ")." ++ nl ++
    "- All notes must be diatonic to " ++ k ++ " " ++ m ++ "." ++ nl ++
    "Return STRICT JSON per schema." in
  Ok (join nl (List.app parts [requirements])).

Variable anthropic : call -> reply.

(** The route, from the request to the answer. *)
Definition compose (cfg : Config) (req : Request) : response :=
  match
    (n <- ToNumber (bars req) ;;
     let barsNum := if Num.truthy n then n else of_Z 8 in
     prompt <- userPrompt req barsNum ;;
     Ok (barsNum, prompt))
  with
  | Throw e => Send 400 (Thrown e)
  | Ok (barsNum, prompt) =>
      match anthropic {| system := SYSTEM_PROMPT; temperature := 2 # 10;
                         max_tokens := 3000; user := prompt |} with
      | Rejected status detail => Send status (Detail detail)
      | Message content =>
          let raw := text_of content in
          match extractJson (JStr raw) with
          | Ok data => fst (validate cfg req barsNum data)
          | Throw _ =>
              match anthropic
                      {| system := REPAIR_PROMPT; temperature := 0;
                         max_tokens := 1200;
                         user := "Fix this into valid JSON per schema (do not invent fields):"
                                 ++ nl ++ raw |} with
              | Rejected status detail =>
                  Send 400 (AI_JSON_ERROR (Error detail))
              | Message content' =>
                  match extractJson (JStr (text_of content')) with
                  | Ok data => fst (validate cfg req barsNum data)
                  | Throw e2 => Send 400 (AI_JSON_ERROR e2)
                  end
              end
          end
      end
  end.

End Route.

End Compose.
Export Compose.

(* ================================================================== *)
(** ** An executable instance of the built-ins *)
(* ================================================================== *)

Module Reference.

Definition dquote : ascii := ascii_of_nat 34.
Definition backslash : ascii := ascii_of_nat 92.

Definition code (c : ascii) : Z := Z.of_N (N_of_ascii c).
Definition chr (n : Z) : ascii := ascii_of_N (Z.to_N n).

Definition is_digit (c : ascii) : bool := (48 <=? code c) && (code c <=? 57).

(** The value of a digit in the given radix, if it is one. *)
Definition digit_in (radix : Z) (c : ascii) : option Z :=
  let n := code c in
  let v := if (48 <=? n) && (n <=? 57) then n - 48
           else if (97 <=? n) && (n <=? 102) then n - 87
           else if (65 <=? n) && (n <=? 70) then n - 55
           else radix in
  if v <? radix then Some v else None.

(** Reads a run of digits: the accumulated value, the number of digits
    read, and what follows. *)
Fixpoint digits (radix : Z) (s : string) (acc : Z) (n : Z) : Z * Z * string :=
  match s with
  | EmptyString => (acc, n, s)
  | String c r =>
      match digit_in radix c with
      | Some v => digits radix r (radix * acc + v) (n + 1)
      | None => (acc, n, s)
      end
  end.

(** The Number value for [mant * 10 ^ e]. *)
Definition scale10 (mant e : Z) : number :=
  if 0 <=? e then double (inject_Z (mant * 10 ^ e))
  else double (mant # Z.to_pos (10 ^ (- e))).

(** An optional exponent part [e[+-]ddd]: its value and what follows;
    [None] when an [e] is not followed by digits. *)
Definition exponent (s : string) : option (Z * string) :=
  match s with
  | String c r =>
      if Ascii.eqb c "e" || Ascii.eqb c "E" then
        let '(sign, r1) :=
          match r with
          | String "+" r' => (1, r')
          | String "-" r' => (-1, r')
          | _ => (1, r)
          end in
        let '(e, n, r2) := digits 10 r1 0 0 in
        if 0 <? n then Some (sign * e, r2) else None
      else Some (0, s)
  | EmptyString => Some (0, s)
  end.

(** *** [JSON.parse] *)

Fixpoint skip_ws (s : string) : string :=
  match s with
  | String c r =>
      if (code c =? 9) || (code c =? 10) || (code c =? 13) || (code c =? 32)
      then skip_ws r else s
  | EmptyString => s
  end.

(** number = [-] int [frac] [exp] *)
Definition parse_number (s : string) : option (number * string) :=
  let '(sign, s1) :=
    match s with
    | String "-" r => (-1, r)
    | _ => (1, s)
    end in
  match s1 with
  | String c r =>
      if is_digit c then
        let '(ip, _, s2) :=
          if Ascii.eqb c "0" then (0, 1, r) else digits 10 s1 0 0 in
        match
          match s2 with
          | String "." r2 =>
              let '(m, k, s3) := digits 10 r2 ip 0 in
              if 0 <? k then Some (m, k, s3) else None
          | _ => Some (ip, 0, s2)
          end
        with
        | Some (m, k, s3) =>
            match exponent s3 with
            | Some (e, s4) => Some (scale10 (sign * m) (e - k), s4)
            | None => None
            end
        | None => None
        end
      else None
  | EmptyString => None
  end.

(** The UTF-8 encoding of a code point, pushed on a reversed string. *)
Definition push_utf8 (cp : Z) (acc : string) : string :=
  if cp <? 128 then String (chr cp) acc
  else if cp <? 2048 then
    String (chr (128 + cp mod 64)) (String (chr (192 + cp / 64)) acc)
  else if cp <? 65536 then
    String (chr (128 + cp mod 64))
      (String (chr (128 + (cp / 64) mod 64))
         (String (chr (224 + cp / 4096)) acc))
  else
    String (chr (128 + cp mod 64))
      (String (chr (128 + (cp / 64) mod 64))
         (String (chr (128 + (cp / 4096) mod 64))
            (String (chr (240 + cp / 262144)) acc))).

(** Four hexadecimal digits. *)
Definition hex4 (s : string) : option (Z * string) :=
  let '(v, n, r) := digits 16 (substring 0 4 s) 0 0 in
  if n =? 4 then Some (v, drop 4 s) else None.

(** [\uXXXX] escapes, a surrogate pair making one code point. *)
Definition unicode_escape (s : string) : option (Z * string) :=
  match hex4 s with
  | Some (hi, r) =>
      if (55296 <=? hi) && (hi <=? 56319) then
        match r with
        | String b (String "u" r') =>
            if Ascii.eqb b backslash then
              match hex4 r' with
              | Some (lo, r'') =>
                  if (56320 <=? lo) && (lo <=? 57343)
                  then Some (65536 + (hi - 55296) * 1024 + (lo - 56320), r'')
                  else Some (hi, r)
              | None => Some (hi, r)
              end
            else Some (hi, r)
        | _ => Some (hi, r)
        end
      else Some (hi, r)
  | None => None
  end.

(** The characters of a string literal after its opening quote. *)
Fixpoint parse_chars (fuel : nat) (s acc : string) : option (string * string) :=
  match fuel, s with
  | S f, String c r =>
      if Ascii.eqb c dquote then Some (reverse acc, r)
      else if Ascii.eqb c backslash then
        match r with
        | String e r' =>
            if Ascii.eqb e dquote then parse_chars f r' (String dquote acc)
            else if Ascii.eqb e backslash
            then parse_chars f r' (String backslash acc)
            else
              match e with
              | "/"%char => parse_chars f r' (String "/" acc)
              | "b"%char => parse_chars f r' (String (chr 8) acc)
              | "f"%char => parse_chars f r' (String (chr 12) acc)
              | "n"%char => parse_chars f r' (String (chr 10) acc)
              | "r"%char => parse_chars f r' (String (chr 13) acc)
              | "t"%char => parse_chars f r' (String (chr 9) acc)
              | "u"%char =>
                  match unicode_escape r' with
                  | Some (cp, r'') => parse_chars f r'' (push_utf8 cp acc)
                  | None => None
                  end
              | _ => None
              end
        | EmptyString => None
        end
      else if code c <? 32 then None
      else parse_chars f r (String c acc)
  | _, _ => None
  end.

Definition parse_string (s : string) : option (string * string) :=
  parse_chars (String.length s) s EmptyString.

Definition literal (lit : string) (v : json) (s : string)
  : option (json * string) :=
  if String.prefix lit s then Some (v, drop (String.length lit) s) else None.

(** An array index: the canonical decimal form of an integer below
    [2 ^ 32 - 1]. *)
Definition array_index (k : string) : option Z :=
  match k with
  | EmptyString => None
  | String c r =>
      if is_digit c && (negb (Ascii.eqb c "0") || String.eqb r "") then
        match digits 10 k 0 0 with
        | (v, _, EmptyString) => if v <? 2 ^ 32 - 1 then Some v else None
        | _ => None
        end
      else None
  end.

(** A new array index among the own keys: the indices come first, in
    ascending order. *)
Fixpoint insert_index (i : Z) (k : string) (v : json) (o : object) : object :=
  match o with
  | [] => [(k, v)]
  | (k', v') :: rest =>
      match array_index k' with
      | Some j => if j <? i then (k', v') :: insert_index i k v rest
                  else (k, v) :: o
      | None => (k, v) :: o
      end
  end.

(** [CreateDataProperty] on the object being parsed: a key met again
    keeps its place and takes the new value; a new array index goes among
    the indices; any other new key goes last. *)
Definition define (k : string) (v : json) (o : object) : object :=
  if hasOwn k o then assign k v o
  else match array_index k with
       | Some i => insert_index i k v o
       | None => assign k v o
       end.

(** value, elements of an array after a first [\[] or [,], members of an
    object after a first [{] or [,]. *)
Fixpoint parse_value (fuel : nat) (s : string) : option (json * string) :=
  match fuel with
  | O => None
  | S f =>
      match skip_ws s with
      | String "{" r =>
          match skip_ws r with
          | String "}" r' => Some (JObj [], r')
          | _ => parse_members f r []
          end
      | String "[" r =>
          match skip_ws r with
          | String "]" r' => Some (JArr [], r')
          | _ => parse_elements f r []
          end
      | String "t" _ => literal "true" (JBool true) (skip_ws s)
      | String "f" _ => literal "false" (JBool false) (skip_ws s)
      | String "n" _ => literal "null" JNull (skip_ws s)
      | String c r =>
          if Ascii.eqb c dquote then
            match parse_string r with
            | Some (str, r') => Some (JStr str, r')
            | None => None
            end
          else
            match parse_number (String c r) with
            | Some (n, r') => Some (JNum n, r')
            | None => None
            end
      | EmptyString => None
      end
  end
with parse_elements (fuel : nat) (s : string) (acc : list json)
  : option (json * string) :=
  match fuel with
  | O => None
  | S f =>
      match parse_value f s with
      | Some (v, r) =>
          match skip_ws r with
          | String "," r' => parse_elements f r' (v :: acc)
          | String "]" r' => Some (JArr (rev (v :: acc)), r')
          | _ => None
          end
      | None => None
      end
  end
with parse_members (fuel : nat) (s : string) (acc : object)
  : option (json * string) :=
  match fuel with
  | O => None
  | S f =>
      match skip_ws s with
      | String q r =>
          if Ascii.eqb q dquote then
            match parse_string r with
            | Some (k, r1) =>
                match skip_ws r1 with
                | String ":" r2 =>
                    match parse_value f r2 with
                    | Some (v, r3) =>
                        match skip_ws r3 with
                        | String "," r4 => parse_members f r4 (define k v acc)
                        | String "}" r4 => Some (JObj (define k v acc), r4)
                        | _ => None
                        end
                    | None => None
                    end
                | _ => None
                end
            | None => None
            end
          else None
      | EmptyString => None
      end
  end.

Definition JSON_parse_ref (s : string) : option json :=
  match parse_value (2 * String.length s + 2) s with
  | Some (v, r) => match skip_ws r with
                   | EmptyString => Some v
                   | _ => None
                   end
  | None => None
  end.

(** *** [StringToNumber] (StringNumericLiteral) *)

Definition nondecimal (s : string) : option number :=
  match s with
  | String "0" (String x r) =>
      let radix :=
        if Ascii.eqb x "x" || Ascii.eqb x "X" then 16
        else if Ascii.eqb x "o" || Ascii.eqb x "O" then 8
        else if Ascii.eqb x "b" || Ascii.eqb x "B" then 2
        else 0 in
      if radix =? 0 then None
      else
        match digits radix r 0 0 with
        | (v, n, EmptyString) => if 0 <? n then Some (of_Z v) else Some NaN
        | _ => Some NaN
        end
  | _ => None
  end.

Definition decimal (s : string) : number :=
  let '(sign, s1) :=
    match s with
    | String "+" r => (1, r)
    | String "-" r => (-1, r)
    | _ => (1, s)
    end in
  if String.eqb s1 "Infinity" then (if 0 <? sign then PosInf else NegInf)
  else
    let '(ip, ni, s2) := digits 10 s1 0 0 in
    let '(m, nf, s3) :=
      match s2 with
      | String "." r => digits 10 r ip 0
      | _ => (ip, 0, s2)
      end in
    if 0 <? ni + nf then
      match exponent s3 with
      | Some (e, EmptyString) => scale10 (sign * m) (e - nf)
      | _ => NaN
      end
    else NaN.

Definition StringToNumber_ref (s : string) : number :=
  let t := trim s in
  if String.eqb t "" then of_Z 0
  else match nondecimal t with
       | Some n => n
       | None => decimal t
       end.

(** *** [Number::toString]: the shortest decimal that reads back as the
    number, printed in the notation of the language. *)

(** The least [k <= fuel] with [10^k * a] a multiple of [b], and the
    quotient. *)
Fixpoint to_integer (fuel : nat) (a b : Z) (k : Z) : Z * Z :=
  match fuel with
  | O => (a / b, k)
  | S f => if a mod b =? 0 then (a / b, k) else to_integer f (10 * a) b (k + 1)
  end.

Fixpoint strip_zeros (fuel : nat) (m z : Z) : Z * Z :=
  match fuel with
  | O => (m, z)
  | S f => if (m mod 10 =? 0) && negb (m =? 0) then strip_zeros f (m / 10) (z + 1)
           else (m, z)
  end.

Definition repeat0 (n : Z) : string :=
  fold_right (fun _ s => String "0" s) EmptyString (List.repeat tt (Z.to_nat n)).

Definition uint_string (m : Z) : string :=
  NilZero.string_of_uint (N.to_uint (Z.to_N m)).

Definition positive_string (q : Q) : string :=
  let '(m0, k) := to_integer (Pos.size_nat (Qden q))
                    (Qnum q) (Zpos (Qden q)) 0 in
  let '(m, z) := strip_zeros (Z.to_nat (Z.log2 m0) + 1) m0 0 in
  let s := uint_string m in
  let len := Z.of_nat (String.length s) in
  let n := len + z - k in
  if (len <=? n) && (n <=? 21) then s ++ repeat0 (n - len)
  else if (0 <? n) && (n <=? 21) then
    substring 0 (Z.to_nat n) s ++ "." ++ drop (Z.to_nat n) s
  else if (-6 <? n) && (n <=? 0) then "0." ++ repeat0 (- n) ++ s
  else
    let e := (if 0 <? n - 1 then "e+" else "e-") ++ uint_string (Z.abs (n - 1)) in
    if len =? 1 then s ++ e
    else substring 0 1 s ++ "." ++ drop 1 s ++ e.

Definition pow10 (n : Z) : Q := (inject_Z 10 ^ n)%Q.

(** The number [n] of digits before the decimal point of [q > 0]:
    [10 ^ (n - 1) <= q < 10 ^ n], looked for upward from an estimate. *)
Fixpoint digits_before (fuel : nat) (q : Q) (n : Z) : Z :=
  match fuel with
  | O => n
  | S f => if Qle_bool (pow10 n) q then digits_before f q (n + 1) else n
  end.

Definition decimal_exponent (q : Q) : Z :=
  digits_before 4 q (binade q * 30103 / 100000 - 1).

(** The decimal [s * 10 ^ (n - k)] with the fewest digits [k] that reads
    back as the double [q > 0]; of two with as many digits, the nearer
    one, and the even one when they are as near.  A value that no decimal
    of seventeen digits reads back as is no double: it is left as it
    is. *)
Fixpoint shortest (fuel : nat) (k : Z) (q : Q) (n : Z) : Q :=
  match fuel with
  | O => q
  | S f =>
      let unit := pow10 (n - k) in
      let lo := Qfloor (q / unit) in
      let reads (s : Z) :=
        match double (inject_Z s * unit) with
        | Fin x => Qeq_bool x q
        | _ => false
        end in
      let below := (q - inject_Z lo * unit)%Q in
      let above := (inject_Z (lo + 1) * unit - q)%Q in
      let low_one :=
        if Qeq_bool below above then Z.even lo else Qle_bool below above in
      if reads lo && (low_one || negb (reads (lo + 1)))
      then (inject_Z lo * unit)%Q
      else if reads (lo + 1) then (inject_Z (lo + 1) * unit)%Q
      else shortest f (k + 1) q n
  end.

Definition shortest_decimal (q : Q) : Q :=
  Qred (shortest 17 1 q (decimal_exponent q)).

Definition NumberToString_ref (n : number) : string :=
  match n with
  | NaN => "NaN"
  | PosInf => "Infinity"
  | NegInf => "-Infinity"
  | Fin q =>
      if Qeq_bool q 0 then "0"
      else if Qle_bool 0 q then positive_string (shortest_decimal q)
      else "-" ++ positive_string (shortest_decimal (- q))
  end.

#[export] Instance ref_builtins : Builtins := {
  JSON_parse := JSON_parse_ref;
  StringToNumber := StringToNumber_ref;
  NumberToString := NumberToString_ref
}.

End Reference.
Export Reference.

(* ================================================================== *)
(** ** The extraction strategies as the specification words them *)
(* ================================================================== *)

(** A second description of [extractJson]: what is removed from the text
    is said by what a fence marker and a run of white space are, and the
    strategies by positions in the text, not by loops.  It is what
    [extractJson] is compared with. *)
Module ExtractSpec.

(** *** The text that is parsed *)

Definition fence : string := "```".

(** A code-fence marker: three backticks, with or without the language
    tag [json], the tag in any letter case. *)
Inductive fence_marker : string -> Prop :=
| bare_marker : fence_marker fence
| tagged_marker (tag : string) :
    toLowerCase tag = "json" -> fence_marker (fence ++ tag).

(** [m] is the marker in front of [rest]: it takes the tag with it when
    the tag follows the backticks. *)
Definition whole_marker (m rest : string) : Prop :=
  fence_marker m
  /\ (m = fence ->
      forall tag, toLowerCase tag = "json" -> String.prefix tag rest = false).

(** [unfenced t u]: reading [t] from the left, every fence marker is left
    out and every other character is kept, which gives [u]. *)
Inductive unfenced : string -> string -> Prop :=
| unfenced_end : unfenced "" ""
| unfenced_marker (m rest u : string) :
    whole_marker m rest -> unfenced rest u -> unfenced (m ++ rest) u
| unfenced_char (c : ascii) (rest u : string) :
    String.prefix fence (String c rest) = false ->
    unfenced rest u -> unfenced (String c rest) (String c u).

(** A string made of codes of the list, one after the other. *)
Inductive run_of (codes : list string) : string -> Prop :=
| run_end : run_of codes ""
| run_more (w rest : string) :
    In w codes -> run_of codes rest -> run_of codes (w ++ rest).

(** A run of white space. *)
Definition blank : string -> Prop := run_of whitespace.

Definition longest_blank_prefix (a t : string) : Prop :=
  blank a /\ (exists x, t = a ++ x)
  /\ forall a' x, blank a' -> t = a' ++ x ->
                  (String.length a' <= String.length a)%nat.

Definition longest_blank_suffix (b t : string) : Prop :=
  blank b /\ (exists y, t = y ++ b)
  /\ forall b' y, blank b' -> t = y ++ b' ->
                  (String.length b' <= String.length b)%nat.

(** [trimmed t u]: [u] is [t] without the white space it starts with
    and, then, without the white space it ends with. *)
Definition trimmed (t u : string) : Prop :=
  exists a b, t = a ++ u ++ b
    /\ longest_blank_prefix a t /\ longest_blank_suffix b (u ++ b).

(** The text without its fence markers and without the white space at
    its two ends. *)
Definition cleaned (t c : string) : Prop :=
  exists u, unfenced t u /\ trimmed u c.

(** No code of the list is empty or starts another one. *)
Definition is_code (codes : list string) : bool :=
  forallb (fun p =>
             negb (String.eqb p "")
             && forallb (fun q => implb (String.prefix p q) (String.eqb p q))
                  codes) codes.

(** *** The strategies *)

Definition chars (s : string) : list ascii := list_ascii_of_string s.

(** The character at position [i] is [c]. *)
Definition is_at (l : list ascii) (c : ascii) (i : nat) : bool :=
  match nth_error l i with
  | Some x => Ascii.eqb x c
  | None => false
  end.

(** Brace nesting depth after the characters of [l]. *)
Definition depth_of (l : list ascii) : Z :=
  Z.of_nat (count_occ ascii_dec l "{"%char)
  - Z.of_nat (count_occ ascii_dec l "}"%char).

(** Position [j] holds a [{] met at depth zero: a top-level block opens. *)
Definition opens (l : list ascii) (j : nat) : bool :=
  is_at l "{" j && (depth_of (firstn j l) =? 0).

(** Position [i] holds a [}] that brings the depth back to zero. *)
Definition closes (l : list ascii) (i : nat) : bool :=
  is_at l "}" i && (depth_of (firstn (S i) l) =? 0).

(** The opening of the block that closes at [i]: the last top-level
    opening before [i]. *)
Definition block_start (l : list ascii) (i : nat) : option nat :=
  find (opens l) (rev (seq 0 i)).

(** The top-level blocks, in the order in which they close. *)
Definition top_level_blocks (text : string) : list string :=
  flat_map
    (fun i =>
       if closes (chars text) i then
         match block_start (chars text) i with
         | Some j => [substring j (S i - j) text]
         | None => []
         end
       else [])
    (seq 0 (String.length text)).

(** From the first [{] to the last [}], when the former comes first. *)
Definition brace_slice (text : string) : option string :=
  let n := String.length text in
  match find (is_at (chars text) "{") (seq 0 n),
        find (is_at (chars text) "}") (rev (seq 0 n)) with
  | Some i, Some j =>
      if (i <? j)%nat then Some (substring i (S j - i) text) else None
  | _, _ => None
  end.

Fixpoint first_success {A : Type} (attempts : list (option A)) : option A :=
  match attempts with
  | [] => None
  | Some v :: _ => Some v
  | None :: rest => first_success rest
  end.

Section WithBuiltins.
Context `{Builtins}.

Definition strategy1 (text : string) : option json := JSON_parse text.

Definition strategy2 (text : string) : option json :=
  match brace_slice text with
  | Some s => JSON_parse s
  | None => None
  end.

Definition strategy3 (text : string) : option json :=
  first_success (map JSON_parse (top_level_blocks text)).

(** The three strategies in order, on the text that is parsed. *)
Definition strategies (c : string) : result json :=
  match first_success [strategy1 c; strategy2 c; strategy3 c] with
  | Some v => Ok v
  | None => Throw (Error "No valid JSON found")
  end.

(** What [extractJson] is to return: an error for an input that is not a
    non-empty string, and otherwise the outcome of the strategies on the
    cleaned text. *)
Inductive extracts : json -> result json -> Prop :=
| extracts_nothing (text : json) :
    (forall t, text = JStr t -> t = "") ->
    extracts text (Throw (Error "Empty response"))
| extracts_text (t c : string) :
    t <> "" -> cleaned t c -> extracts (JStr t) (strategies c).

End WithBuiltins.

End ExtractSpec.
Export ExtractSpec.

(* ================================================================== *)
(** ** Sample data *)
(* ================================================================== *)

Module Samples.

Definition q : string := String dquote EmptyString.

(** [noise {"a":1} trailing {"b":2} more noise] *)
Definition noisy : string :=
  "noise {" ++ q ++ "a" ++ q ++ ":1} trailing {" ++ q ++ "b" ++ q
  ++ ":2} more noise".

(** The two objects of [noisy]. *)
Definition a_block : string := "{" ++ q ++ "a" ++ q ++ ":1}".
Definition b_block : string := "{" ++ q ++ "b" ++ q ++ ":2}".

(** The same object inside a fenced block. *)
Definition fenced : string :=
  "```json" ++ nl ++ "{" ++ q ++ "a" ++ q ++ ":1}" ++ nl ++ "```".

(** The velocity [0.8] as a double: the nearest one is a little above
    four fifths. *)
Definition velocity : Q := 3602879701896397 # 4503599627370496.

Definition note (tb db p : Q) : json :=
  JObj [ ("tb", JNum (Fin tb)); ("db", JNum (Fin db)); ("p", JNum (Fin p));
         ("v", JNum (Fin velocity)) ].

Definition clip (len : json) (k m : string) (notes : list json) : json :=
  JObj [ ("time_signature", JStr "4/4"); ("length_bars", len);
         ("clip_type", JStr "lead"); ("key", JStr k); ("mode", JStr m);
         ("instrument", JObj [("name", JStr "Piano"); ("program", JNum (of_Z 0))]);
         ("notes", JArr notes) ].

Definition fields (doc : json) : object :=
  match doc with JObj o => o | _ => [] end.

Definition no_request : Request :=
  {| clipType := None; bars := None; key := None; mode := None;
     feel := None; text := None |}.

Definition bass_request : Request :=
  {| clipType := Some (JStr "bass"); bars := Some (JNum (of_Z 8));
     key := Some (JStr "G"); mode := Some (JStr "minor");
     feel := None; text := None |}.

Definition snap : Config := {| SNAP_TO_SCALE := true; STRICT_SCALE := false |}.
Definition strict : Config := {| SNAP_TO_SCALE := false; STRICT_SCALE := true |}.

(** A collaborator that answers with one text block. *)
Definition answers (raw : string) (c : call) : reply :=
  Message [TextBlock raw].

(** A scale outside the mode table: pitch classes 0 and 5 only. *)
Definition sparse : Scale :=
  {| root := Own (of_Z 0); degrees := [of_Z 0; of_Z 5];
     set := [of_Z 0; of_Z 5] |}.

(** A four-bar clip in C major whose only note is a C sharp. *)
Definition c_major_clip : json :=
  clip (JNum (of_Z 4)) "C" "major" [note 0 1 61].

(** The same clip with a mode outside the table. *)
Definition lydian_clip : json :=
  clip (JNum (of_Z 4)) "C" "lydian" [note 0 1 61].

(** A clip in C major whose only note is a C, and which carries a count
    of snapped notes of its own. *)
Definition counted_clip : json :=
  JObj [ ("time_signature", JStr "4/4"); ("length_bars", JNum (of_Z 4));
         ("key", JStr "C"); ("mode", JStr "major");
         ("notes", JArr [note 0 1 60]);
         ("_snapped_info", JObj [("snapped_count", JNum (of_Z 7))]) ].

(** A clip that announces a negative number of bars. *)
Definition negative_bars_clip : json :=
  clip (JNum (of_Z (-2))) "C" "major" [note 0 1 60].

(** A clip that announces no usable number of bars. *)
Definition zero_bars_clip : json :=
  clip (JNum (of_Z 0)) "C" "major" [note 0 1 60].

(** A clip in D major with a fractional pitch and the lowest pitch. *)
Definition d_major_clip : json :=
  clip (JNum (of_Z 4)) "D" "major" [note 0 1 (121 # 2); note 1 1 0].

(** Notes around the sixteen-beat boundary, and one above the pitch
    range. *)
Definition boundary_clip : json :=
  clip (JNum (of_Z 4)) "C" "major"
    [note 15 2 60; note 15 1 60; note 0 1 200].

(** Four bars in three-four time. *)
Definition waltz_clip : json :=
  JObj [ ("time_signature", JStr "3/4"); ("length_bars", JNum (of_Z 4));
         ("key", JStr "C"); ("mode", JStr "major");
         ("notes", JArr [note 0 1 60]) ].

(** A clip whose time signature is the number 3. *)
Definition numeric_metre_clip : json :=
  JObj [ ("time_signature", JNum (of_Z 3)); ("length_bars", JNum (of_Z 4));
         ("key", JStr "C"); ("mode", JStr "major");
         ("notes", JArr [note 0 1 60]) ].

(** A duration that is lost when it is added to sixteen: [2 ^ -60]. *)
Definition tiny : Q := 1 # 1152921504606846976.

(** The text of [c_major_clip] as a model might send it. *)
Definition c_major_text : string :=
  "{" ++ q ++ "time_signature" ++ q ++ ":" ++ q ++ "4/4" ++ q ++ ","
  ++ q ++ "length_bars" ++ q ++ ":4,"
  ++ q ++ "clip_type" ++ q ++ ":" ++ q ++ "lead" ++ q ++ ","
  ++ q ++ "key" ++ q ++ ":" ++ q ++ "C" ++ q ++ ","
  ++ q ++ "mode" ++ q ++ ":" ++ q ++ "major" ++ q ++ ","
  ++ q ++ "instrument" ++ q ++ ":{" ++ q ++ "name" ++ q ++ ":" ++ q
  ++ "Piano" ++ q ++ "," ++ q ++ "program" ++ q ++ ":0},"
  ++ q ++ "notes" ++ q ++ ":[{" ++ q ++ "tb" ++ q ++ ":0," ++ q ++ "db"
  ++ q ++ ":1," ++ q ++ "p" ++ q ++ ":61," ++ q ++ "v" ++ q ++ ":0.8}]}".

(** What the snap policy answers for [c_major_clip]. *)
Definition c_major_answer : json :=
  JObj [ ("time_signature", JStr "4/4"); ("length_bars", JNum (of_Z 4));
         ("clip_type", JStr "lead"); ("key", JStr "C"); ("mode", JStr "major");
         ("instrument", JObj [("name", JStr "Piano"); ("program", JNum (of_Z 0))]);
         ("notes", JArr [note 0 1 60]);
         ("_snapped_info", snapped_info 1) ].

(** The text of [d_major_clip]. *)
Definition d_major_text : string :=
  "{" ++ q ++ "time_signature" ++ q ++ ":" ++ q ++ "4/4" ++ q ++ ","
  ++ q ++ "length_bars" ++ q ++ ":4,"
  ++ q ++ "clip_type" ++ q ++ ":" ++ q ++ "lead" ++ q ++ ","
  ++ q ++ "key" ++ q ++ ":" ++ q ++ "D" ++ q ++ ","
  ++ q ++ "mode" ++ q ++ ":" ++ q ++ "major" ++ q ++ ","
  ++ q ++ "instrument" ++ q ++ ":{" ++ q ++ "name" ++ q ++ ":" ++ q
  ++ "Piano" ++ q ++ "," ++ q ++ "program" ++ q ++ ":0},"
  ++ q ++ "notes" ++ q ++ ":[{" ++ q ++ "tb" ++ q ++ ":0," ++ q ++ "db"
  ++ q ++ ":1," ++ q ++ "p" ++ q ++ ":60.5," ++ q ++ "v" ++ q ++ ":0.8},{"
  ++ q ++ "tb" ++ q ++ ":1," ++ q ++ "db" ++ q ++ ":1," ++ q ++ "p" ++ q
  ++ ":0," ++ q ++ "v" ++ q ++ ":0.8}]}".

(** [{"b":1,"2":2,"1":3}] *)
Definition ordered_text : string :=
  "{" ++ q ++ "b" ++ q ++ ":1," ++ q ++ "2" ++ q ++ ":2," ++ q ++ "1" ++ q
  ++ ":3}".

End Samples.

(* ================================================================== *)
(** ** Predicates of the statements *)
(* ================================================================== *)

(** A scale of the data model: a non-empty set of pitch classes. *)
Definition pitch_class_set (s : Scale) : Prop :=
  set s <> [] /\
  Forall (fun x => exists k, 0 <= k < 12 /\ is_int x k) (set s).

(** The order of the numbers; nothing compares with [NaN]. *)
Definition Nle (a b : number) : Prop :=
  match a, b with
  | NaN, _ | _, NaN => False
  | NegInf, _ | _, PosInf => True
  | Fin x, Fin y => (x <= y)%Q
  | _, _ => False
  end.

(** [tb + db <= total], the sum being the one the program computes: the
    double nearest to the exact sum. *)
Definition within (tb db : Q) (total : number) : Prop :=
  Nle (double (tb + db)) total.

(** The temporal conditions on a note: finite [tb >= 0], finite [db > 0],
    and [tb + db <= total] for the sum in doubles. *)
Definition temporal (total : number) (n : json) : Prop :=
  exists tb db : Q,
    prop n "tb" = Some (JNum (Fin tb)) /\
    prop n "db" = Some (JNum (Fin db)) /\
    (0 <= tb)%Q /\ (0 < db)%Q /\ within tb db total.

(** The pitch of a note is a finite number of [0, 127]. *)
Definition pitch_in_range (n : json) : Prop :=
  exists p : Q, prop n "p" = Some (JNum (Fin p)) /\ (0 <= p <= 127)%Q.

(** The pitch of a note is an integer of [0, 127]. *)
Definition pitch_is_midi (n : json) : Prop :=
  exists z : Z, 0 <= z <= 127 /\
    exists p : Q, prop n "p" = Some (JNum (Fin p)) /\ p == inject_Z z.

(** [lengthBars * beatsPerBar] of a clip document. *)
Definition clip_totalBeats (doc : json) : option number :=
  match prop doc "length_bars", prop doc "time_signature" with
  | Some (JNum bars'), Some (JStr ts) =>
      Some (mul bars' (if startsWith "3/" ts then of_Z 3 else of_Z 4))
  | _, _ => None
  end.

(** The notes of a clip document. *)
Definition clip_notes (doc : json) : list json :=
  match prop doc "notes" with
  | Some (JArr l) => l
  | _ => []
  end.

(** The pitch a note carries. *)
Definition pitch_of (n : json) : number := num (prop n "p").

(** The pitch of [n'] differs from the pitch of [n]. *)
Definition pitch_changed (n n' : json) : bool :=
  negb (strict_eq (pitch_of n') (pitch_of n)).

(** The number of positions at which the pitch differs. *)
Definition changed_count (before after : list json) : nat :=
  List.length
    (filter (fun nn => pitch_changed (fst nn) (snd nn))
       (combine before after)).

(** The number of notes whose pitch is out of the scale. *)
Fixpoint nonconforming (s : Scale) (notes : list json) : nat :=
  match notes with
  | [] => 0
  | n :: rest =>
      ((if inScale (pitch_of n) (Some s) then 0 else 1)
       + nonconforming s rest)%nat
  end.

(** [-1] for an absent position. *)
Definition position (o : option nat) : Z :=
  match o with
  | Some j => Z.of_nat j
  | None => -1
  end.

(** An integer whose neighbours up to six semitones away are all held
    exactly by a double, as every integer up to [2 ^ 53] in magnitude
    is. *)
Definition safe (z : Z) : Prop := Z.abs z <= 2 ^ 53 - 6.

(** The integers of a list are pairwise different. *)
Fixpoint distinct (l : list Z) : bool :=
  match l with
  | [] => true
  | x :: r => negb (existsb (Z.eqb x) r) && distinct r
  end.

(** The members of the scale on root [rz] with the offsets [dzs]. *)
Definition classes (rz : Z) (dzs : list Z) : list Z :=
  map (fun dz => (rz + dz) mod 12) dzs.

(* ================================================================== *)
(** ** Rounding to the nearest double *)
(* ================================================================== *)

Lemma Qred_inject_Z (z : Z) : Qred (inject_Z z) = inject_Z z.
Proof.
  apply Qcanon.Qred_identity. simpl. apply Z.gcd_1_r.
Qed.

Lemma nearest_even_int (q : Q) (m : Z) : q == inject_Z m -> nearest_even q = m.
Proof.
  unfold Qeq, nearest_even. simpl. rewrite Z.mul_1_r. intros ->.
  rewrite Z.mod_mul, Z.div_mul by discriminate.
  destruct (Z.ltb_spec (2 * 0) (Z.pos (Qden q))) as [_ | L]; [reflexivity | lia].
Qed.

Lemma nearest_even_close (q : Q) :
  (inject_Z (nearest_even q) <= q + (1 # 2))%Q
  /\ (q - (1 # 2) <= inject_Z (nearest_even q))%Q.
Proof.
  destruct q as [n d]. unfold nearest_even. cbn [Qnum Qden].
  pose proof (Z.div_mod n (Z.pos d) ltac:(discriminate)) as E.
  pose proof (Z.mod_pos_bound n (Z.pos d) ltac:(lia)) as B.
  set (f := n / Z.pos d) in *. set (r := n mod Z.pos d) in *.
  assert (Hf : (inject_Z f <= (n # d) + (1 # 2))%Q
               /\ 2 * r <= Z.pos d -> (inject_Z f <= (n # d) + (1 # 2))%Q
               /\ ((n # d) - (1 # 2) <= inject_Z f)%Q).
  { intros [H1 H2]. split; [exact H1 |].
    unfold Qle, Qminus, Qplus, Qopp, inject_Z. simpl. nia. }
  assert (H0 : (inject_Z f <= (n # d) + (1 # 2))%Q).
  { unfold Qle, Qplus, inject_Z. simpl. nia. }
  assert (Hs : Z.pos d <= 2 * r ->
               (inject_Z (f + 1) <= (n # d) + (1 # 2))%Q
               /\ ((n # d) - (1 # 2) <= inject_Z (f + 1))%Q).
  { intros H2. split; unfold Qle, Qminus, Qplus, Qopp, inject_Z; simpl; nia. }
  destruct (Z.ltb_spec (2 * r) (Z.pos d)) as [L | L].
  - apply Hf. split; [exact H0 | lia].
  - destruct (Z.ltb_spec (Z.pos d) (2 * r)) as [L' | L'].
    + apply Hs. lia.
    + destruct (Z.even f); [apply Hf; split; [exact H0 | lia] | apply Hs; lia].
Qed.

Lemma pow2_pos (x : Z) : (0 < pow2 x)%Q.
Proof. apply Qpower_0_lt. reflexivity. Qed.

Lemma pow2_nonneg_Z (x : Z) : 0 <= x -> pow2 x == inject_Z (2 ^ x).
Proof. intros Hx. unfold pow2. symmetry. apply (Zpower_Qpower 2 x Hx). Qed.

Lemma pow2_add (x y : Z) : pow2 (x + y) == pow2 x * pow2 y.
Proof. unfold pow2. apply Qpower_plus. discriminate. Qed.

Lemma pow2_le (x y : Z) : x <= y -> (pow2 x <= pow2 y)%Q.
Proof. intros L. apply Qpower_le_compat_l; [exact L | discriminate]. Qed.

Lemma Qabs_inject_Z (z : Z) : Qabs (inject_Z z) = inject_Z (Z.abs z).
Proof. reflexivity. Qed.

Lemma binade_inject_Z (z : Z) :
  z <> 0 -> binade (inject_Z z) = Z.log2 (Z.abs z).
Proof.
  intros Hz. unfold binade.
  change (Qnum (inject_Z z)) with z. change (Qden (inject_Z z)) with 1%positive.
  change (Z.log2 1) with 0. rewrite Z.sub_0_r.
  assert (L : Qle_bool (pow2 (Z.log2 (Z.abs z))) (Qabs (inject_Z z)) = true).
  { apply Qle_bool_iff. rewrite pow2_nonneg_Z by apply Z.log2_nonneg.
    change (Qabs (inject_Z z)) with (inject_Z (Z.abs z)).
    rewrite <- Zle_Qle. apply Z.log2_spec. lia. }
  rewrite L. reflexivity.
Qed.

(** The binade of a number starts below it. *)
Lemma binade_below (q : Q) : ~ q == 0 -> (pow2 (binade q) <= Qabs q)%Q.
Proof.
  intros Hq. unfold binade.
  set (k := Z.log2 (Z.abs (Qnum q)) - Z.log2 (Z.pos (Qden q))).
  destruct (Qle_bool (pow2 k) (Qabs q)) eqn:T; [apply Qle_bool_iff; exact T |].
  destruct q as [n d]. cbn [Qnum Qden] in *.
  assert (Hn : 0 < Z.abs n).
  { destruct n; try lia. exfalso. apply Hq. reflexivity. }
  pose proof (Z.log2_spec (Z.abs n) Hn) as [La _].
  pose proof (Z.log2_spec (Z.pos d) ltac:(lia)) as [_ Lb].
  pose proof (Z.log2_nonneg (Z.abs n)) as Na.
  pose proof (Z.log2_nonneg (Z.pos d)) as Nb.
  set (la := Z.log2 (Z.abs n)) in *. set (lb := Z.log2 (Z.pos d)) in *.
  replace (k - 1) with (la + - (lb + 1)) by (subst k; lia).
  rewrite pow2_add. unfold pow2 at 2. rewrite Qpower_opp.
  fold (pow2 (lb + 1)). rewrite !pow2_nonneg_Z by lia.
  change (Qabs (n # d)) with (Z.abs n # d).
  assert (P : 0 < 2 ^ (lb + 1)) by (apply Z.pow_pos_nonneg; lia).
  apply Qle_shift_div_r.
  - change 0%Q with (inject_Z 0). rewrite <- Zlt_Qlt. exact P.
  - replace (Z.succ lb) with (lb + 1) in Lb by lia.
    unfold Qle, Qmult, inject_Z. cbn [Qnum Qden]. nia.
Qed.

(** A number on the grid of its binade, below the overflow threshold, is
    its own double. *)
Lemma nearest_double_exact (q : Q) (m : Z) :
  ~ q == 0 ->
  q == inject_Z m * pow2 (ulp_exponent q) ->
  (Qabs q < pow2 1024)%Q ->
  nearest_double q = Fin (Qred q).
Proof.
  intros Hq Hm Hb. unfold nearest_double.
  destruct (Qeq_bool q 0) eqn:E; [apply Qeq_bool_iff in E; contradiction |].
  pose proof (pow2_pos (ulp_exponent q)) as Hu.
  set (u := pow2 (ulp_exponent q)) in *.
  assert (Hv : q / u == inject_Z m).
  { rewrite Hm. field. intros Z0. rewrite Z0 in Hu. discriminate Hu. }
  rewrite (nearest_even_int _ _ Hv).
  assert (Er : Qred (inject_Z m * u) = Qred q)
    by (apply Qred_complete; symmetry; exact Hm).
  rewrite Er.
  destruct (Qle_bool (pow2 1024) (Qabs (Qred q))) eqn:O; [| reflexivity].
  exfalso. apply Qle_bool_iff in O. rewrite (Qred_correct q) in O.
  apply (Qlt_not_le _ _ Hb). exact O.
Qed.

(** Every integer up to [2 ^ 53] in magnitude is a double. *)
Lemma double_inject_Z (z : Z) :
  Z.abs z <= 2 ^ 53 -> double (inject_Z z) = Fin (inject_Z z).
Proof.
  intros Hz. unfold double. rewrite Qred_inject_Z.
  destruct (Z.eq_dec z 0) as [-> | Hnz]; [reflexivity |].
  change (2 ^ 53) with 9007199254740992 in Hz.
  destruct (Z.eq_dec (Z.abs z) 9007199254740992) as [Htop | Hlt].
  { assert (z = 9007199254740992 \/ z = - 9007199254740992) as [-> | ->]
      by lia;
      vm_compute; reflexivity. }
  rewrite <- (Qred_inject_Z z) at 2.
  assert (Hl : Z.log2 (Z.abs z) < 53).
  { apply Z.log2_lt_pow2; [lia |].
    change (2 ^ 53) with 9007199254740992. lia. }
  pose proof (Z.log2_nonneg (Z.abs z)) as Hl0.
  assert (Hx : ulp_exponent (inject_Z z) = Z.log2 (Z.abs z) - 52).
  { unfold ulp_exponent. rewrite binade_inject_Z by exact Hnz. lia. }
  apply (nearest_double_exact _ (z * 2 ^ (52 - Z.log2 (Z.abs z)))).
  - intros E. apply Hnz.
    unfold Qeq in E. simpl in E. lia.
  - rewrite Hx. rewrite inject_Z_mult.
    rewrite <- pow2_nonneg_Z by lia.
    rewrite <- Qmult_assoc, <- pow2_add.
    replace (52 - Z.log2 (Z.abs z) + (Z.log2 (Z.abs z) - 52)) with 0 by lia.
    change (pow2 0) with 1%Q. ring.
  - rewrite Qabs_inject_Z, pow2_nonneg_Z by lia. rewrite <- Zlt_Qlt.
    apply (Z.le_lt_trans _ 9007199254740992); [exact Hz | reflexivity].
Qed.

Lemma Qabs_le_close (m v h : Q) :
  (m <= v + h)%Q -> (v - h <= m)%Q -> (Qabs m <= Qabs v + h)%Q.
Proof.
  intros H1 H2. apply Qabs_case; intros Hm.
  - apply (Qle_trans _ _ _ H1). apply Qplus_le_l. apply Qle_Qabs.
  - apply (Qle_trans _ (- (v - h))).
    + apply Qopp_le_compat. exact H2.
    + setoid_replace (- (v - h))%Q with (- v + h)%Q by ring.
      apply Qplus_le_l. rewrite <- Qabs_opp. apply Qle_Qabs.
Qed.

(** Below the overflow threshold the double is finite. *)
Lemma nearest_double_finite (q : Q) :
  (Qabs q < pow2 1024 - pow2 970)%Q -> exists r, nearest_double q = Fin r.
Proof.
  intros Hb. unfold nearest_double.
  destruct (Qeq_bool q 0) eqn:E; [eexists; reflexivity |].
  assert (Hq : ~ q == 0) by (intros Z0; apply Qeq_bool_iff in Z0; congruence).
  pose proof (pow2_pos (ulp_exponent q)) as Hu.
  set (u := pow2 (ulp_exponent q)) in *.
  set (m := nearest_even (q / u)).
  destruct (Qle_bool (pow2 1024) (Qabs (Qred (inject_Z m * u)))) eqn:O;
    [| eexists; reflexivity].
  exfalso. apply Qle_bool_iff in O. rewrite Qred_correct in O.
  assert (Hx : ulp_exponent q <= 971).
  { unfold ulp_exponent.
    assert (binade q < 1024); [| lia].
    apply (Qpower_lt_compat_l_inv 2); [| reflexivity].
    apply (Qle_lt_trans _ (Qabs q)); [apply binade_below; exact Hq |].
    apply (Qlt_le_trans _ _ _ Hb).
    setoid_replace (pow2 1024) with (pow2 1024 - 0)%Q at 2 by ring.
    apply Qplus_le_r. apply Qopp_le_compat. apply Qlt_le_weak, pow2_pos. }
  destruct (nearest_even_close (q / u)) as [C1 C2]. fold m in C1, C2.
  pose proof (Qabs_le_close _ _ _ C1 C2) as C.
  assert (Hr : (Qabs (inject_Z m * u) <= Qabs q + pow2 970)%Q).
  { rewrite Qabs_Qmult. rewrite (Qabs_pos u) by (apply Qlt_le_weak; exact Hu).
    apply (Qle_trans _ ((Qabs (q / u) + (1 # 2)) * u)).
    - apply Qmult_le_compat_r; [exact C | apply Qlt_le_weak; exact Hu].
    - unfold Qdiv. rewrite Qabs_Qmult, Qabs_Qinv.
      rewrite (Qabs_pos u) by (apply Qlt_le_weak; exact Hu).
      setoid_replace ((Qabs q * / u + (1 # 2)) * u)%Q
        with (Qabs q + (1 # 2) * u)%Q
        by (field; intros Z0; rewrite Z0 in Hu; discriminate Hu).
      apply Qplus_le_r.
      apply (Qle_trans _ ((1 # 2) * pow2 971)).
      + apply Qmult_le_l; [reflexivity | apply pow2_le; exact Hx].
      + replace 971 with (970 + 1) by reflexivity. rewrite pow2_add.
        change (pow2 1) with 2%Q. apply Qle_lteq. right. ring. }
  apply (Qlt_irrefl (pow2 1024)).
  apply (Qle_lt_trans _ _ _ O). apply (Qle_lt_trans _ _ _ Hr).
  apply (Qplus_lt_l _ _ (- pow2 970)).
  setoid_replace (Qabs q + pow2 970 + - pow2 970)%Q with (Qabs q) by ring.
  exact Hb.
Qed.

Lemma double_finite (q : Q) :
  (Qabs q < pow2 1024 - pow2 970)%Q -> exists r, double q = Fin r.
Proof.
  intros Hb. apply nearest_double_finite. rewrite Qred_correct. exact Hb.
Qed.

(** The double of a real number depends on its value only. *)
Lemma double_wd (q q' : Q) : q == q' -> double q = double q'.
Proof.
  intros E. unfold double. rewrite (Qred_complete _ _ E). reflexivity.
Qed.

(** Rounding yields a number, never [NaN]. *)
Lemma double_not_NaN (q : Q) : double q <> NaN.
Proof.
  unfold double, nearest_double.
  destruct (Qeq_bool _ _); [discriminate |].
  destruct (Qle_bool (pow2 1024) _); [| discriminate].
  destruct (Qle_bool 0 _); discriminate.
Qed.

(* ================================================================== *)
(** ** Arithmetic of integer-valued numbers *)
(* ================================================================== *)

Lemma fin_is_int (x : Q) (z : Z) : x == inject_Z z -> fin x = of_Z z.
Proof.
  intros E. unfold fin, of_Z. f_equal.
  rewrite (Qred_complete _ _ E). apply Qred_inject_Z.
Qed.

Lemma double_is_int (x : Q) (z : Z) :
  Z.abs z <= 2 ^ 53 -> x == inject_Z z -> double x = of_Z z.
Proof.
  intros Hz E. rewrite (double_wd _ _ E). apply double_inject_Z. exact Hz.
Qed.

(** Sums and differences of integers are exact up to [2 ^ 53]. *)
Lemma add_of_Z (a b : Z) :
  Z.abs (a + b) <= 2 ^ 53 -> add (of_Z a) (of_Z b) = of_Z (a + b).
Proof.
  intros Hb. simpl. apply double_is_int; [exact Hb |].
  rewrite inject_Z_plus. reflexivity.
Qed.

Lemma sub_of_Z (a b : Z) :
  Z.abs (a - b) <= 2 ^ 53 -> sub (of_Z a) (of_Z b) = of_Z (a - b).
Proof.
  intros Hb. simpl. apply double_is_int; [exact Hb |]. unfold Z.sub.
  rewrite inject_Z_plus, inject_Z_opp. reflexivity.
Qed.

(** The neighbours of a safe integer, six semitones either way, are
    exact. *)
Lemma safe_neighbour (z d : Z) :
  safe z -> -6 <= d <= 6 -> Z.abs (z + d) <= 2 ^ 53.
Proof.
  unfold safe. change (2 ^ 53) with 9007199254740992. lia.
Qed.

Lemma sub_safe (z e : Z) :
  safe z -> 0 <= e <= 6 -> sub (of_Z z) (of_Z e) = of_Z (z - e).
Proof.
  intros Hz He. apply sub_of_Z.
  replace (z - e) with (z + - e) by lia. apply safe_neighbour; [exact Hz | lia].
Qed.

Lemma add_safe (z e : Z) :
  safe z -> 0 <= e <= 6 -> add (of_Z z) (of_Z e) = of_Z (z + e).
Proof.
  intros Hz He. apply add_of_Z. apply safe_neighbour; [exact Hz | lia].
Qed.

Lemma Qeq_bool_inject_Z (a b : Z) :
  Qeq_bool (inject_Z a) (inject_Z b) = (a =? b).
Proof.
  unfold Qeq_bool, inject_Z. simpl. rewrite !Z.mul_1_r. reflexivity.
Qed.

Lemma rem_of_Z (a b : Z) :
  b <> 0 -> rem (of_Z a) (of_Z b) = of_Z (Z.rem a b).
Proof.
  intros Hb. unfold rem, of_Z.
  change 0%Q with (inject_Z 0). rewrite Qeq_bool_inject_Z.
  destruct (Z.eqb_spec b 0) as [E | _]; [contradiction |].
  apply fin_is_int.
  assert (T : Qtrunc (inject_Z a / inject_Z b) = Z.quot a b).
  { unfold Qtrunc, Qdiv, Qmult, Qinv, inject_Z. simpl.
    destruct b as [| p | p]; [contradiction | |]; simpl.
    - rewrite Z.mul_1_r. reflexivity.
    - rewrite <- (Z.quot_opp_opp a (Z.neg p)) by discriminate.
      simpl. f_equal. lia. }
  rewrite T, <- inject_Z_mult.
  unfold Qminus. rewrite <- inject_Z_opp, <- inject_Z_plus.
  apply inject_Z_injective.
  pose proof (Z.quot_rem' a b). lia.
Qed.

(** The remainder by twelve is below twelve in magnitude. *)
Lemma rem12_bound (q : Q) :
  exists r, rem (Fin q) (of_Z 12) = Fin r /\ (Qabs r < inject_Z 12)%Q.
Proof.
  eexists. split; [reflexivity |].
  rewrite Qred_correct. apply Qabs_Qlt_condition.
  destruct q as [n d].
  unfold Qtrunc, Qdiv, Qmult, Qinv, Qminus, Qplus, Qopp, Qlt, inject_Z.
  cbn [Qnum Qden].
  pose proof (Z.quot_rem' (n * 1) (Z.pos (d * 12))) as E.
  pose proof (Z.rem_bound_abs (n * 1) (Z.pos (d * 12)) ltac:(discriminate)) as B.
  set (t := Z.quot (n * 1) (Z.pos (d * 12))) in *.
  set (m := Z.rem (n * 1) (Z.pos (d * 12))) in *.
  rewrite ?Pos2Z.inj_mul, ?Z.mul_1_r in *. nia.
Qed.

Lemma pc_of_Z (z : Z) : pc (of_Z z) = of_Z (z mod 12).
Proof.
  pose proof (Z.rem_bound_abs z 12 ltac:(discriminate)) as B.
  unfold pc. rewrite rem_of_Z by discriminate.
  rewrite add_of_Z by (change (2 ^ 53) with 9007199254740992; simpl in B; lia).
  rewrite rem_of_Z by discriminate.
  f_equal.
  assert (E : (Z.rem z 12 + 12) mod 12 = z mod 12).
  { replace (Z.rem z 12 + 12) with (z + (1 - z ÷ 12) * 12)
      by (pose proof (Z.quot_rem' z 12); lia).
    apply Z.mod_add. discriminate. }
  rewrite <- E. apply Z.rem_mod_nonneg; [| lia].
  simpl in B. lia.
Qed.

Lemma sameValueZero_of_Z (a : Z) (x : number) :
  sameValueZero (of_Z a) x = true <-> is_int x a.
Proof.
  destruct x; simpl; try (split; [discriminate | contradiction]).
  rewrite Qeq_bool_iff. split; intros E; symmetry; exact E.
Qed.

(** Six semitones from a finite double there is no overflow. *)
Lemma near_max (x : Q) (e : Z) :
  (Qabs x <= MAX_VALUE)%Q -> Z.abs e <= 6 ->
  (Qabs (x + inject_Z e) < pow2 1024 - pow2 970)%Q.
Proof.
  intros Hx He.
  apply (Qle_lt_trans _ (MAX_VALUE + inject_Z 6)).
  - apply (Qle_trans _ _ _ (Qabs_triangle _ _)).
    apply Qplus_le_compat; [exact Hx |].
    rewrite Qabs_inject_Z, <- Zle_Qle. exact He.
  - unfold MAX_VALUE. rewrite <- inject_Z_plus.
    rewrite !pow2_nonneg_Z by discriminate.
    unfold Qminus. rewrite <- inject_Z_opp, <- inject_Z_plus, <- Zlt_Qlt.
    vm_compute. reflexivity.
Qed.

Lemma add_near_max (x : Q) (e : Z) :
  (Qabs x <= MAX_VALUE)%Q -> Z.abs e <= 6 ->
  exists r, add (Fin x) (of_Z e) = Fin r.
Proof.
  intros Hx He. apply double_finite. apply near_max; assumption.
Qed.

Lemma sub_near_max (x : Q) (e : Z) :
  (Qabs x <= MAX_VALUE)%Q -> Z.abs e <= 6 ->
  exists r, sub (Fin x) (of_Z e) = Fin r.
Proof.
  intros Hx He. cbn [sub of_Z].
  rewrite (double_wd _ (x + inject_Z (- e))).
  - apply double_finite. apply near_max; [exact Hx | lia].
  - rewrite inject_Z_opp. reflexivity.
Qed.

(* ================================================================== *)
(** ** The search of [nearestInScale] *)
(* ================================================================== *)

Section Search.
Variable s : Scale.

(** Membership of a pitch, [inScale] on a non-null scale. *)
Let member_of (p : number) : bool := inScale p (Some s).

Lemma search_spec (p : number) : forall (n : nat) (d : Z),
  (exists e, d <= e < d + Z.of_nat n /\
     (forall e', d <= e' < e ->
        member_of (sub p (of_Z e')) = false /\
        member_of (add p (of_Z e')) = false) /\
     ((member_of (sub p (of_Z e)) = true /\
       search p s d n = sub p (of_Z e)) \/
      (member_of (sub p (of_Z e)) = false /\
       member_of (add p (of_Z e)) = true /\
       search p s d n = add p (of_Z e))))
  \/
  ((forall e', d <= e' < d + Z.of_nat n ->
      member_of (sub p (of_Z e')) = false /\
      member_of (add p (of_Z e')) = false) /\
   search p s d n = p).
Proof.
  induction n as [| n IH]; intros d.
  - right. split; [intros e' He'; lia | reflexivity].
  - cbn [search].
    destruct (Set_has (set s) (pc (sub p (of_Z d)))) eqn:Hdown.
    + left. exists d. split; [lia |]. split; [intros e' He'; lia |].
      left. split; [exact Hdown | reflexivity].
    + destruct (Set_has (set s) (pc (add p (of_Z d)))) eqn:Hup.
      * left. exists d. split; [lia |]. split; [intros e' He'; lia |].
        right. repeat split; assumption.
      * destruct (IH (d + 1)) as [(e & He & Hbefore & Hat) | (Hnone & Hr)].
        -- left. exists e. split; [lia |]. split; [| exact Hat].
           intros e' He'. destruct (Z.eq_dec e' d) as [-> | Hne].
           ++ split; assumption.
           ++ apply Hbefore. lia.
        -- right. split; [| exact Hr].
           intros e' He'. destruct (Z.eq_dec e' d) as [-> | Hne].
           ++ split; assumption.
           ++ apply Hnone. lia.
Qed.

(** The result is the pitch itself or a pitch of the scale. *)
Lemma search_fixed_or_member (p : number) (n : nat) (d : Z) :
  search p s d n = p \/ member_of (search p s d n) = true.
Proof.
  destruct (search_spec p n d) as [(e & _ & _ & [[Hm ->] | (_ & Hm & ->)]) | [_ Hr]];
    auto.
Qed.

Lemma nearest_fixed_or_member (p : number) :
  nearestInScale p (Some s) = p \/
  member_of (nearestInScale p (Some s)) = true.
Proof.
  unfold nearestInScale.
  destruct (inScale p (Some s)) eqn:E; [left; reflexivity |].
  apply search_fixed_or_member.
Qed.

Lemma nearest_of_member (p : number) :
  member_of p = true -> nearestInScale p (Some s) = p.
Proof.
  unfold member_of, nearestInScale. intros ->. reflexivity.
Qed.

(** The search returns a number. *)
Lemma search_not_NaN (x : Q) (n : nat) (d : Z) :
  search (Fin x) s d n <> NaN.
Proof.
  revert d. induction n as [| n IH]; intros d; cbn [search]; [discriminate |].
  destruct (Set_has _ _); [apply double_not_NaN |].
  destruct (Set_has _ _); [apply double_not_NaN | apply IH].
Qed.

(** On a finite double the six distances of the loop stay finite. *)
Lemma search_finite (x : Q) :
  (Qabs x <= MAX_VALUE)%Q ->
  forall (n : nat) (d : Z),
    0 <= d -> d + Z.of_nat n <= 7 ->
    isFinite (search (Fin x) s d n) = true.
Proof.
  intros Hx. induction n as [| n IH]; intros d Hd Hn; cbn [search];
    [reflexivity |].
  destruct (Set_has _ _).
  - destruct (sub_near_max x d Hx ltac:(lia)) as (r & ->). reflexivity.
  - destruct (Set_has _ _).
    + destruct (add_near_max x d Hx ltac:(lia)) as (r & ->). reflexivity.
    + apply IH; lia.
Qed.

Lemma member_of_Z (y : Z) :
  member_of (of_Z y) = true <->
  exists x, In x (set s) /\ is_int x (y mod 12).
Proof.
  unfold member_of, inScale, Set_has. rewrite pc_of_Z, existsb_exists.
  split; intros (x & Hin & Hx); exists x; split; auto;
    apply sameValueZero_of_Z; exact Hx.
Qed.

(** In a non-empty set of pitch classes some pitch within six semitones
    conforms. *)
Lemma member_within_six (z : Z) :
  pitch_class_set s ->
  member_of (of_Z z) = false ->
  exists d, 1 <= d <= 6 /\
    (member_of (of_Z (z - d)) = true \/ member_of (of_Z (z + d)) = true).
Proof.
  intros [Hne Hall] Hout.
  destruct (set s) as [| x rest] eqn:Es; [contradiction |].
  pose proof (Forall_inv Hall) as (k & Hk & Hx).
  assert (Hin : In x (set s)) by (rewrite Es; left; reflexivity).
  set (t := (z mod 12 - k) mod 12).
  assert (Ht : 0 <= t < 12) by (apply Z.mod_pos_bound; lia).
  destruct (Z.eq_dec t 0) as [E0 | N0].
  - assert (Ez : z mod 12 = k).
    { subst t. pose proof (Z.mod_pos_bound z 12 ltac:(lia)).
      Z.to_euclidean_division_equations. lia. }
    assert (member_of (of_Z z) = true) as C.
    { apply member_of_Z. exists x. rewrite Ez. auto. }
    congruence.
  - destruct (Z_le_gt_dec t 6) as [Hle | Hgt].
    + exists t. split; [lia |]. left. apply member_of_Z. exists x.
      split; [exact Hin |].
      replace ((z - t) mod 12) with k; [exact Hx |].
      subst t. Z.to_euclidean_division_equations. lia.
    + exists (12 - t). split; [lia |]. right. apply member_of_Z. exists x.
      split; [exact Hin |].
      replace ((z + (12 - t)) mod 12) with k; [exact Hx |].
      subst t. Z.to_euclidean_division_equations. lia.
Qed.

End Search.

Lemma nearest_finite (x : Q) (s : option Scale) :
  (Qabs x <= MAX_VALUE)%Q ->
  isFinite (nearestInScale (Fin x) s) = true.
Proof.
  intros Hx. destruct s as [s |]; [| reflexivity].
  unfold nearestInScale. destruct (inScale _ _); [reflexivity |].
  apply search_finite; [exact Hx | lia | simpl; lia].
Qed.

Lemma nearest_not_NaN (x : Q) (s : option Scale) :
  nearestInScale (Fin x) s <> NaN.
Proof.
  destruct s as [s |]; [| discriminate].
  unfold nearestInScale. destruct (inScale _ _); [discriminate |].
  apply search_not_NaN.
Qed.

Lemma strict_eq_same (n : number) : n <> NaN -> strict_eq n n = true.
Proof.
  destruct n; try reflexivity; [contradiction |]. intros _. simpl.
  apply Qeq_bool_iff. reflexivity.
Qed.

Lemma strict_eq_refl (n : number) : isFinite n = true -> strict_eq n n = true.
Proof.
  intros Hf. apply strict_eq_same. intros ->. discriminate Hf.
Qed.

(* ================================================================== *)
(** ** Properties of [nearestInScale] *)
(* ================================================================== *)

(** C9. [nearestInScale] is idempotent: for every integer pitch and every
    scale, [null] or not (hence every scale [buildScale] returns),
    snapping a snapped pitch gives the snapped pitch again, as a value and
    under the [==] of the language. *)
Theorem nearestInScale_idempotent (z : Z) (s : option Scale) :
  nearestInScale (nearestInScale (of_Z z) s) s = nearestInScale (of_Z z) s
  /\ strict_eq (nearestInScale (nearestInScale (of_Z z) s) s)
       (nearestInScale (of_Z z) s) = true.
Proof.
  assert (E : nearestInScale (nearestInScale (of_Z z) s) s
              = nearestInScale (of_Z z) s).
  { destruct s as [s |]; [| reflexivity].
    destruct (nearest_fixed_or_member s (of_Z z)) as [Hfix | Hm].
    - rewrite Hfix. exact Hfix.
    - apply nearest_of_member. exact Hm. }
  split; [exact E |].
  rewrite E. apply strict_eq_same. apply nearest_not_NaN.
Qed.

(** The search on an integer pitch with exact neighbours. *)
Lemma nearest_outcome (z : Z) (s : Scale) :
  pitch_class_set s ->
  safe z ->
  inScale (of_Z z) (Some s) = false ->
  exists d, 1 <= d <= 6
    /\ (forall e, 1 <= e < d ->
          inScale (of_Z (z - e)) (Some s) = false /\
          inScale (of_Z (z + e)) (Some s) = false)
    /\ ((inScale (of_Z (z - d)) (Some s) = true /\
         nearestInScale (of_Z z) (Some s) = of_Z (z - d))
        \/ (inScale (of_Z (z - d)) (Some s) = false /\
            inScale (of_Z (z + d)) (Some s) = true /\
            nearestInScale (of_Z z) (Some s) = of_Z (z + d))).
Proof.
  intros Hwf Hsafe Hz. unfold nearestInScale. rewrite Hz.
  destruct (search_spec s (of_Z z) 6 1)
    as [(e & He & Hbefore & Hat) | (Hnone & _)].
  - simpl in He. exists e. split; [lia |].
    split.
    + intros e' He'. specialize (Hbefore e' He').
      rewrite sub_safe, add_safe in Hbefore by (assumption || lia).
      exact Hbefore.
    + rewrite sub_safe, add_safe in Hat by (assumption || lia). exact Hat.
  - exfalso.
    destruct (member_within_six s z Hwf Hz) as (d & Hd & Hhit).
    specialize (Hnone d ltac:(simpl; lia)).
    rewrite sub_safe, add_safe in Hnone by (assumption || lia).
    destruct Hnone as [H1 H2]. destruct Hhit; congruence.
Qed.

Lemma sparse_is_pitch_class_set : pitch_class_set Samples.sparse.
Proof.
  split; [discriminate |].
  repeat constructor.
  - exists 0. split; [lia | reflexivity].
  - exists 5. split; [lia | reflexivity].
Qed.

(* ================================================================== *)
(** ** The scales that [buildScale] builds *)
(* ================================================================== *)

Lemma own_In {A : Type} (t : list (string * A)) (k : string) (a : A) :
  own t k = Some a -> In a (map snd t).
Proof.
  induction t as [| [k' a'] t IH]; simpl; [discriminate |].
  destruct (String.eqb k k').
  - intros [= ->]. left. reflexivity.
  - intros E. right. apply IH. exact E.
Qed.

Lemma table_get_own {A : Type} (t : list (string * A)) (k : string) (a : A) :
  table_get t k = Some (Own a) -> own t k = Some a.
Proof.
  unfold table_get. destruct (own t k) as [a' |].
  - intros [= ->]. reflexivity.
  - destruct (existsb _ _); discriminate.
Qed.

Lemma pitch_class_set_check (l : NumSet) :
  negb (Nat.eqb (List.length l) 0)
  && forallb (fun x => existsb (fun k => sameValueZero (of_Z k) x)
                         [0; 1; 2; 3; 4; 5; 6; 7; 8; 9; 10; 11]) l = true ->
  l <> [] /\ Forall (fun x => exists k, 0 <= k < 12 /\ is_int x k) l.
Proof.
  intros C. apply andb_true_iff in C. destruct C as [Hne Hall]. split.
  - intros ->. discriminate Hne.
  - apply Forall_forall. intros x Hx.
    rewrite forallb_forall in Hall. specialize (Hall x Hx).
    apply existsb_exists in Hall. destruct Hall as (k & Hk & Hs).
    exists k. split; [| apply sameValueZero_of_Z; exact Hs].
    simpl in Hk. lia.
Qed.

(** Every scale built on a key of the pitch-class table is a non-empty
    set of pitch classes. *)
Lemma buildScale_pitch_class_set `{Builtins} (key mode : json) (s : Scale)
    (r : number) :
  buildScale key mode = Ok (Some s) ->
  root s = Own r ->
  pitch_class_set s.
Proof.
  unfold buildScale.
  destruct (ToString key) as [k | e]; cbn [bind]; [| discriminate].
  destruct (match (if truthy mode then mode else JStr "") with
            | JStr m => Ok (toLowerCase m)
            | _ => Throw TypeError
            end) as [m | e]; cbn [bind]; [| discriminate].
  destruct (table_get PITCH_CLASS k) as [rt |] eqn:Ek; [| discriminate].
  assert (Hds : forall ds,
            match table_get MODES m with
            | Some d => d
            | None => Own MODES_major
            end = Own ds -> In ds (map snd MODES)).
  { intros ds. destruct (table_get MODES m) as [d |] eqn:Em.
    - intros ->. apply (own_In MODES m). apply table_get_own. exact Em.
    - intros [= <-]. left. reflexivity. }
  destruct (match table_get MODES m with
            | Some d => d
            | None => Own MODES_major
            end) as [ds |]; [| discriminate].
  specialize (Hds ds eq_refl).
  intros [= <-]. cbn [root]. intros ->.
  apply table_get_own, own_In in Ek.
  unfold pitch_class_set. cbn [set].
  apply pitch_class_set_check.
  assert (All : forallb (fun r0 =>
            forallb (fun ds0 =>
              let l := new_Set (map (degree_class (Own r0)) ds0) in
              negb (Nat.eqb (List.length l) 0)
              && forallb (fun x => existsb (fun k => sameValueZero (of_Z k) x)
                                     [0; 1; 2; 3; 4; 5; 6; 7; 8; 9; 10; 11]) l)
              (map snd MODES)) (map snd PITCH_CLASS) = true)
    by (vm_compute; reflexivity).
  rewrite forallb_forall in All. specialize (All r Ek).
  rewrite forallb_forall in All. exact (All ds Hds).
Qed.

(** C8, as stated, fails on a scale that is not null.  The key
    [constructor] names a member of [Object.prototype], so [buildScale]
    returns a scale for it, whose only member is [NaN]: the C sharp is out
    of that scale, no pitch within six semitones conforms, and the pitch
    that [nearestInScale] returns is the C sharp itself, out of scale.
    The route answers that pitch under the snap policy.  It fails on a
    large integer pitch too: in C major the pitch [2 ^ 53 + 2], a B flat,
    has the A one semitone below it, but the double of [pitch - 1] is
    [2 ^ 53], a G sharp, and the pitch returned is [2 ^ 53 + 4]; the pitch
    [2 ^ 60 + 256], a G sharp, is its own neighbour in doubles and comes
    back as it is, out of scale. *)
Lemma nearest_pitch_can_miss_the_scale :
  (exists s,
     buildScale (JStr "constructor") (JStr "major") = Ok (Some s)
     /\ inScale (of_Z 61) (Some s) = false
     /\ nearestInScale (of_Z 61) (Some s) = of_Z 61
     /\ inScale (nearestInScale (of_Z 61) (Some s)) (Some s) = false
     /\ exists doc st,
          validate Samples.snap Samples.no_request (of_Z 8)
            (Samples.clip (JNum (of_Z 4)) "constructor" "major"
               [Samples.note 0 1 61]) = (Json doc, st)
          /\ clip_notes doc = [Samples.note 0 1 61])
  /\ (exists s,
        buildScale (JStr "C") (JStr "major") = Ok (Some s)
        /\ inScale (of_Z (2 ^ 53 + 2)) (Some s) = false
        /\ inScale (of_Z (2 ^ 53 + 2 - 1)) (Some s) = true
        /\ nearestInScale (of_Z (2 ^ 53 + 2)) (Some s) = of_Z (2 ^ 53 + 4)
        /\ inScale (of_Z (2 ^ 60 + 256)) (Some s) = false
        /\ nearestInScale (of_Z (2 ^ 60 + 256)) (Some s)
           = of_Z (2 ^ 60 + 256)).
Proof.
  split.
  - eexists. split; [vm_compute; reflexivity |].
    split; [vm_compute; reflexivity |].
    split; [vm_compute; reflexivity |].
    split; [vm_compute; reflexivity |].
    eexists. eexists. split; [vm_compute; reflexivity | reflexivity].
  - eexists. split; [vm_compute; reflexivity |].
    repeat split; vm_compute; reflexivity.
Qed.

(** C8, amended.  Every scale that [buildScale] builds on a key of the
    pitch-class table is a non-empty set of pitch classes.  On such a
    scale and an integer pitch whose neighbours are exact (up to
    [2 ^ 53 - 6] in magnitude, which covers the pitches 0..127 of the
    route), [nearestInScale] returns the pitch itself when it conforms;
    otherwise it returns [pitch - d] or [pitch + d] for the least [d] in
    1..6 at which one of the two conforms, taking [pitch - d] when that
    one conforms.  The value returned is in the scale and at most six
    semitones away. *)
Theorem nearestInScale_nearest :
  (forall `{Builtins} (key mode : json) (s : Scale) (r : number),
     buildScale key mode = Ok (Some s) -> root s = Own r ->
     pitch_class_set s)
  /\ (forall (z : Z) (s : Scale),
        pitch_class_set s ->
        safe z ->
        (inScale (of_Z z) (Some s) = true ->
           nearestInScale (of_Z z) (Some s) = of_Z z)
        /\ (inScale (of_Z z) (Some s) = false ->
              exists d, 1 <= d <= 6
                /\ (forall e, 1 <= e < d ->
                      inScale (of_Z (z - e)) (Some s) = false /\
                      inScale (of_Z (z + e)) (Some s) = false)
                /\ ((inScale (of_Z (z - d)) (Some s) = true /\
                     nearestInScale (of_Z z) (Some s) = of_Z (z - d))
                    \/ (inScale (of_Z (z - d)) (Some s) = false /\
                        inScale (of_Z (z + d)) (Some s) = true /\
                        nearestInScale (of_Z z) (Some s) = of_Z (z + d))))
        /\ inScale (nearestInScale (of_Z z) (Some s)) (Some s) = true
        /\ (exists k, nearestInScale (of_Z z) (Some s) = of_Z k
                      /\ Z.abs (k - z) <= 6)).
Proof.
  split; [intros B key mode s r; apply buildScale_pitch_class_set |].
  intros z s Hwf Hsafe.
  pose proof (nearest_outcome z s Hwf Hsafe) as Hout.
  split; [apply nearest_of_member |].
  split; [exact Hout |].
  destruct (inScale (of_Z z) (Some s)) eqn:Hz.
  - rewrite (nearest_of_member s _ Hz). split; [exact Hz |].
    exists z. split; [reflexivity | lia].
  - destruct (Hout eq_refl) as (d & Hd & _ & [[Hm ->] | (_ & Hm & ->)]).
    + split; [exact Hm |]. exists (z - d). split; [reflexivity | lia].
    + split; [exact Hm |]. exists (z + d). split; [reflexivity | lia].
Qed.

Lemma safe_small (z : Z) : Z.abs z <= 1000 -> safe z.
Proof. unfold safe. change (2 ^ 53) with 9007199254740992. lia. Qed.

(** With conforming neighbours two below and three above, the one below
    is returned. *)
Lemma nearestInScale_nearest_witness :
  pitch_class_set Samples.sparse /\ safe 2 /\
  nearestInScale (of_Z 2) (Some Samples.sparse) = of_Z 0 /\
  inScale (nearestInScale (of_Z 2) (Some Samples.sparse)) (Some Samples.sparse)
  = true.
Proof.
  split; [exact sparse_is_pitch_class_set |].
  split; [apply safe_small; simpl; lia |].
  split; [vm_compute; reflexivity |].
  exact (proj1 (proj2 (proj2
           (proj2 nearestInScale_nearest 2 Samples.sparse
              sparse_is_pitch_class_set (safe_small 2 ltac:(simpl; lia)))))).
Defined.

(* ================================================================== *)
(** ** Objects *)
(* ================================================================== *)

(** Induction on a value and on the elements of its arrays. *)
Lemma json_list_ind (P : json -> Prop) :
  P JNull -> (forall b, P (JBool b)) -> (forall n, P (JNum n)) ->
  (forall s, P (JStr s)) -> (forall l, Forall P l -> P (JArr l)) ->
  (forall o, P (JObj o)) ->
  forall v, P v.
Proof.
  intros Hnull Hbool Hnum Hstr Harr Hobj. fix IH 1.
  intros [| b | n | s | l | o];
    [exact Hnull | apply Hbool | apply Hnum | apply Hstr | | apply Hobj].
  apply Harr. induction l as [| x rest IHl]; constructor; [apply IH | exact IHl].
Qed.

Lemma lookup_assign_same (k : string) (v : json) (o : object) :
  lookup k (assign k v o) = Some v.
Proof.
  induction o as [| [k' v'] o IH]; simpl.
  - rewrite String.eqb_refl. reflexivity.
  - destruct (String.eqb k k') eqn:E; simpl.
    + rewrite String.eqb_refl. reflexivity.
    + rewrite E. exact IH.
Qed.

Lemma lookup_assign_other (k k' : string) (v : json) (o : object) :
  k' <> k -> lookup k' (assign k v o) = lookup k' o.
Proof.
  intros Hne. induction o as [| [k0 v0] o IH]; simpl.
  - destruct (String.eqb_spec k' k); [contradiction | reflexivity].
  - destruct (String.eqb_spec k k0) as [-> | Hk]; simpl.
    + destruct (String.eqb_spec k' k0); [contradiction | reflexivity].
    + destruct (String.eqb k' k0); [reflexivity | exact IH].
Qed.

Lemma notes_of_assign (l : list json) (o : object) :
  notes_of (assign "notes" (JArr l) o) = l.
Proof.
  unfold notes_of. rewrite lookup_assign_same. reflexivity.
Qed.

Lemma notes_of_assign_other (k : string) (v : json) (o : object) :
  k <> "notes" -> notes_of (assign k v o) = notes_of o.
Proof.
  intros Hne. unfold notes_of. rewrite lookup_assign_other; auto.
Qed.

Lemma prop_with_p (n : json) (p2 : number) :
  prop (with_p n p2) "p" = Some (JNum p2).
Proof.
  destruct n; try reflexivity. simpl. apply lookup_assign_same.
Qed.

Lemma prop_with_p_other (n : json) (p2 : number) (f : string) :
  f <> "p" -> prop (with_p n p2) f = prop n f.
Proof.
  intros Hne. destruct n; simpl;
    try (destruct (String.eqb_spec f "p"); [contradiction | reflexivity]).
  apply lookup_assign_other. exact Hne.
Qed.

(* ================================================================== *)
(** ** The stages of [validate] *)
(* ================================================================== *)

Section Stages.
Context `{Builtins}.

(** [validate] runs the scale enforcement on the clamped document when
    the earlier stages go through. *)
Lemma validate_stages (cfg : Config) (req : Request) (barsNum : number)
    (o o1 : object) (total : number) (kept : list json)
    (sc : option Scale) :
  schema_missing (JObj o) = false ->
  totalBeats o barsNum = Ok total ->
  applyDefaults req barsNum o = Ok o1 ->
  filterNotes total (notes_of o1) = Ok kept ->
  scaleOf (assign "notes" (JArr kept) o1) = Ok sc ->
  validate cfg req barsNum (JObj o)
  = enforceScale cfg sc (assign "notes" (JArr kept) o1).
Proof.
  intros Hs Ht Hd Hf Hsc. unfold validate.
  rewrite Hs, Ht. cbn [bind]. rewrite Hd. cbn [bind].
  rewrite Hf, Hsc. reflexivity.
Qed.

Lemma finish_response (data : object) (c : nat) :
  exists doc, finish data c = (Json (JObj doc), JObj doc)
    /\ notes_of doc = notes_of data
    /\ ((0 < c)%nat -> lookup "_snapped_info" doc = Some (snapped_info c))
    /\ (forall f, f <> "_snapped_info" -> lookup f doc = lookup f data).
Proof.
  unfold finish. destruct (Nat.ltb_spec 0 c) as [Hc | Hc].
  - eexists. split; [reflexivity |]. split; [| split].
    + apply notes_of_assign_other. discriminate.
    + intros _. apply lookup_assign_same.
    + intros f Hf. apply lookup_assign_other. exact Hf.
  - exists data. split; [reflexivity |]. split; [reflexivity |].
    split; [intros; lia | reflexivity].
Qed.

(** Every answer of [enforceScale] other than a document is a 400. *)
Lemma enforceScale_success (cfg : Config) (sc : option Scale) (data : object)
    (doc st : json) :
  enforceScale cfg sc data = (Json doc, st) ->
  (exists notes' c,
      sc <> None /\ SNAP_TO_SCALE cfg = true /\
      snapNotes sc (notes_of data) 0 = (notes', c) /\
      finish (assign "notes" (JArr notes') data) c = (Json doc, st))
  \/ finish data 0 = (Json doc, st).
Proof.
  unfold enforceScale. destruct sc as [s |]; [| auto].
  destruct (SNAP_TO_SCALE cfg).
  - destruct (snapNotes (Some s) (notes_of data) 0) as [notes' c] eqn:E.
    intros Hf. left. exists notes', c. repeat split; auto. discriminate.
  - destruct (STRICT_SCALE cfg); [| auto].
    destruct (List.length _); [auto |].
    destruct (_ <- ToString_opt _ ;; _)%js; discriminate.
Qed.

(** A document answered by [validate] went through every stage. *)
Lemma validate_success (cfg : Config) (req : Request) (barsNum : number)
    (data doc st : json) :
  validate cfg req barsNum data = (Json doc, st) ->
  exists o o1 total kept sc,
    data = JObj o /\
    schema_missing data = false /\
    totalBeats o barsNum = Ok total /\
    applyDefaults req barsNum o = Ok o1 /\
    filterNotes total (notes_of o1) = Ok kept /\
    scaleOf (assign "notes" (JArr kept) o1) = Ok sc /\
    enforceScale cfg sc (assign "notes" (JArr kept) o1) = (Json doc, st).
Proof.
  unfold validate. destruct (schema_missing data) eqn:Hs; [discriminate |].
  destruct data as [| | | | | o]; try discriminate.
  destruct (totalBeats o barsNum) as [total | e] eqn:Ht; cbn [bind];
    [| discriminate].
  destruct (applyDefaults req barsNum o) as [o1 | e] eqn:Hd; cbn [bind];
    [| discriminate].
  destruct (filterNotes total (notes_of o1)) as [kept | e] eqn:Hf;
    [| discriminate].
  destruct (scaleOf _) as [sc | e] eqn:Hsc; [| discriminate].
  intros He. exists o, o1, total, kept, sc. repeat split; auto.
Qed.

End Stages.

(* ================================================================== *)
(** ** The note filter *)
(* ================================================================== *)

Lemma leb_Nle (a b : number) : leb a b = true <-> Nle a b.
Proof.
  destruct a as [| | | x], b as [| | | y]; simpl;
    try (split; [discriminate | contradiction]);
    try (split; auto; fail).
  apply Qle_bool_iff.
Qed.

Lemma leb_sum_within (tb db : Q) (total : number) :
  leb (add (Fin tb) (Fin db)) total = true <-> within tb db total.
Proof.
  apply leb_Nle.
Qed.

Lemma finite_prop (v : option json) :
  Number_isFinite v = true -> exists x : Q, v = Some (JNum (Fin x)).
Proof.
  destruct v as [[| | [| | | x] | | |] |]; try discriminate.
  intros _. exists x. reflexivity.
Qed.

Lemma ltb_zero (x : Q) : ltb (of_Z 0) (Fin x) = true <-> (0 < x)%Q.
Proof.
  simpl. rewrite negb_true_iff. split.
  - intros E. apply Qnot_le_lt. intros L.
    apply Qle_bool_iff in L. change (inject_Z 0) with 0%Q in E. congruence.
  - intros L. destruct (Qle_bool x (inject_Z 0)) eqn:E; [| reflexivity].
    apply Qle_bool_iff in E. change (inject_Z 0) with 0%Q in E.
    exfalso. apply (Qlt_not_le _ _ L). exact E.
Qed.

(** The filter keeps exactly the notes with finite [tb >= 0], finite
    [db > 0], a finite pitch in [0, 127] and [tb + db <= totalBeats]. *)
Lemma keep_iff (total : number) (n : json) :
  keep total n = true <-> temporal total n /\ pitch_in_range n.
Proof.
  unfold keep, temporal, pitch_in_range. rewrite !andb_true_iff. split.
  - intros [[[[[[[Ftb Htb] Fdb] Hdb] Fp] Hp0] Hp1] Hsum].
    destruct (finite_prop _ Ftb) as (tb & Etb).
    destruct (finite_prop _ Fdb) as (db & Edb).
    destruct (finite_prop _ Fp) as (p & Ep).
    rewrite Etb, Edb, Ep in *. cbn [num] in *.
    split.
    + exists tb, db. repeat split; auto.
      * apply Qle_bool_iff. exact Htb.
      * apply ltb_zero. exact Hdb.
      * apply leb_sum_within. exact Hsum.
    + exists p. split; [reflexivity |]. split.
      * apply Qle_bool_iff. exact Hp0.
      * apply Qle_bool_iff in Hp1. exact Hp1.
  - intros [(tb & db & Etb & Edb & Htb & Hdb & Hsum) (p & Ep & Hp0 & Hp1)].
    rewrite Etb, Edb, Ep. cbn [num Number_isFinite isFinite].
    repeat split.
    + apply Qle_bool_iff. exact Htb.
    + apply ltb_zero. exact Hdb.
    + apply Qle_bool_iff. exact Hp0.
    + apply Qle_bool_iff. exact Hp1.
    + apply leb_sum_within. exact Hsum.
Qed.

Lemma filterNotes_filter (total : number) (notes kept : list json) :
  filterNotes total notes = Ok kept -> kept = filter (keep total) notes.
Proof.
  revert kept. induction notes as [| n rest IH]; intros kept; simpl.
  - intros [= <-]. reflexivity.
  - destruct n; cbn [read bind]; try discriminate;
      (destruct (filterNotes total rest) as [rest' | e]; cbn [bind];
       [| discriminate]);
      intros [= <-]; rewrite (IH rest' eq_refl); reflexivity.
Qed.

(** The filter answers on every array without a [null] element. *)
Lemma filterNotes_total (total : number) (notes : list json) :
  Forall (fun n => n <> JNull) notes ->
  filterNotes total notes = Ok (filter (keep total) notes).
Proof.
  induction 1 as [| n rest Hn _ IH]; simpl; [reflexivity |].
  rewrite IH. destruct n; try contradiction; reflexivity.
Qed.

Lemma filterNotes_kept (total : number) (notes kept : list json) :
  filterNotes total notes = Ok kept ->
  forall n, In n kept <-> In n notes /\ temporal total n /\ pitch_in_range n.
Proof.
  intros Hf n. rewrite (filterNotes_filter _ _ _ Hf), filter_In, keep_iff.
  reflexivity.
Qed.

(* ================================================================== *)
(** ** The defaulting step *)
(* ================================================================== *)

Ltac lookups :=
  repeat (rewrite lookup_assign_same
          || rewrite lookup_assign_other by (discriminate || assumption)).

Section Defaults.
Context `{Builtins}.

Lemma lengthBars_assign (k : string) (v : json) (o : object) (b : number) :
  k <> "length_bars" -> lengthBars (assign k v o) b = lengthBars o b.
Proof.
  intros Hne. unfold lengthBars. rewrite lookup_assign_other; auto.
Qed.

(** What lines 184-188 leave in each field. *)
Lemma applyDefaults_spec (req : Request) (barsNum : number) (o o1 : object) :
  applyDefaults req barsNum o = Ok o1 ->
  exists bars',
    lengthBars o barsNum = Ok bars'
    /\ lookup "clip_type" o1
       = Some (or_str (or_else (clipType req) (lookup "clip_type" o)) "chords")
    /\ lookup "length_bars" o1 = Some (JNum bars')
    /\ lookup "time_signature" o1
       = Some (or_str (lookup "time_signature" o) "4/4")
    /\ lookup "key" o1
       = (if truthy_opt (key req) && negb (truthy_opt (lookup "key" o))
          then key req else lookup "key" o)
    /\ lookup "mode" o1
       = (if truthy_opt (mode req) && negb (truthy_opt (lookup "mode" o))
          then mode req else lookup "mode" o)
    /\ (forall f, f <> "clip_type" -> f <> "length_bars" ->
                  f <> "time_signature" -> f <> "key" -> f <> "mode" ->
                  lookup f o1 = lookup f o).
Proof.
  unfold applyDefaults.
  rewrite lengthBars_assign by discriminate.
  destruct (lengthBars o barsNum) as [bars' | e]; cbn [bind]; [| discriminate].
  intros [= <-]. exists bars'. split; [reflexivity |].
  lookups.
  destruct (key req) as [k |]; cbn [truthy_opt];
    [destruct (truthy k); destruct (truthy_opt (lookup "key" o));
     cbn [andb negb] |];
    lookups;
    (destruct (mode req) as [m |]; cbn [truthy_opt];
     [destruct (truthy m); destruct (truthy_opt (lookup "mode" o));
      cbn [andb negb] |]);
    lookups;
    repeat split; try reflexivity; intros; lookups; reflexivity.
Qed.

(** The defaulting step answers whenever [Number(data.length_bars)]
    does. *)
Lemma applyDefaults_total (req : Request) (barsNum : number) (o : object)
    (bars' : number) :
  lengthBars o barsNum = Ok bars' ->
  exists o1, applyDefaults req barsNum o = Ok o1.
Proof.
  intros Hl. unfold applyDefaults.
  rewrite lengthBars_assign by discriminate. rewrite Hl. cbn [bind].
  eexists. reflexivity.
Qed.

End Defaults.

Section Documents.
Context `{Builtins}.

(** The document [validate] answers with carries the fields left by the
    defaulting step, and the clamped notes, snapped or not. *)
Lemma validate_doc (cfg : Config) (req : Request) (barsNum : number)
    (data doc st : json) :
  validate cfg req barsNum data = (Json doc, st) ->
  exists o o1 total kept sc d,
    data = JObj o
    /\ schema_missing data = false
    /\ totalBeats o barsNum = Ok total
    /\ applyDefaults req barsNum o = Ok o1
    /\ filterNotes total (notes_of o1) = Ok kept
    /\ scaleOf (assign "notes" (JArr kept) o1) = Ok sc
    /\ doc = JObj d
    /\ (forall f, f <> "notes" -> f <> "_snapped_info" ->
                  lookup f d = lookup f o1)
    /\ (notes_of d = kept
        \/ (sc <> None /\ SNAP_TO_SCALE cfg = true /\
            notes_of d = fst (snapNotes sc kept 0))).
Proof.
  intros Hv.
  destruct (validate_success _ _ _ _ _ _ Hv)
    as (o & o1 & total & kept & sc & -> & Hs & Ht & Hd & Hf & Hsc & He).
  destruct (enforceScale_success _ _ _ _ _ He)
    as [(notes' & c & Hne & Hsnap & Hn & Hfin) | Hfin].
  - destruct (finish_response (assign "notes" (JArr notes') (assign "notes" (JArr kept) o1)) c)
      as (d & Ed & Hnotes & _ & Hother).
    rewrite Ed in Hfin. injection Hfin as <- _.
    exists o, o1, total, kept, sc, d. repeat split; auto.
    + intros f F1 F2. rewrite Hother by exact F2. lookups. reflexivity.
    + right. repeat split; auto.
      rewrite Hnotes, notes_of_assign. rewrite notes_of_assign in Hn.
      rewrite Hn. reflexivity.
  - destruct (finish_response (assign "notes" (JArr kept) o1) 0)
      as (d & Ed & Hnotes & _ & Hother).
    rewrite Ed in Hfin. injection Hfin as <- _.
    exists o, o1, total, kept, sc, d. repeat split; auto.
    + intros f F1 F2. rewrite Hother by exact F2. lookups. reflexivity.
    + left. rewrite Hnotes. apply notes_of_assign.
Qed.

(** The notes of a document that is answered are an array. *)
Lemma validate_doc_notes (cfg : Config) (req : Request) (barsNum : number)
    (data : json) (d : object) (st : json) :
  validate cfg req barsNum data = (Json (JObj d), st) ->
  lookup "notes" d = Some (JArr (notes_of d)).
Proof.
  intros Hv.
  destruct (validate_success _ _ _ _ _ _ Hv)
    as (o & o1 & total & kept & sc & -> & Hs & Ht & Hd & Hf & Hsc & He).
  assert (Hfin : exists notes' data' c,
            finish (assign "notes" (JArr notes') data') c = (Json (JObj d), st)).
  { destruct (enforceScale_success _ _ _ _ _ He)
      as [(notes' & c & _ & _ & _ & Hfin) | Hfin]; eauto. }
  destruct Hfin as (notes' & data' & c & Hfin).
  destruct (finish_response (assign "notes" (JArr notes') data') c)
    as (d' & Ed & Hnotes & _ & Hother).
  rewrite Ed in Hfin. injection Hfin as <- _.
  rewrite Hnotes, notes_of_assign, Hother by discriminate.
  apply lookup_assign_same.
Qed.

Lemma truthy_falsy_number (n : number) :
  Num.truthy n = false <-> n = NaN \/ is_int n 0.
Proof.
  destruct n as [| | | x]; simpl.
  - split; auto.
  - split; [discriminate | intros [E | []]; discriminate].
  - split; [discriminate | intros [E | []]; discriminate].
  - rewrite negb_false_iff, Qeq_bool_iff. split.
    + intros E. right. exact E.
    + intros [E | E]; [discriminate | exact E].
Qed.

End Documents.

(* ================================================================== *)
(** ** The defaulting step: which value each field ends with *)
(* ================================================================== *)




(* ================================================================== *)
(** ** The bar count and the clamp *)
(* ================================================================== *)

(** C5, as stated, fails on negative values: a candidate with
    [length_bars = -2] is not brought back to the eight requested bars;
    the total is [-2 * 4] and the document keeps [-2]. *)
Lemma negative_length_bars_is_kept :
  prop Samples.negative_bars_clip "length_bars" = Some (JNum (of_Z (-2)))
  /\ totalBeats (Samples.fields Samples.negative_bars_clip) (of_Z 8)
     = Ok (of_Z (-8))
  /\ of_Z (-8) <> mul (of_Z 8) (of_Z 4)
  /\ (exists doc st,
        validate Samples.snap Samples.no_request (of_Z 8)
          Samples.negative_bars_clip = (Json doc, st)
        /\ prop doc "length_bars" = Some (JNum (of_Z (-2)))
        /\ prop doc "length_bars" <> Some (JNum (of_Z 8))).
Proof.
  split; [reflexivity |]. split; [vm_compute; reflexivity |].
  split; [vm_compute; discriminate |].
  eexists. eexists. split; [vm_compute; reflexivity |].
  split; [reflexivity | discriminate].
Qed.

(** C5, amended.  The fallback to the requested bar count is taken exactly
    when [Number(length_bars)] is falsy, that is [0] or [NaN] (zero and
    non-numeric values): then [totalBeats] is
    [requestedBars * beatsPerBar] and the document answered carries
    [length_bars = requestedBars].  Any other value, negative ones
    included, is the bar count that is used and kept. *)
Theorem length_bars_fallback `{Builtins} (cfg : Config) (req : Request)
    (barsNum : number) (o : object) (n beats : number) :
  ToNumber (lookup "length_bars" o) = Ok n ->
  beatsPerBar o = Ok beats ->
  (Num.truthy n = false <-> n = NaN \/ is_int n 0)
  /\ (Num.truthy n = false ->
        totalBeats o barsNum = Ok (mul barsNum beats)
        /\ (exists o1, applyDefaults req barsNum o = Ok o1
                       /\ lookup "length_bars" o1 = Some (JNum barsNum))
        /\ (forall doc st,
              validate cfg req barsNum (JObj o) = (Json doc, st) ->
              prop doc "length_bars" = Some (JNum barsNum)))
  /\ (Num.truthy n = true ->
        totalBeats o barsNum = Ok (mul n beats)
        /\ (exists o1, applyDefaults req barsNum o = Ok o1
                       /\ lookup "length_bars" o1 = Some (JNum n))
        /\ (forall doc st,
              validate cfg req barsNum (JObj o) = (Json doc, st) ->
              prop doc "length_bars" = Some (JNum n))).
Proof.
  intros Hn Hb.
  assert (Hl : lengthBars o barsNum
               = Ok (if Num.truthy n then n else barsNum)).
  { unfold lengthBars. rewrite Hn. reflexivity. }
  assert (Ht : totalBeats o barsNum
               = Ok (mul (if Num.truthy n then n else barsNum) beats)).
  { unfold totalBeats. rewrite Hb. cbn [bind]. rewrite Hl. reflexivity. }
  assert (Hd : exists o1, applyDefaults req barsNum o = Ok o1
                 /\ lookup "length_bars" o1
                    = Some (JNum (if Num.truthy n then n else barsNum))).
  { destruct (applyDefaults_total req _ _ _ Hl) as (o1 & Ho1).
    exists o1. split; [exact Ho1 |].
    destruct (applyDefaults_spec _ _ _ _ Ho1) as (bars' & Hl' & _ & Hlb & _).
    rewrite Hl in Hl'. injection Hl' as <-. exact Hlb. }
  assert (Hv : forall doc st,
             validate cfg req barsNum (JObj o) = (Json doc, st) ->
             prop doc "length_bars"
             = Some (JNum (if Num.truthy n then n else barsNum))).
  { intros doc st Hval.
    destruct (validate_doc _ _ _ _ _ _ Hval)
      as (o' & o1 & total & kept & sc & d & [= <-] & _ & _ & Ho1 & _ & _
          & -> & Hsame & _).
    destruct Hd as (o1' & Ho1' & Hlb). rewrite Ho1 in Ho1'.
    injection Ho1' as <-. cbn [prop].
    rewrite Hsame by discriminate. exact Hlb. }
  split; [apply truthy_falsy_number |].
  split; intros E; rewrite E in *; auto.
Qed.

(** A candidate with [length_bars = 0] falls back to the eight requested
    bars. *)
Lemma length_bars_fallback_witness :
  totalBeats (Samples.fields Samples.zero_bars_clip) (of_Z 8)
  = Ok (mul (of_Z 8) (of_Z 4))
  /\ exists doc st,
       validate Samples.snap Samples.no_request (of_Z 8)
         Samples.zero_bars_clip = (Json doc, st)
       /\ prop doc "length_bars" = Some (JNum (of_Z 8)).
Proof.
  pose proof (length_bars_fallback Samples.snap Samples.no_request (of_Z 8)
                (Samples.fields Samples.zero_bars_clip) (of_Z 0) (of_Z 4)
                eq_refl eq_refl) as (_ & Hzero & _).
  destruct (Hzero eq_refl) as (Ht & _ & Hv).
  split; [exact Ht |].
  eexists. eexists. split; [vm_compute; reflexivity |].
  eapply Hv. vm_compute. reflexivity.
Defined.

Lemma beatsPerBar_string (o : object) (ts : string) :
  lookup "time_signature" o = Some (JStr ts) ->
  beatsPerBar o = Ok (if startsWith "3/" ts then of_Z 3 else of_Z 4).
Proof.
  intros E. unfold beatsPerBar. rewrite E. cbn [truthy].
  destruct ts as [| c r]; reflexivity.
Qed.

(** C4, as stated, fails in both directions.  "If": the note
    [tb = 0, db = 1, p = 200] has a finite [tb >= 0], a finite [db > 0]
    and [tb + db <= 16], yet the filter drops it.  "Only if", when the sum
    is read as the exact one: the note [tb = 16, db = 2 ^ -60] is kept for
    a total of 16, because the sum the filter compares is the double
    nearest to [16 + 2 ^ -60], which is 16. *)
Lemma clamp_is_not_the_stated_condition :
  temporal (of_Z 16) (Samples.note 0 1 200)
  /\ keep (of_Z 16) (Samples.note 0 1 200) = false
  /\ totalBeats (Samples.fields Samples.boundary_clip) (of_Z 8)
     = Ok (of_Z 16)
  /\ (exists doc st,
        validate Samples.snap Samples.no_request (of_Z 8)
          Samples.boundary_clip = (Json doc, st)
        /\ In (Samples.note 0 1 200) (clip_notes Samples.boundary_clip)
        /\ ~ In (Samples.note 0 1 200) (clip_notes doc))
  /\ keep (of_Z 16) (Samples.note 16 Samples.tiny 60) = true
  /\ double Samples.tiny = Fin Samples.tiny
  /\ (inject_Z 16 < 16 + Samples.tiny)%Q.
Proof.
  split.
  { exists 0%Q, 1%Q. repeat split; try reflexivity; try discriminate. }
  split; [vm_compute; reflexivity |]. split; [vm_compute; reflexivity |].
  split.
  - eexists. eexists. split; [vm_compute; reflexivity |]. split.
    + right. right. left. reflexivity.
    + intros [E | []]. discriminate E.
  - split; [vm_compute; reflexivity |]. split; vm_compute; reflexivity.
Qed.

(** C4, amended.  [beatsPerBar] is 3 when the time signature starts with
    [3/] and 4 for every other string; [totalBeats] is
    [lengthBars * beatsPerBar]; the filter keeps a note if and only if it
    has a finite [tb >= 0], a finite [db > 0], a finite pitch in
    [0, 127], and [tb + db <= totalBeats], the boundary included, where
    the sum is the one of the doubles: the double nearest to the exact
    sum.  A truthy time signature that is not a string has no
    [startsWith]: reading the beats throws a [TypeError], which the route
    answers with status 400.  With [4/4] and four bars the total is 16,
    the note [(15, 2)] is dropped and the note [(15, 1)] is kept; with
    [3/4] and four bars the total is 12. *)
Theorem clamp_keeps_notes_within_the_bars :
  (forall `{Builtins} (o : object) (barsNum bars' : number) (ts : string),
     lookup "time_signature" o = Some (JStr ts) ->
     lengthBars o barsNum = Ok bars' ->
     beatsPerBar o = Ok (if startsWith "3/" ts then of_Z 3 else of_Z 4)
     /\ totalBeats o barsNum
        = Ok (mul bars' (if startsWith "3/" ts then of_Z 3 else of_Z 4))
     /\ (forall total n,
           keep total n = true <-> temporal total n /\ pitch_in_range n)
     /\ (forall total notes,
           Forall (fun n => n <> JNull) notes ->
           exists kept,
             filterNotes total notes = Ok kept
             /\ forall n, In n kept <->
                          In n notes /\ temporal total n /\ pitch_in_range n))
  /\ (forall (o : object) (v : json),
        lookup "time_signature" o = Some v ->
        truthy v = true -> (forall ts, v <> JStr ts) ->
        beatsPerBar o = Throw TypeError)
  /\ fst (validate Samples.snap Samples.no_request (of_Z 8)
            Samples.numeric_metre_clip)
     = Send 400 (Thrown TypeError)
  /\ startsWith "3/" "3/4" = true
  /\ startsWith "3/" "4/4" = false
  /\ startsWith "3/" "6/8" = false
  /\ totalBeats (Samples.fields Samples.waltz_clip) (of_Z 8) = Ok (of_Z 12)
  /\ totalBeats (Samples.fields Samples.boundary_clip) (of_Z 8) = Ok (of_Z 16)
  /\ keep (of_Z 16) (Samples.note 15 2 60) = false
  /\ keep (of_Z 16) (Samples.note 15 1 60) = true
  /\ filterNotes (of_Z 16) [Samples.note 15 2 60; Samples.note 15 1 60]
     = Ok [Samples.note 15 1 60].
Proof.
  split; [| split; [| repeat split; vm_compute; reflexivity]].
  2: { intros o v Ev Tv Hv. unfold beatsPerBar. rewrite Ev.
       destruct v as [| b | n | t | l | f]; try (rewrite Tv; reflexivity).
       exfalso. exact (Hv t eq_refl). }
  intros B o barsNum bars' ts Ets Hl.
  pose proof (beatsPerBar_string o ts Ets) as Hb.
  split; [exact Hb |]. split.
  - unfold totalBeats. rewrite Hb. cbn [bind]. rewrite Hl. reflexivity.
  - split; [intros total n; apply keep_iff |].
    intros total notes Hnn. exists (filter (keep total) notes).
    pose proof (filterNotes_total total notes Hnn) as Hf.
    split; [exact Hf |]. apply filterNotes_kept. exact Hf.
Qed.

(** The general part at the clip of the example. *)
Lemma clamp_keeps_notes_within_the_bars_witness :
  lookup "time_signature" (Samples.fields Samples.boundary_clip)
  = Some (JStr "4/4")
  /\ lengthBars (Samples.fields Samples.boundary_clip) (of_Z 8)
     = Ok (of_Z 4)
  /\ totalBeats (Samples.fields Samples.boundary_clip) (of_Z 8)
     = Ok (mul (of_Z 4) (of_Z 4)).
Proof.
  split; [reflexivity |]. split; [reflexivity |].
  exact (proj1 (proj2
    (proj1 clamp_keeps_notes_within_the_bars ref_builtins
       (Samples.fields Samples.boundary_clip) (of_Z 8) (of_Z 4) "4/4"
       eq_refl eq_refl))).
Defined.

(* ================================================================== *)
(** ** Which scale a document resolves to *)
(* ================================================================== *)

Lemma mode_or_empty (m : string) :
  (if truthy (JStr m) then JStr m else JStr "") = JStr m.
Proof.
  cbn [truthy]. destruct (String.eqb_spec m ""); subst; reflexivity.
Qed.

Lemma lower_ascii_idempotent (c : ascii) :
  lower_ascii (lower_ascii c) = lower_ascii c.
Proof.
  destruct c as [[] [] [] [] [] [] [] []]; vm_compute; reflexivity.
Qed.

Lemma toLowerCase_idempotent (s : string) :
  toLowerCase (toLowerCase s) = toLowerCase s.
Proof.
  induction s as [| c r IH]; simpl; [reflexivity |].
  rewrite lower_ascii_idempotent, IH. reflexivity.
Qed.

Lemma inherited_lower_names (x : string) :
  In (toLowerCase x) Object_prototype ->
  toLowerCase x = "constructor" \/ toLowerCase x = "__proto__".
Proof.
  intros Hin. pose proof (toLowerCase_idempotent x) as Hid.
  unfold Object_prototype in Hin. simpl in Hin.
  repeat (destruct Hin as [E | Hin];
          [rewrite <- E in Hid |- *; first [left; reflexivity
                                          | right; reflexivity
                                          | discriminate Hid] |]).
  contradiction.
Qed.

Lemma table_get_inherited {A : Type} (t : list (string * A)) (k : string) :
  table_get t k = Some Inherited <->
  own t k = None /\ In k Object_prototype.
Proof.
  unfold table_get. destruct (own t k) as [a |].
  - split; [discriminate | intros [E _]; discriminate E].
  - destruct (existsb (String.eqb k) Object_prototype) eqn:E.
    + split; [| reflexivity]. intros _. split; [reflexivity |].
      apply existsb_exists in E. destruct E as (x & Hx & Ex).
      apply String.eqb_eq in Ex. subst x. exact Hx.
    + split; [discriminate |]. intros [_ Hin]. exfalso.
      assert (existsb (String.eqb k) Object_prototype = true)
        by (apply existsb_exists; exists k; split;
            [exact Hin | apply String.eqb_refl]).
      congruence.
Qed.

Lemma table_get_absent {A : Type} (t : list (string * A)) (k : string) :
  table_get t k = None <-> own t k = None /\ ~ In k Object_prototype.
Proof.
  unfold table_get. destruct (own t k) as [a |].
  - split; [discriminate | intros [E _]; discriminate E].
  - destruct (existsb (String.eqb k) Object_prototype) eqn:E.
    + split; [discriminate |]. intros [_ Hn]. exfalso. apply Hn.
      apply existsb_exists in E. destruct E as (x & Hx & Ex).
      apply String.eqb_eq in Ex. subst x. exact Hx.
    + split; [| reflexivity]. intros _. split; [reflexivity |].
      intros Hin.
      assert (existsb (String.eqb k) Object_prototype = true)
        by (apply existsb_exists; exists k; split;
            [exact Hin | apply String.eqb_refl]).
      congruence.
Qed.

(** The modes that are looked up and not found: those that, in lower
    case, are neither a key of the table nor one of the two lower-case
    members of [Object.prototype]. *)
Lemma mode_not_found (m : string) :
  table_get MODES (toLowerCase m) = None <->
  own MODES (toLowerCase m) = None
  /\ toLowerCase m <> "constructor" /\ toLowerCase m <> "__proto__".
Proof.
  rewrite table_get_absent. split.
  - intros [Ho Hn]. split; [exact Ho |].
    split; intros E; apply Hn; rewrite E; simpl; tauto.
  - intros (Ho & N1 & N2). split; [exact Ho |]. intros Hin.
    destruct (inherited_lower_names m Hin); contradiction.
Qed.

Section Resolution.
Context `{Builtins}.

Lemma buildScale_strings (k m : string) :
  buildScale (JStr k) (JStr m)
  = match table_get PITCH_CLASS k with
    | None => Ok None
    | Some r =>
        match match table_get MODES (toLowerCase m) with
              | Some d => d
              | None => Own MODES_major
              end with
        | Inherited => Throw TypeError
        | Own ds => Ok (Some {| root := r; degrees := ds;
                                set := new_Set (map (degree_class r) ds) |})
        end
    end.
Proof.
  unfold buildScale. cbn [ToString bind]. rewrite mode_or_empty.
  reflexivity.
Qed.

Lemma scaleOf_unresolved (data : object) :
  truthy_opt (lookup "key" data) = false \/
  truthy_opt (lookup "mode" data) = false ->
  scaleOf data = Ok None.
Proof.
  unfold scaleOf.
  destruct (lookup "key" data) as [k |], (lookup "mode" data) as [m |];
    cbn [truthy_opt]; try reflexivity.
  intros [-> | ->]; [reflexivity | rewrite andb_false_r; reflexivity].
Qed.

(** A conversion to string fails with a [TypeError] only. *)
Lemma ToString_throws (v : json) (e : exn) :
  ToString v = Throw e -> e = TypeError.
Proof.
  revert e. induction v as [| b | n | s | l IH | o] using json_list_ind;
    intros e; cbn [ToString].
  - discriminate.
  - destruct b; discriminate.
  - discriminate.
  - discriminate.
  - revert e. induction IH as [| x rest Hx _ IHrest]; intros e;
      [discriminate |].
    destruct (match x with JNull => Ok "" | _ => ToString x end)
      as [sx | ex] eqn:Ex; cbn [bind].
    + destruct rest as [| y rest']; [discriminate |].
      match goal with
      | |- bind ?X _ = _ -> _ => destruct X as [t | et] eqn:Et
      end; cbn [bind]; [discriminate |].
      intros [= <-]. apply IHrest. reflexivity.
    + intros [= <-]. destruct x; try discriminate Ex; apply Hx; exact Ex.
  - destruct (hasOwn "toString" o); [intros [= <-]; reflexivity | discriminate].
Qed.

(** A truthy mode that is not a string makes [buildScale] throw. *)
Lemma buildScale_mode_not_string (key mode : json) :
  truthy mode = true -> (forall m, mode <> JStr m) ->
  buildScale key mode = Throw TypeError.
Proof.
  intros Tm Hm. unfold buildScale.
  destruct (ToString key) as [k | e] eqn:Ek; cbn [bind].
  - rewrite Tm. destruct mode; try reflexivity. exfalso. exact (Hm s eq_refl).
  - rewrite (ToString_throws _ _ Ek). reflexivity.
Qed.

(** When no scale is resolved. *)
Lemma scaleOf_none (data : object) :
  scaleOf data = Ok None <->
  truthy_opt (lookup "key" data) = false
  \/ truthy_opt (lookup "mode" data) = false
  \/ exists key k m,
       lookup "key" data = Some key /\ ToString key = Ok k
       /\ lookup "mode" data = Some (JStr m)
       /\ table_get PITCH_CLASS k = None.
Proof.
  split.
  - unfold scaleOf.
    destruct (lookup "key" data) as [key |]; cbn [truthy_opt]; [| auto].
    destruct (lookup "mode" data) as [mode |]; cbn [truthy_opt]; [| auto].
    destruct (truthy key) eqn:Tk; cbn [andb]; [| auto].
    destruct (truthy mode) eqn:Tm; [| auto].
    intros Hb. right. right. unfold buildScale in Hb.
    destruct (ToString key) as [k | e] eqn:Ek; cbn [bind] in Hb;
      [| discriminate Hb].
    rewrite Tm in Hb.
    destruct mode as [| b | n | m | l | o]; cbn [bind] in Hb;
      try discriminate Hb.
    exists key, k, m. repeat split; auto.
    destruct (table_get PITCH_CLASS k) as [r |]; [| reflexivity].
    destruct (match table_get MODES (toLowerCase m) with
              | Some d => d
              | None => Own MODES_major
              end); discriminate Hb.
  - intros [Hk | [Hm | (key & k & m & Ek & Sk & Em & Hk)]].
    + apply scaleOf_unresolved. auto.
    + apply scaleOf_unresolved. auto.
    + unfold scaleOf. rewrite Ek, Em.
      destruct (truthy key && truthy (JStr m)); [| reflexivity].
      unfold buildScale. rewrite Sk. cbn [bind]. rewrite mode_or_empty.
      cbn [bind]. rewrite Hk. reflexivity.
Qed.

(** A failure to resolve the scale is answered with status 400. *)
Lemma validate_scale_throws (cfg : Config) (req : Request)
    (barsNum total : number) (o o1 : object) (kept : list json) (e : exn) :
  schema_missing (JObj o) = false ->
  totalBeats o barsNum = Ok total ->
  applyDefaults req barsNum o = Ok o1 ->
  filterNotes total (notes_of o1) = Ok kept ->
  scaleOf (assign "notes" (JArr kept) o1) = Throw e ->
  fst (validate cfg req barsNum (JObj o)) = Send 400 (Thrown e).
Proof.
  intros Hs Ht Hd Hf Hsc. unfold validate.
  rewrite Hs, Ht. cbn [bind]. rewrite Hd. cbn [bind].
  rewrite Hf, Hsc. reflexivity.
Qed.

End Resolution.

(** C6, as stated, fails: with the recognized key [C] and the mode
    [lydian], which is none of the four, a scale is resolved; the snap
    policy moves the C sharp to C and the strict policy answers
    [OUT_OF_SCALE]. *)
Lemma unrecognized_mode_is_enforced :
  own MODES (toLowerCase "lydian") = None
  /\ own PITCH_CLASS "C" = Some (of_Z 0)
  /\ clip_notes Samples.lydian_clip = [Samples.note 0 1 61]
  /\ (exists doc st,
        validate Samples.snap Samples.no_request (of_Z 8)
          Samples.lydian_clip = (Json doc, st)
        /\ clip_notes doc = [Samples.note 0 1 60])
  /\ fst (validate Samples.strict Samples.no_request (of_Z 8)
            Samples.lydian_clip)
     = Send 400 (OUT_OF_SCALE 1 "C" "lydian").
Proof.
  split; [reflexivity |]. split; [reflexivity |]. split; [reflexivity |].
  split.
  - eexists. eexists. split; [vm_compute; reflexivity | reflexivity].
  - vm_compute. reflexivity.
Qed.

(** C6, amended.  A mode that is a string and is not found in the mode
    table (in lower case it is neither one of the four keys nor
    [constructor] nor [__proto__]) resolves, with a key of the pitch
    class table, to the scale of the major pattern on that key, the same
    scale as for the mode [major], and the enforcement applies to it.
    The modes [constructor] and [__proto__], in any letter case, with a
    key that names anything, and every truthy mode that is not a string,
    make [buildScale] throw a [TypeError], which the route answers with
    status 400.  No scale is resolved exactly when the key or the mode is
    absent or falsy, or the mode is a string and the key, printed, names
    nothing in the pitch class table nor on [Object.prototype]; the
    enforcement is then a pass-through under either policy: the document
    is answered with its notes as they are and no [OUT_OF_SCALE] is
    raised. *)
Theorem unrecognized_mode_defaults_to_major `{Builtins} :
  (forall (k m : string) (r : number),
     own PITCH_CLASS k = Some r ->
     table_get MODES (toLowerCase m) = None ->
     buildScale (JStr k) (JStr m)
     = Ok (Some {| root := Own r; degrees := MODES_major;
                   set := new_Set (map (degree_class (Own r)) MODES_major) |})
     /\ buildScale (JStr k) (JStr m) = buildScale (JStr k) (JStr "major"))
  /\ (forall m : string,
        table_get MODES (toLowerCase m) = None <->
        own MODES (toLowerCase m) = None
        /\ toLowerCase m <> "constructor" /\ toLowerCase m <> "__proto__")
  /\ (forall k m : string,
        table_get PITCH_CLASS k <> None ->
        toLowerCase m = "constructor" \/ toLowerCase m = "__proto__" ->
        buildScale (JStr k) (JStr m) = Throw TypeError)
  /\ (forall key mode : json,
        truthy mode = true -> (forall m, mode <> JStr m) ->
        buildScale key mode = Throw TypeError)
  /\ (forall (cfg : Config) (req : Request) (barsNum total : number)
             (o o1 : object) (kept : list json) (e : exn),
        schema_missing (JObj o) = false ->
        totalBeats o barsNum = Ok total ->
        applyDefaults req barsNum o = Ok o1 ->
        filterNotes total (notes_of o1) = Ok kept ->
        scaleOf (assign "notes" (JArr kept) o1) = Throw e ->
        fst (validate cfg req barsNum (JObj o)) = Send 400 (Thrown e))
  /\ (forall data : object,
        scaleOf data = Ok None <->
        truthy_opt (lookup "key" data) = false
        \/ truthy_opt (lookup "mode" data) = false
        \/ exists key k m,
             lookup "key" data = Some key /\ ToString key = Ok k
             /\ lookup "mode" data = Some (JStr m)
             /\ table_get PITCH_CLASS k = None)
  /\ (forall k : string,
        table_get PITCH_CLASS k = None <->
        own PITCH_CLASS k = None /\ ~ In k Object_prototype)
  /\ (forall (cfg : Config) (data : object),
        enforceScale cfg None data = (Json (JObj data), JObj data)).
Proof.
  split; [| split; [| split; [| split; [| split; [| split; [| split]]]]]].
  - intros k m r Hk Hm. rewrite !buildScale_strings.
    assert (Hr : table_get PITCH_CLASS k = Some (Own r))
      by (unfold table_get; rewrite Hk; reflexivity).
    rewrite Hr, Hm. split; reflexivity.
  - apply mode_not_found.
  - intros k m Hk Hm. rewrite buildScale_strings.
    destruct (table_get PITCH_CLASS k) as [r |]; [| contradiction].
    assert (Em : table_get MODES (toLowerCase m) = Some Inherited).
    { apply table_get_inherited.
      destruct Hm as [-> | ->]; split; try reflexivity; simpl; tauto. }
    rewrite Em. reflexivity.
  - apply buildScale_mode_not_string.
  - apply validate_scale_throws.
  - apply scaleOf_none.
  - intros k. apply table_get_absent.
  - intros cfg data. reflexivity.
Qed.

(** The key [C] with the mode [lydian] gives the scale of C major. *)
Lemma unrecognized_mode_defaults_to_major_witness :
  own PITCH_CLASS "C" = Some (of_Z 0)
  /\ table_get MODES (toLowerCase "lydian") = None
  /\ buildScale (JStr "C") (JStr "lydian")
     = buildScale (JStr "C") (JStr "major").
Proof.
  split; [reflexivity |]. split; [reflexivity |].
  exact (proj2 (proj1 (@unrecognized_mode_defaults_to_major ref_builtins)
                  "C" "lydian" (of_Z 0) eq_refl eq_refl)).
Defined.

(* ================================================================== *)
(** ** The snap branch *)
(* ================================================================== *)

Lemma snapNote_spec (sc : option Scale) (n : json) (c : nat) :
  Number_isFinite (prop n "p") = true ->
  (forall f, f <> "p" -> prop (fst (snapNote sc n c)) f = prop n f)
  /\ snd (snapNote sc n c)
     = (c + (if pitch_changed n (fst (snapNote sc n c)) then 1 else 0))%nat.
Proof.
  intros Hfin. unfold snapNote.
  destruct (inScale (num (prop n "p")) sc); cbn [fst snd].
  - split; [reflexivity |].
    unfold pitch_changed, pitch_of. rewrite strict_eq_refl.
    + simpl. lia.
    + destruct (finite_prop _ Hfin) as (x & ->). reflexivity.
  - split; [intros f Hf; apply prop_with_p_other; exact Hf |].
    unfold pitch_changed, pitch_of. rewrite prop_with_p. cbn [num].
    destruct (strict_eq _ _); simpl; lia.
Qed.

Lemma snapNotes_cons (sc : option Scale) (n : json) (rest : list json)
    (c : nat) :
  snapNotes sc (n :: rest) c
  = (fst (snapNote sc n c)
       :: fst (snapNotes sc rest (snd (snapNote sc n c))),
     snd (snapNotes sc rest (snd (snapNote sc n c)))).
Proof.
  cbn [snapNotes]. destruct (snapNote sc n c) as [n' c1]. cbn [fst snd].
  destruct (snapNotes sc rest c1) as [rest' c2]. reflexivity.
Qed.

Lemma snapNotes_spec (sc : option Scale) (notes : list json) :
  Forall (fun n => Number_isFinite (prop n "p") = true) notes ->
  forall c,
    List.length (fst (snapNotes sc notes c)) = List.length notes
    /\ (forall i n, nth_error notes i = Some n ->
          exists n', nth_error (fst (snapNotes sc notes c)) i = Some n'
                     /\ forall f, f <> "p" -> prop n' f = prop n f)
    /\ snd (snapNotes sc notes c)
       = (c + changed_count notes (fst (snapNotes sc notes c)))%nat.
Proof.
  induction 1 as [| n rest Hn _ IH]; intros c.
  - split; [reflexivity |]. split.
    + intros [| i] n E; discriminate E.
    + cbn. lia.
  - rewrite snapNotes_cons. cbn [fst snd].
    destruct (snapNote_spec sc n c Hn) as [Hframe Hc].
    destruct (IH (snd (snapNote sc n c))) as (Hlen & Hpt & Hcount).
    split; [cbn [List.length]; rewrite Hlen; reflexivity |]. split.
    + intros [| i] m E; cbn [nth_error] in *.
      * injection E as <-. eexists. split; [reflexivity | exact Hframe].
      * apply Hpt. exact E.
    + rewrite Hcount, Hc. unfold changed_count. cbn [combine filter fst snd].
      destruct (pitch_changed n _); cbn [List.length]; lia.
Qed.

(** C10, as stated, fails when no pitch changes: nothing is recorded
    then, so a [_snapped_info] that the candidate carried itself is
    answered.  The C major clip with a C and a count of seven is answered
    with the count seven, although no note was changed. *)
Lemma candidate_snapped_info_is_answered :
  exists doc : object,
    enforceScale Samples.snap
      (Some {| root := Own (of_Z 0); degrees := MODES_major;
               set := MODES_major |})
      (Samples.fields Samples.counted_clip) = (Json (JObj doc), JObj doc)
    /\ notes_of doc = notes_of (Samples.fields Samples.counted_clip)
    /\ changed_count (notes_of (Samples.fields Samples.counted_clip))
         (notes_of doc) = 0%nat
    /\ lookup "_snapped_info" doc
       = Some (JObj [("snapped_count", JNum (of_Z 7))])
    /\ (exists doc' st,
          validate Samples.snap Samples.no_request (of_Z 8)
            Samples.counted_clip = (Json doc', st)
          /\ prop doc' "_snapped_info"
             = Some (JObj [("snapped_count", JNum (of_Z 7))])).
Proof.
  eexists. split; [vm_compute; reflexivity |].
  split; [reflexivity |]. split; [vm_compute; reflexivity |].
  split; [reflexivity |].
  eexists. eexists. split; [vm_compute; reflexivity | reflexivity].
Qed.

(** C10, amended.  Under the snap policy the enforcement answers a
    document whose notes are as many as before and in the same order;
    each note keeps every field other than [p], in particular [tb], [db]
    and [v].  When the number of notes whose pitch changed is positive,
    that number is recorded as [snapped_count] in [_snapped_info], with
    the mode [snap_to_scale]; when it is zero nothing is recorded, and
    [_snapped_info] is as the document had it. *)
Theorem snap_changes_only_pitches `{Builtins} (cfg : Config) (s : Scale)
    (data : object) :
  SNAP_TO_SCALE cfg = true ->
  Forall (fun n => Number_isFinite (prop n "p") = true) (notes_of data) ->
  exists doc : object,
    enforceScale cfg (Some s) data = (Json (JObj doc), JObj doc)
    /\ List.length (notes_of doc) = List.length (notes_of data)
    /\ (forall i n, nth_error (notes_of data) i = Some n ->
          exists n', nth_error (notes_of doc) i = Some n'
            /\ prop n' "tb" = prop n "tb"
            /\ prop n' "db" = prop n "db"
            /\ prop n' "v" = prop n "v"
            /\ (forall f, f <> "p" -> prop n' f = prop n f))
    /\ ((0 < changed_count (notes_of data) (notes_of doc))%nat ->
          exists info,
            lookup "_snapped_info" doc = Some info
            /\ prop info "snapped_count"
               = Some (JNum (of_Z (Z.of_nat
                    (changed_count (notes_of data) (notes_of doc)))))
            /\ prop info "mode" = Some (JStr "snap_to_scale"))
    /\ (changed_count (notes_of data) (notes_of doc) = 0%nat ->
          lookup "_snapped_info" doc = lookup "_snapped_info" data)
    /\ (forall f, f <> "notes" -> f <> "_snapped_info" ->
                  lookup f doc = lookup f data).
Proof.
  intros Hsnap Hfin.
  destruct (snapNotes_spec (Some s) (notes_of data) Hfin 0%nat)
    as (Hlen & Hpt & Hcount).
  unfold enforceScale. rewrite Hsnap.
  destruct (snapNotes (Some s) (notes_of data) 0) as [notes' c] eqn:E.
  cbn [fst snd] in *. rewrite Nat.add_0_l in Hcount.
  destruct (finish_response (assign "notes" (JArr notes') data) c)
    as (doc & Ed & Hnotes & Hinfo & Hother).
  rewrite notes_of_assign in Hnotes.
  exists doc. rewrite Hnotes, <- Hcount.
  split; [exact Ed |]. split; [exact Hlen |]. split; [| split; [| split]].
  - intros i n En. destruct (Hpt i n En) as (n' & En' & Hframe).
    exists n'. split; [exact En' |].
    repeat split; apply Hframe; discriminate.
  - intros Hc. exists (snapped_info c).
    split; [exact (Hinfo Hc) |]. split; reflexivity.
  - intros ->. unfold finish in Ed. cbn in Ed. injection Ed as <-.
    lookups. reflexivity.
  - intros f F1 F2. rewrite Hother by exact F2. lookups. reflexivity.
Qed.

(** The C sharp of the C major clip is moved to C and counted once. *)
Lemma snap_changes_only_pitches_witness :
  exists doc : object,
    enforceScale Samples.snap
      (Some {| root := Own (of_Z 0); degrees := MODES_major;
               set := MODES_major |})
      (Samples.fields Samples.c_major_clip) = (Json (JObj doc), JObj doc)
    /\ notes_of doc = [Samples.note 0 1 60]
    /\ lookup "_snapped_info" doc = Some (snapped_info 1).
Proof.
  destruct (snap_changes_only_pitches Samples.snap
              {| root := Own (of_Z 0); degrees := MODES_major;
                 set := MODES_major |}
              (Samples.fields Samples.c_major_clip) eq_refl)
    as (doc & Ed & _).
  { repeat constructor. }
  exists doc. split; [exact Ed |].
  vm_compute in Ed. injection Ed as <-. split; reflexivity.
Defined.

(** The notes that reach the scale enforcement carry a finite pitch. *)
Lemma filterNotes_finite_pitch (total : number) (notes kept : list json) :
  filterNotes total notes = Ok kept ->
  Forall (fun n => Number_isFinite (prop n "p") = true) kept.
Proof.
  intros Hf. apply Forall_forall. intros n Hin.
  apply (filterNotes_kept _ _ _ Hf) in Hin.
  destruct Hin as (_ & _ & (p & -> & _)). reflexivity.
Qed.

(* ================================================================== *)
(** ** The strict branch *)
(* ================================================================== *)

Section Strict.
Context `{Builtins}.

(** A resolved scale comes from a key that prints and a mode that is a
    string. *)
Lemma scaleOf_resolved (data : object) (s : Scale) :
  scaleOf data = Ok (Some s) ->
  exists k m, ToString_opt (lookup "key" data) = Ok k
              /\ ToString_opt (lookup "mode" data) = Ok m.
Proof.
  unfold scaleOf.
  destruct (lookup "key" data) as [k |]; [| discriminate].
  destruct (lookup "mode" data) as [m |]; [| discriminate].
  destruct (truthy k && truthy m) eqn:T; [| discriminate].
  apply andb_true_iff in T. destruct T as [_ Tm].
  unfold buildScale. cbn [ToString_opt].
  destruct (ToString k) as [ks | e]; cbn [bind]; [| discriminate].
  rewrite Tm. destruct m; cbn [bind]; try discriminate.
  intros _. eexists. eexists. split; reflexivity.
Qed.

Lemma strict_branch (cfg : Config) (s : Scale) (data : object) :
  SNAP_TO_SCALE cfg = false ->
  STRICT_SCALE cfg = true ->
  scaleOf data = Ok (Some s) ->
  outOfScale (Some s) (notes_of data) <> [] ->
  exists k m,
    ToString_opt (lookup "key" data) = Ok k
    /\ ToString_opt (lookup "mode" data) = Ok m
    /\ enforceScale cfg (Some s) data
       = (Send 400
            (OUT_OF_SCALE (List.length (outOfScale (Some s) (notes_of data)))
               k m),
          JObj data).
Proof.
  intros Hsnap Hstrict Hsc Hbad.
  destruct (scaleOf_resolved _ _ Hsc) as (k & m & Ek & Em).
  exists k, m. split; [exact Ek |]. split; [exact Em |].
  unfold enforceScale. rewrite Hsnap, Hstrict.
  destruct (outOfScale (Some s) (notes_of data)) as [| b bad] eqn:E;
    [contradiction |].
  cbn [List.length]. rewrite Ek. cbn [bind]. rewrite Em. reflexivity.
Qed.

End Strict.

Lemma outOfScale_count (s : Scale) (notes : list json) :
  List.length (outOfScale (Some s) notes) = nonconforming s notes.
Proof.
  induction notes as [| n rest IH]; [reflexivity |].
  cbn [outOfScale filter nonconforming]. fold (pitch_of n).
  fold (outOfScale (Some s) rest).
  destruct (inScale (pitch_of n) (Some s)); cbn [negb List.length];
    rewrite IH; reflexivity.
Qed.

Lemma nonconforming_positive (s : Scale) (notes : list json) (n : json) :
  In n notes -> inScale (pitch_of n) (Some s) = false ->
  (0 < nonconforming s notes)%nat.
Proof.
  induction notes as [| m rest IH]; [contradiction |].
  intros [-> | Hin] Hout; cbn [nonconforming].
  - rewrite Hout. lia.
  - specialize (IH Hin Hout). lia.
Qed.

(** C7.  Under the strict policy (strict on, snap off) with a resolved
    scale, when at least one note that survived the clamp is out of scale,
    the route answers 400 [OUT_OF_SCALE] with the number of the clamped
    notes that are out of scale, which is positive, and the key and mode
    of the document, and the document is left with the clamped notes as
    they were.  The C major clip whose only note is a C sharp is answered
    [OUT_OF_SCALE] with count 1. *)
Theorem strict_policy_rejects :
  (forall `{Builtins} (cfg : Config) (req : Request) (barsNum total : number)
          (o o1 : object) (kept : list json) (s : Scale),
     SNAP_TO_SCALE cfg = false ->
     STRICT_SCALE cfg = true ->
     schema_missing (JObj o) = false ->
     totalBeats o barsNum = Ok total ->
     applyDefaults req barsNum o = Ok o1 ->
     filterNotes total (notes_of o1) = Ok kept ->
     scaleOf (assign "notes" (JArr kept) o1) = Ok (Some s) ->
     (exists n, In n kept /\ inScale (pitch_of n) (Some s) = false) ->
     exists k m,
       ToString_opt (lookup "key" o1) = Ok k
       /\ ToString_opt (lookup "mode" o1) = Ok m
       /\ validate cfg req barsNum (JObj o)
          = (Send 400 (OUT_OF_SCALE (nonconforming s kept) k m),
             JObj (assign "notes" (JArr kept) o1))
       /\ (0 < nonconforming s kept)%nat
       /\ notes_of (assign "notes" (JArr kept) o1) = kept)
  /\ nonconforming
       {| root := Own (of_Z 0); degrees := MODES_major; set := MODES_major |}
       [Samples.note 0 1 60; Samples.note 1 1 61; Samples.note 2 1 66] = 2%nat
  /\ compose (Samples.answers Samples.c_major_text) Samples.strict
       Samples.no_request
     = Send 400 (OUT_OF_SCALE 1 "C" "major").
Proof.
  split; [| split; vm_compute; reflexivity].
  intros B cfg req barsNum total o o1 kept s Hsnap Hstrict Hs Ht Hd Hf Hsc
    (n & Hin & Hout).
  pose proof (nonconforming_positive s kept n Hin Hout) as Hpos.
  rewrite (validate_stages cfg req barsNum o o1 total kept (Some s)
             Hs Ht Hd Hf Hsc).
  destruct (strict_branch cfg s (assign "notes" (JArr kept) o1)
              Hsnap Hstrict Hsc) as (k & m & Ek & Em & He).
  { rewrite notes_of_assign. intros E.
    pose proof (outOfScale_count s kept) as C. rewrite E in C.
    simpl in C. lia. }
  rewrite notes_of_assign, outOfScale_count in He.
  exists k, m. rewrite lookup_assign_other in Ek by discriminate.
  rewrite lookup_assign_other in Em by discriminate.
  repeat split; auto. apply notes_of_assign.
Qed.

(** The general part at the C major clip. *)
Lemma strict_policy_rejects_witness :
  exists o1 kept s,
    applyDefaults Samples.no_request (of_Z 8)
      (Samples.fields Samples.c_major_clip) = Ok o1
    /\ filterNotes (of_Z 16) (notes_of o1) = Ok kept
    /\ scaleOf (assign "notes" (JArr kept) o1) = Ok (Some s)
    /\ nonconforming s kept = 1%nat
    /\ validate Samples.strict Samples.no_request (of_Z 8)
         Samples.c_major_clip
       = (Send 400 (OUT_OF_SCALE 1 "C" "major"),
          JObj (assign "notes" (JArr kept) o1)).
Proof.
  eexists. eexists. eexists.
  split; [vm_compute; reflexivity |].
  split; [vm_compute; reflexivity |].
  split; [vm_compute; reflexivity |].
  split; [vm_compute; reflexivity |].
  destruct (proj1 strict_policy_rejects ref_builtins Samples.strict
              Samples.no_request (of_Z 8) (of_Z 16)
              (Samples.fields Samples.c_major_clip) _ _ _
              eq_refl eq_refl eq_refl eq_refl eq_refl eq_refl eq_refl)
    as (k & m & Ek & Em & Hv & _).
  { eexists. split; [left; reflexivity | vm_compute; reflexivity]. }
  vm_compute in Ek. injection Ek as <-.
  vm_compute in Em. injection Em as <-.
  exact Hv.
Defined.

(* ================================================================== *)
(** ** The document on the wire *)
(* ================================================================== *)

Lemma lookup_sent (k : string) (o : object) :
  lookup k (map (fun kv : string * json => let (k, x) := kv in (k, sent x)) o)
  = option_map sent (lookup k o).
Proof.
  induction o as [| [k' v] o IH]; simpl; [reflexivity |].
  destruct (String.eqb k k'); [reflexivity | exact IH].
Qed.

Lemma prop_sent (v : json) (k : string) :
  prop (sent v) k = option_map sent (prop v k).
Proof.
  destruct v as [| b | n | s | l | o]; try reflexivity.
  - simpl. destruct (isFinite n); reflexivity.
  - apply lookup_sent.
Qed.

Lemma clip_notes_sent (doc : json) :
  clip_notes (sent doc) = map sent (clip_notes doc).
Proof.
  unfold clip_notes. rewrite prop_sent.
  destruct (prop doc "notes") as [[| b | n | s | l | o] |]; try reflexivity.
  simpl. destruct (isFinite n); reflexivity.
Qed.

(** A finite number arrives as it is. *)
Lemma prop_sent_finite (v : json) (k : string) (x : Q) :
  prop v k = Some (JNum (Fin x)) -> prop (sent v) k = Some (JNum (Fin x)).
Proof.
  intros E. rewrite prop_sent, E. reflexivity.
Qed.

Lemma temporal_sent (total : number) (n : json) :
  temporal total n -> temporal total (sent n).
Proof.
  intros (tb & db & Etb & Edb & Hrest). exists tb, db.
  rewrite (prop_sent_finite _ _ _ Etb), (prop_sent_finite _ _ _ Edb). auto.
Qed.

Lemma pitch_in_range_sent (n : json) :
  pitch_in_range n -> pitch_in_range (sent n).
Proof.
  intros (p & Ep & Hp). exists p.
  rewrite (prop_sent_finite _ _ _ Ep). auto.
Qed.

(* ================================================================== *)
(** ** The notes of a document that is answered *)
(* ================================================================== *)

Lemma snapNotes_In (sc : option Scale) (notes : list json) :
  forall (c : nat) (n : json),
    In n (fst (snapNotes sc notes c)) ->
    exists n0, In n0 notes
      /\ (n = n0
          \/ (inScale (pitch_of n0) sc = false
              /\ n = with_p n0 (nearestInScale (pitch_of n0) sc))).
Proof.
  induction notes as [| m rest IH]; intros c n.
  - intros [].
  - rewrite snapNotes_cons. cbn [fst]. intros [E | Hin].
    + exists m. split; [left; reflexivity |].
      unfold snapNote in E. fold (pitch_of m) in E.
      destruct (inScale (pitch_of m) sc) eqn:Hm; cbn [fst] in E.
      * left. symmetry. exact E.
      * right. split; [reflexivity | symmetry; exact E].
    + destruct (IH _ _ Hin) as (n0 & Hn0 & Hcase).
      exists n0. split; [right; exact Hn0 | exact Hcase].
Qed.

Lemma temporal_with_p (total : number) (n : json) (p2 : number) :
  temporal total n -> temporal total (with_p n p2).
Proof.
  intros (tb & db & Etb & Edb & Hrest). exists tb, db.
  rewrite !prop_with_p_other by discriminate. auto.
Qed.

Section Answered.
Context `{Builtins}.
Variable anthropic : call -> reply.

(** A document answered by the route is one answered by [validate], for
    a bar count that is neither zero nor [NaN]. *)
Lemma compose_success (cfg : Config) (req : Request) (doc : json) :
  compose anthropic cfg req = Json doc ->
  exists barsNum data st,
    Num.truthy barsNum = true
    /\ validate cfg req barsNum data = (Json doc, st).
Proof.
  unfold compose.
  destruct (ToNumber (bars req)) as [nb | e]; cbn [bind]; [| discriminate].
  assert (Hb : Num.truthy (if Num.truthy nb then nb else of_Z 8) = true)
    by (destruct (Num.truthy nb) eqn:E; [exact E | reflexivity]).
  set (barsNum := if Num.truthy nb then nb else of_Z 8) in *.
  destruct (userPrompt req barsNum) as [prompt | e]; cbn [bind];
    [| discriminate].
  destruct (anthropic _) as [content | status detail]; [| discriminate].
  destruct (extractJson (JStr (text_of content))) as [data | e].
  - intros E. exists barsNum, data, (snd (validate cfg req barsNum data)).
    split; [exact Hb |]. rewrite <- E. apply surjective_pairing.
  - destruct (anthropic _) as [content' | status detail]; [| discriminate].
    destruct (extractJson (JStr (text_of content'))) as [data | e2];
      [| discriminate].
    intros E. exists barsNum, data, (snd (validate cfg req barsNum data)).
    split; [exact Hb |]. rewrite <- E. apply surjective_pairing.
Qed.

(** The bar count and the time signature of an answered document give
    the total the clamp used. *)
Lemma answered_totalBeats (req : Request) (barsNum total : number)
    (o o1 d : object) :
  schema_missing (JObj o) = false ->
  totalBeats o barsNum = Ok total ->
  applyDefaults req barsNum o = Ok o1 ->
  (forall f, f <> "notes" -> f <> "_snapped_info" ->
             lookup f d = lookup f o1) ->
  exists bars' ts,
    lengthBars o barsNum = Ok bars'
    /\ lookup "length_bars" d = Some (JNum bars')
    /\ lookup "time_signature" d = Some (JStr ts)
    /\ total = mul bars' (if startsWith "3/" ts then of_Z 3 else of_Z 4).
Proof.
  intros Hs Ht Hd Hsame.
  destruct (applyDefaults_spec _ _ _ _ Hd)
    as (bars' & Hl & _ & Hlb & Hts & _).
  rewrite <- (Hsame "length_bars") in Hlb by discriminate.
  rewrite <- (Hsame "time_signature") in Hts by discriminate.
  unfold schema_missing in Hs. cbn [prop] in Hs.
  apply orb_false_iff in Hs. destruct Hs as [Hs _].
  apply orb_false_iff in Hs. destruct Hs as [_ Hs].
  apply negb_false_iff in Hs.
  unfold totalBeats in Ht. unfold beatsPerBar in Ht.
  destruct (lookup "time_signature" o) as [v |]; [| discriminate].
  cbn [truthy_opt] in Hs. cbn [or_str] in Hts. rewrite Hs in Hts.
  destruct v as [| b | x | ts | l | f];
    try (rewrite Hs in Ht; discriminate Ht).
  cbn [bind] in Ht. rewrite Hl in Ht. cbn [bind] in Ht.
  rewrite Hs in Ht. cbn [andb] in Ht. injection Ht as <-.
  exists bars', ts. auto.
Qed.

End Answered.

(** The sample texts are the sample clips. *)
Lemma sample_texts_parse :
  JSON_parse Samples.c_major_text = Some Samples.c_major_clip
  /\ JSON_parse Samples.d_major_text = Some Samples.d_major_clip.
Proof.
  split; vm_compute; reflexivity.
Qed.

(** The reference engine at work: a product is rounded to the nearest
    double, a number prints with the fewest digits that read back, a literal
    beyond the range reads as infinity, the pitch class of a pitch just
    below twelve is zero, and the integer-like keys of an object come first,
    in ascending order. *)
Lemma reference_engine_examples :
  mul (StringToNumber "0.1") (of_Z 3) = StringToNumber "0.30000000000000004"
  /\ NumberToString (StringToNumber "0.30000000000000004")
     = "0.30000000000000004"
  /\ NumberToString (StringToNumber "0.8") = "0.8"
  /\ StringToNumber "1e400" = PosInf
  /\ pc (StringToNumber "11.999999999999998") = of_Z 0
  /\ JSON_parse Samples.ordered_text
     = Some (JObj [ ("1", JNum (of_Z 3)); ("2", JNum (of_Z 2));
                    ("b", JNum (of_Z 1)) ]).
Proof.
  repeat split; vm_compute; reflexivity.
Qed.

Lemma clip_totalBeats_sent (d : object) (bars' : number) (ts : string) :
  lookup "length_bars" d = Some (JNum bars') ->
  lookup "time_signature" d = Some (JStr ts) ->
  Num.truthy bars' = true ->
  let total := mul bars' (if startsWith "3/" ts then of_Z 3 else of_Z 4) in
  clip_totalBeats (sent (JObj d)) = Some total
  \/ (prop (sent (JObj d)) "length_bars" = Some JNull
      /\ (total = PosInf \/ total = NegInf)).
Proof.
  intros Hlb Hts Hb total. unfold clip_totalBeats.
  rewrite !prop_sent. cbn [prop]. rewrite Hlb, Hts. cbn [option_map sent].
  destruct bars' as [| | | b]; cbn [isFinite].
  - discriminate Hb.
  - right. split; [reflexivity |]. left. subst total.
    destruct (startsWith "3/" ts); reflexivity.
  - right. split; [reflexivity |]. right. subst total.
    destruct (startsWith "3/" ts); reflexivity.
  - left. reflexivity.
Qed.

Lemma lengthBars_truthy `{Builtins} (o : object) (barsNum bars' : number) :
  Num.truthy barsNum = true ->
  lengthBars o barsNum = Ok bars' ->
  Num.truthy bars' = true.
Proof.
  intros Hb. unfold lengthBars.
  destruct (ToNumber (lookup "length_bars" o)) as [n |]; cbn [bind];
    [| discriminate].
  intros [= <-]. destruct (Num.truthy n) eqn:En; [exact En | exact Hb].
Qed.

Lemma midi_range_below_max (p : Q) :
  (0 <= p <= 127)%Q -> (Qabs p <= MAX_VALUE)%Q.
Proof.
  intros [H0 H1]. rewrite Qabs_pos by exact H0.
  apply (Qle_trans _ _ _ H1). vm_compute. discriminate.
Qed.

(** C1, as stated, fails twice on one answered document.  From the
    D major clip with the pitches 60.5 and 0, the route under the snap
    policy answers a document whose first note still has the pitch 60.5,
    which is not an integer, and whose second note has the pitch -1,
    below the range. *)
Lemma answered_pitch_is_not_always_midi :
  exists doc,
    compose (Samples.answers Samples.d_major_text) Samples.snap
      Samples.no_request = Json doc
    /\ clip_notes (sent doc)
       = [Samples.note 0 1 (121 # 2); Samples.note 1 1 (-1)]
    /\ ~ pitch_is_midi (Samples.note 0 1 (121 # 2))
    /\ ~ pitch_is_midi (Samples.note 1 1 (-1)).
Proof.
  eexists. split; [vm_compute; reflexivity |].
  split; [vm_compute; reflexivity |].
  split; intros (z & Hz & p & Ep & Hp); injection Ep as <-;
    unfold Qeq in Hp; simpl in Hp; lia.
Qed.

(** C1, amended.  In every document the route answers, as the client
    reads it, each note has a finite [tb >= 0], a finite [db > 0] and
    [tb + db <= totalBeats], where the sum is the one the filter computes
    (the double nearest to the exact sum) and [totalBeats] is
    [length_bars * beatsPerBar] of that document; when the bar count is
    infinite, [length_bars] arrives as [null] and the total is infinite.
    Each note has a finite pitch, which need not be an integer; the pitch
    is in [0, 127] for every note that the snap step did not replace. *)
Theorem answered_notes_are_clamped `{Builtins} (anthropic : call -> reply)
    (cfg : Config) (req : Request) (doc : json) :
  compose anthropic cfg req = Json doc ->
  exists total,
    (clip_totalBeats (sent doc) = Some total
     \/ (prop (sent doc) "length_bars" = Some JNull
         /\ (total = PosInf \/ total = NegInf)))
    /\ forall n, In n (clip_notes (sent doc)) ->
         temporal total n
         /\ (exists p : Q, prop n "p" = Some (JNum (Fin p)))
         /\ (pitch_in_range n
             \/ (SNAP_TO_SCALE cfg = true
                 /\ exists (p0 : Q) (sc : option Scale),
                      (0 <= p0 <= 127)%Q
                      /\ inScale (Fin p0) sc = false
                      /\ prop n "p"
                         = Some (JNum (nearestInScale (Fin p0) sc)))).
Proof.
  intros Hc.
  destruct (compose_success anthropic _ _ _ Hc)
    as (barsNum & data & st & Hb & Hv).
  destruct (validate_doc _ _ _ _ _ _ Hv)
    as (o & o1 & total & kept & sc & d & -> & Hs & Ht & Hd & Hf & _ & ->
        & Hsame & Hnotes).
  exists total.
  destruct (answered_totalBeats req barsNum total o o1 d Hs Ht Hd Hsame)
    as (bars' & ts & Hl & Hlb & Hts & ->).
  split.
  { apply clip_totalBeats_sent; [exact Hlb | exact Hts |].
    exact (lengthBars_truthy o barsNum bars' Hb Hl). }
  set (total := mul bars' _) in *.
  assert (Hkept : forall n0, In n0 kept -> temporal total n0 /\ pitch_in_range n0).
  { intros n0 Hin. apply (filterNotes_kept _ _ _ Hf) in Hin. tauto. }
  rewrite clip_notes_sent. change (clip_notes (JObj d)) with (notes_of d).
  intros n Hin. apply in_map_iff in Hin. destruct Hin as (n1 & <- & Hin).
  assert (Hplain : forall m, In m kept ->
            temporal total (sent m)
            /\ (exists p : Q, prop (sent m) "p" = Some (JNum (Fin p)))
            /\ pitch_in_range (sent m)).
  { intros m Hm. destruct (Hkept m Hm) as [Htemp Hp].
    split; [apply temporal_sent; exact Htemp |].
    split; [| apply pitch_in_range_sent; exact Hp].
    destruct Hp as (p & Ep & _). exists p.
    apply prop_sent_finite. exact Ep. }
  destruct Hnotes as [En | (_ & Hsnap & En)]; rewrite En in Hin.
  - destruct (Hplain n1 Hin) as (H1 & H2 & H3). auto.
  - destruct (snapNotes_In _ _ _ _ Hin) as (n0 & Hn0 & [-> | [Hout ->]]).
    + destruct (Hplain n0 Hn0) as (H1 & H2 & H3). auto.
    + destruct (Hkept n0 Hn0) as [Htemp Hp].
      destruct Hp as (p & Ep & Hrange).
      unfold pitch_of in *. rewrite Ep in *. cbn [num] in *.
      pose proof (nearest_finite p sc (midi_range_below_max p Hrange)) as Hfin.
      destruct (nearestInScale (Fin p) sc) as [| | | x] eqn:Ex;
        try discriminate Hfin.
      assert (Epx : prop (sent (with_p n0 (Fin x))) "p" = Some (JNum (Fin x)))
        by (apply prop_sent_finite; apply prop_with_p).
      split; [apply temporal_sent, temporal_with_p; exact Htemp |].
      split; [exists x; exact Epx |].
      right. split; [exact Hsnap |]. exists p, sc.
      rewrite Ex. auto.
Qed.

(** The notes answered for the C major clip under the snap policy. *)
Lemma answered_notes_are_clamped_witness :
  compose (Samples.answers Samples.c_major_text) Samples.snap
    Samples.no_request = Json Samples.c_major_answer
  /\ exists total,
       forall n, In n (clip_notes (sent Samples.c_major_answer)) ->
                 temporal total n.
Proof.
  assert (E : compose (Samples.answers Samples.c_major_text) Samples.snap
                Samples.no_request = Json Samples.c_major_answer)
    by (vm_compute; reflexivity).
  split; [exact E |].
  destruct (answered_notes_are_clamped
              (Samples.answers Samples.c_major_text) Samples.snap
              Samples.no_request Samples.c_major_answer E)
    as (total & _ & Hn).
  exists total.
  intros n Hin. exact (proj1 (Hn n Hin)).
Defined.

(* ================================================================== *)
(** ** Strings *)
(* ================================================================== *)

Lemma append_nil_r (s : string) : s ++ "" = s.
Proof. induction s as [| c r IH]; simpl; [reflexivity | rewrite IH; reflexivity]. Qed.

Lemma append_assoc (a b c : string) : (a ++ b) ++ c = a ++ (b ++ c).
Proof. induction a as [| x r IH]; simpl; [reflexivity | rewrite IH; reflexivity]. Qed.

Lemma length_append (a b : string) :
  String.length (a ++ b) = (String.length a + String.length b)%nat.
Proof. induction a as [| x r IH]; simpl; [reflexivity | rewrite IH; reflexivity]. Qed.

Lemma prefix_append (a b : string) : String.prefix a (a ++ b) = true.
Proof.
  induction a as [| x r IH]; simpl; [destruct b; reflexivity |].
  destruct (ascii_dec x x); [exact IH | contradiction].
Qed.

Lemma prefix_split (p s : string) :
  String.prefix p s = true -> s = p ++ drop (String.length p) s.
Proof.
  revert s. induction p as [| x r IH]; intros s; simpl.
  - intros _. destruct s; reflexivity.
  - destruct s as [| y s']; simpl; [discriminate |].
    destruct (ascii_dec x y) as [-> | _]; [| discriminate].
    intros P. rewrite <- (IH s' P). reflexivity.
Qed.

Lemma drop_append (a b : string) : drop (String.length a) (a ++ b) = b.
Proof.
  induction a as [| x r IH]; simpl; [destruct b; reflexivity | exact IH].
Qed.

Lemma substring_append (a b : string) :
  substring 0 (String.length a) (a ++ b) = a.
Proof.
  induction a as [| x r IH]; simpl; [destruct b; reflexivity |].
  rewrite IH. reflexivity.
Qed.

Lemma substring_drop (n : nat) (s : string) :
  substring 0 n s ++ drop n s = s.
Proof.
  revert s. induction n as [| n IH]; intros s.
  - destruct s; reflexivity.
  - destruct s as [| c r]; [reflexivity |]. simpl. rewrite IH. reflexivity.
Qed.

Lemma length_toLowerCase (s : string) :
  String.length (toLowerCase s) = String.length s.
Proof. induction s as [| c r IH]; simpl; [reflexivity | rewrite IH; reflexivity]. Qed.

Lemma tag_length (tag : string) :
  toLowerCase tag = "json" -> String.length tag = 4%nat.
Proof.
  intros E. rewrite <- length_toLowerCase, E. reflexivity.
Qed.

Lemma append_same_length (a a' x x' : string) :
  a ++ x = a' ++ x' -> String.length a = String.length a' ->
  a = a' /\ x = x'.
Proof.
  revert a'. induction a as [| c r IH]; intros [| c' r']; simpl;
    try discriminate.
  - auto.
  - intros [= -> E] [= L]. destruct (IH _ E L) as [-> ->]. auto.
Qed.

Lemma append_same_length_r (y y' b b' : string) :
  y ++ b = y' ++ b' -> String.length b = String.length b' ->
  y = y' /\ b = b'.
Proof.
  intros E L. apply append_same_length; [exact E |].
  pose proof (f_equal String.length E) as EL.
  rewrite !length_append in EL. lia.
Qed.

(** Two prefixes of one string: one is a prefix of the other. *)
Lemma prefix_comparable (p q s : string) :
  String.prefix p s = true -> String.prefix q s = true ->
  String.prefix p q = true \/ String.prefix q p = true.
Proof.
  revert p q. induction s as [| c r IH]; intros p q.
  - destruct p; [| discriminate]. intros _ _. left. destruct q; reflexivity.
  - destruct p as [| x p']; [intros _ _; left; destruct q; reflexivity |].
    destruct q as [| y q']; [intros _ _; right; reflexivity |].
    simpl. destruct (ascii_dec x c) as [-> | _]; [| discriminate].
    destruct (ascii_dec y c) as [-> | _]; [| discriminate].
    destruct (ascii_dec c c); [| contradiction]. apply IH.
Qed.

Lemma rev_string_append (s acc : string) :
  rev_string s acc = reverse s ++ acc.
Proof.
  unfold reverse. revert acc. induction s as [| c r IH]; intros acc; simpl;
    [reflexivity |].
  rewrite IH, (IH (String c "")), append_assoc. reflexivity.
Qed.

Lemma reverse_cons (c : ascii) (s : string) :
  reverse (String c s) = reverse s ++ String c "".
Proof. unfold reverse at 1. simpl. apply rev_string_append. Qed.

Lemma reverse_append (a b : string) :
  reverse (a ++ b) = reverse b ++ reverse a.
Proof.
  induction a as [| c r IH]; simpl.
  - rewrite append_nil_r. reflexivity.
  - rewrite !reverse_cons, IH, append_assoc. reflexivity.
Qed.

Lemma reverse_involutive (s : string) : reverse (reverse s) = s.
Proof.
  induction s as [| c r IH]; [reflexivity |].
  rewrite reverse_cons, reverse_append, IH. reflexivity.
Qed.

Lemma length_reverse (s : string) :
  String.length (reverse s) = String.length s.
Proof.
  induction s as [| c r IH]; [reflexivity |].
  rewrite reverse_cons, length_append, IH. simpl. lia.
Qed.

(* ================================================================== *)
(** ** The removal of the fence markers *)
(* ================================================================== *)

Lemma drop_nil (k : nat) : drop k "" = "".
Proof. destruct k; reflexivity. Qed.

Lemma strip_skip (s : string) : forall k,
  strip_fences_from k s = strip_fences_from 0 (drop k s).
Proof.
  induction s as [| c r IH]; intros k.
  - rewrite drop_nil. reflexivity.
  - destruct k as [| k]; [reflexivity |]. cbn [strip_fences_from drop].
    apply IH.
Qed.

Lemma strip_step (c : ascii) (r : string) :
  strip_fences_from 0 (String c r)
  = if String.prefix "```" (String c r) then
      strip_fences_from
        (if String.eqb (toLowerCase (substring 3 4 (String c r))) "json"
         then 6%nat else 2%nat) r
    else String c (strip_fences_from 0 r).
Proof. reflexivity. Qed.

(** The removal at a marker: the tag goes with the backticks when it
    follows them. *)
Lemma strip_at_fence (r : string) :
  strip_fences (fence ++ r)
  = strip_fences
      (if String.eqb (toLowerCase (substring 0 4 r)) "json"
       then drop 4 r else r).
Proof.
  unfold strip_fences. change (fence ++ r) with (String "`" ("``" ++ r)).
  rewrite strip_step.
  change (String "`" ("``" ++ r)) with (fence ++ r).
  rewrite prefix_append.
  change (substring 3 4 (fence ++ r)) with (substring 0 4 r).
  rewrite strip_skip.
  destruct (String.eqb (toLowerCase (substring 0 4 r)) "json"); reflexivity.
Qed.

Lemma strip_at_char (c : ascii) (r : string) :
  String.prefix fence (String c r) = false ->
  strip_fences (String c r) = String c (strip_fences r).
Proof.
  unfold strip_fences, fence. intros P. rewrite strip_step, P. reflexivity.
Qed.

Lemma tag_follows (tag r : string) :
  toLowerCase tag = "json" -> String.prefix tag r = true ->
  substring 0 4 r = tag /\ drop 4 r = drop (String.length tag) r.
Proof.
  intros Ht P. pose proof (tag_length tag Ht) as L.
  rewrite L. split; [| reflexivity].
  rewrite (prefix_split _ _ P), <- L. apply substring_append.
Qed.

Lemma unfenced_strip_bounded : forall (n : nat) (s : string),
  (String.length s <= n)%nat -> unfenced s (strip_fences s).
Proof.
  induction n as [| n IH]; intros s Hn.
  - destruct s; [constructor | simpl in Hn; lia].
  - destruct s as [| c r]; [constructor |].
    destruct (String.prefix fence (String c r)) eqn:P.
    + pose proof (prefix_split _ _ P) as E.
      set (r3 := drop (String.length fence) (String c r)) in *.
      assert (L3 : (String.length r3 <= n)%nat).
      { pose proof (f_equal String.length E) as EL.
        rewrite length_append in EL. simpl in EL, Hn. simpl. lia. }
      rewrite E, strip_at_fence.
      destruct (String.eqb_spec (toLowerCase (substring 0 4 r3)) "json")
        as [Ht | Ht].
      * rewrite <- (substring_drop 4 r3) at 1. rewrite <- append_assoc.
        apply unfenced_marker.
        -- split; [apply tagged_marker; exact Ht |].
           intros Em. apply (f_equal String.length) in Em.
           rewrite length_append, (tag_length _ Ht) in Em. discriminate Em.
        -- apply IH.
           pose proof (f_equal String.length (substring_drop 4 r3)) as EL.
           rewrite length_append in EL. lia.
      * apply unfenced_marker; [| apply IH; exact L3].
        split; [constructor |]. intros _ tag Htag.
        destruct (String.prefix tag r3) eqn:Pt; [| reflexivity].
        exfalso. apply Ht.
        destruct (tag_follows tag r3 Htag Pt) as [-> _]. exact Htag.
    + rewrite (strip_at_char c r P). apply unfenced_char; [exact P |].
      apply IH. simpl in Hn. lia.
Qed.

Lemma unfenced_strip (s : string) : unfenced s (strip_fences s).
Proof. apply (unfenced_strip_bounded (String.length s)). lia. Qed.

Lemma unfenced_unique (t u : string) : unfenced t u -> u = strip_fences t.
Proof.
  induction 1 as [| m rest u [Hm Hmax] _ IH | c rest u P _ IH].
  - reflexivity.
  - subst u. destruct Hm as [| tag Ht].
    + rewrite strip_at_fence.
      destruct (String.eqb_spec (toLowerCase (substring 0 4 rest)) "json")
        as [E | _]; [| reflexivity].
      exfalso.
      assert (P : String.prefix (substring 0 4 rest) rest = true).
      { rewrite <- (substring_drop 4 rest) at 2. apply prefix_append. }
      rewrite (Hmax eq_refl _ E) in P. discriminate P.
    + rewrite append_assoc, strip_at_fence.
      pose proof (tag_length tag Ht) as L.
      assert (E : substring 0 4 (tag ++ rest) = tag)
        by (rewrite <- L; apply substring_append).
      rewrite E, Ht. cbn [String.eqb Ascii.eqb Bool.eqb andb].
      rewrite <- L, drop_append. reflexivity.
  - subst u. symmetry. apply strip_at_char. exact P.
Qed.

(* ================================================================== *)
(** ** The removal of the white space *)
(* ================================================================== *)

Lemma whitespace_is_code :
  is_code whitespace = true /\ is_code (map reverse whitespace) = true.
Proof. split; vm_compute; reflexivity. Qed.

Section Codes.
Variable codes : list string.
Hypothesis Hcode : is_code codes = true.

Lemma code_nonempty (p : string) : In p codes -> p <> "".
Proof.
  intros Hp. unfold is_code in Hcode. rewrite forallb_forall in Hcode.
  specialize (Hcode p Hp). apply andb_true_iff in Hcode.
  destruct Hcode as [N _]. apply negb_true_iff, String.eqb_neq in N. exact N.
Qed.

Lemma code_unique (p q s : string) :
  In p codes -> In q codes ->
  String.prefix p s = true -> String.prefix q s = true -> p = q.
Proof.
  intros Hp Hq Pp Pq.
  assert (Hpq : forall a b, In a codes -> In b codes ->
                  String.prefix a b = true -> a = b).
  { intros a b Ha Hb Pab. unfold is_code in Hcode.
    rewrite forallb_forall in Hcode. specialize (Hcode a Ha).
    apply andb_true_iff in Hcode. destruct Hcode as [_ Hall].
    rewrite forallb_forall in Hall. specialize (Hall b Hb).
    rewrite Pab in Hall. apply String.eqb_eq. exact Hall. }
  destruct (prefix_comparable p q s Pp Pq) as [P | P].
  - apply Hpq; assumption.
  - symmetry. apply Hpq; assumption.
Qed.

Lemma match_prefix_some (s : string) (n : nat) :
  match_prefix codes s = Some n ->
  exists p, In p codes /\ String.prefix p s = true /\ n = String.length p.
Proof.
  clear Hcode. induction codes as [| p rest IH]; simpl; [discriminate |].
  destruct (String.prefix p s) eqn:P.
  - intros [= <-]. exists p. auto.
  - intros E. destruct (IH E) as (q & Hq & Pq & L). exists q. auto.
Qed.

Lemma match_prefix_none (s : string) :
  match_prefix codes s = None ->
  forall p, In p codes -> String.prefix p s = false.
Proof.
  clear Hcode. induction codes as [| q rest IH]; simpl; [contradiction |].
  destruct (String.prefix q s) eqn:P; [discriminate |].
  intros E p [<- | Hp]; [exact P | apply IH; assumption].
Qed.

Lemma run_starts (a x : string) :
  run_of codes a -> a <> "" ->
  exists w r, In w codes /\ run_of codes r /\ a = w ++ r.
Proof.
  intros Hr Hne. destruct Hr as [| w r Hw Hr]; [contradiction |].
  exists w, r. auto.
Qed.

(** [strip_leading] removes the longest run of codes that starts the
    string. *)
Lemma strip_leading_longest : forall (fuel : nat) (s : string),
  (String.length s <= fuel)%nat ->
  exists a,
    s = a ++ strip_leading codes fuel s
    /\ run_of codes a
    /\ forall a' x, run_of codes a' -> s = a' ++ x ->
                    (String.length a' <= String.length a)%nat.
Proof.
  induction fuel as [| fuel IH]; intros s Hlen.
  - destruct s; [| simpl in Hlen; lia].
    exists "". split; [reflexivity |]. split; [constructor |].
    intros a' x _ E. destruct a'; [simpl; lia | discriminate E].
  - cbn [strip_leading].
    destruct (match_prefix codes s) as [[| k] |] eqn:M.
    + exfalso. destruct (match_prefix_some s 0 M) as (p & Hp & _ & L).
      apply (code_nonempty p Hp). destruct p; [reflexivity | discriminate L].
    + destruct (match_prefix_some s (S k) M) as (p & Hp & Pp & L).
      rewrite L. pose proof (prefix_split p s Pp) as E.
      set (s' := drop (String.length p) s) in *.
      assert (Hs' : (String.length s' <= fuel)%nat).
      { pose proof (f_equal String.length E) as EL.
        rewrite length_append in EL. lia. }
      destruct (IH s' Hs') as (a1 & E1 & R1 & Max1).
      exists (p ++ a1). split; [| split].
      * rewrite append_assoc, <- E1. exact E.
      * constructor; assumption.
      * intros a' x Ra' Ea'. destruct Ra' as [| w r Hw Rr]; [simpl; lia |].
        rewrite append_assoc in Ea'.
        assert (Pw : String.prefix w s = true)
          by (rewrite Ea'; apply prefix_append).
        pose proof (code_unique w p s Hw Hp Pw Pp) as ->.
        rewrite E in Ea'.
        destruct (append_same_length _ _ _ _ Ea' eq_refl) as [_ Er].
        specialize (Max1 r x Rr Er). rewrite !length_append. lia.
    + exists "". split; [reflexivity |]. split; [constructor |].
      intros a' x Ra' Ea'. destruct Ra' as [| w r Hw Rr]; [simpl; lia |].
      exfalso. rewrite append_assoc in Ea'.
      pose proof (match_prefix_none s M w Hw) as N.
      rewrite Ea', prefix_append in N. discriminate N.
Qed.

Lemma run_append (a b : string) :
  run_of codes a -> run_of codes b -> run_of codes (a ++ b).
Proof.
  clear Hcode. intros Ra Rb. induction Ra as [| w r Hw _ IH]; [exact Rb |].
  rewrite append_assoc. constructor; assumption.
Qed.

End Codes.

Lemma run_reverse (codes : list string) (a : string) :
  run_of codes a -> run_of (map reverse codes) (reverse a).
Proof.
  induction 1 as [| w r Hw _ IH]; [constructor |].
  rewrite reverse_append. apply run_append; [exact IH |].
  rewrite <- (append_nil_r (reverse w)). constructor; [| constructor].
  apply in_map. exact Hw.
Qed.

Lemma run_unreverse (codes : list string) (a : string) :
  run_of (map reverse codes) a -> run_of codes (reverse a).
Proof.
  intros R. apply run_reverse in R. rewrite map_map in R.
  rewrite (map_ext _ (fun x => x)) in R by apply reverse_involutive.
  rewrite map_id in R. exact R.
Qed.

Lemma trimStart_longest (t : string) :
  exists a, t = a ++ trimStart t /\ longest_blank_prefix a t.
Proof.
  destruct (strip_leading_longest whitespace (proj1 whitespace_is_code)
              (String.length t) t (le_n _)) as (a & E & R & Max).
  exists a. split; [exact E |]. split; [exact R |].
  split; [exists (trimStart t); exact E | exact Max].
Qed.

Lemma trimEnd_longest (t : string) :
  exists b, t = trimEnd t ++ b /\ longest_blank_suffix b t.
Proof.
  destruct (strip_leading_longest (map reverse whitespace)
              (proj2 whitespace_is_code)
              (String.length t) (reverse t))
    as (a & E & R & Max).
  { rewrite length_reverse. lia. }
  assert (Et : t = trimEnd t ++ reverse a).
  { unfold trimEnd. rewrite <- reverse_append, <- E.
    symmetry. apply reverse_involutive. }
  exists (reverse a). split; [exact Et |].
  split; [apply run_unreverse; exact R |].
  split; [exists (trimEnd t); exact Et |].
  intros b' y Rb' Eb'. rewrite length_reverse, <- (length_reverse b').
  apply (Max (reverse b') (reverse y)).
  - apply run_reverse. exact Rb'.
  - rewrite Eb'. apply reverse_append.
Qed.

Lemma trimmed_trim (t : string) : trimmed t (trim t).
Proof.
  destruct (trimStart_longest t) as (a & Ea & Ha).
  destruct (trimEnd_longest (trimStart t)) as (b & Eb & Hb).
  exists a, b. fold (trim t) in Eb. rewrite <- Eb.
  split; [exact Ea |]. split; [exact Ha | exact Hb].
Qed.

Lemma longest_blank_prefix_unique (a a' t : string) :
  longest_blank_prefix a t -> longest_blank_prefix a' t -> a = a'.
Proof.
  intros (R & (x & E) & Max) (R' & (x' & E') & Max').
  pose proof (Max a' x' R' E'). pose proof (Max' a x R E).
  rewrite E in E'. apply (append_same_length _ _ _ _ E'). lia.
Qed.

Lemma longest_blank_suffix_unique (b b' t : string) :
  longest_blank_suffix b t -> longest_blank_suffix b' t -> b = b'.
Proof.
  intros (R & (y & E) & Max) (R' & (y' & E') & Max').
  pose proof (Max b' y' R' E'). pose proof (Max' b y R E).
  rewrite E in E'. apply (append_same_length_r _ _ _ _ E'). lia.
Qed.

Lemma trimmed_unique (t u u' : string) :
  trimmed t u -> trimmed t u' -> u = u'.
Proof.
  intros (a & b & E & Ha & Hb) (a' & b' & E' & Ha' & Hb').
  pose proof (longest_blank_prefix_unique _ _ _ Ha Ha') as <-.
  rewrite E in E'.
  destruct (append_same_length _ _ _ _ E' eq_refl) as [_ Eub].
  rewrite <- Eub in Hb'.
  pose proof (longest_blank_suffix_unique _ _ _ Hb Hb') as <-.
  apply (append_same_length_r _ _ _ _ Eub eq_refl).
Qed.

(* ================================================================== *)
(** ** [extractJson] against the strategies of the specification *)
(* ================================================================== *)

Lemma chars_length (s : string) : List.length (chars s) = String.length s.
Proof.
  induction s as [| c r IH]; simpl; [reflexivity | rewrite IH; reflexivity].
Qed.

Lemma is_at_middle (pre post : list ascii) (ch c : ascii) :
  is_at (pre ++ ch :: post) c (List.length pre) = Ascii.eqb ch c.
Proof.
  unfold is_at. rewrite nth_error_app2 by lia.
  rewrite Nat.sub_diag. reflexivity.
Qed.

Lemma firstn_prefix (pre post : list ascii) :
  firstn (List.length pre) (pre ++ post) = pre.
Proof.
  rewrite firstn_app, Nat.sub_diag, firstn_all. simpl. apply app_nil_r.
Qed.

Lemma firstn_prefix_succ (pre post : list ascii) (ch : ascii) :
  firstn (S (List.length pre)) (pre ++ ch :: post) = (pre ++ [ch])%list.
Proof.
  replace (pre ++ ch :: post)%list with ((pre ++ [ch]) ++ post)%list
    by (rewrite <- app_assoc; reflexivity).
  replace (S (List.length pre)) with (List.length (pre ++ [ch])%list)
    by (rewrite length_app; simpl; lia).
  apply firstn_prefix.
Qed.

Lemma depth_of_snoc (pre : list ascii) (ch : ascii) :
  depth_of (pre ++ [ch])
  = depth_of pre
    + (if Ascii.eqb ch "{" then 1 else if Ascii.eqb ch "}" then -1 else 0).
Proof.
  unfold depth_of. rewrite !count_occ_app. cbn [count_occ].
  destruct (Ascii.eqb_spec ch "{") as [-> | N1].
  - simpl. lia.
  - destruct (Ascii.eqb_spec ch "}") as [-> | N2].
    + simpl. lia.
    + destruct (ascii_dec ch "{"); [contradiction |].
      destruct (ascii_dec ch "}"); [contradiction |]. simpl. lia.
Qed.

Lemma find_snoc {A : Type} (f : A -> bool) (l : list A) (x : A) :
  find f (l ++ [x])
  = match find f l with
    | Some y => Some y
    | None => if f x then Some x else None
    end.
Proof.
  induction l as [| a l IH]; simpl; [reflexivity |].
  destruct (f a); [reflexivity | exact IH].
Qed.

Lemma block_start_succ (l : list ascii) (n : nat) :
  block_start l (S n) = if opens l n then Some n else block_start l n.
Proof.
  unfold block_start. rewrite seq_S, rev_app_distr. reflexivity.
Qed.

Lemma position_absent (o : option nat) :
  (position o =? -1) = match o with Some _ => false | None => true end.
Proof.
  destruct o as [j |]; simpl; [| reflexivity]. apply Z.eqb_neq. lia.
Qed.

Lemma slice_positions (text : string) (j i : nat) :
  slice text (Z.of_nat j) (Z.of_nat (S i)) = substring j (S i - j) text.
Proof.
  unfold slice. rewrite Nat2Z.id. f_equal. lia.
Qed.

Section Refinement.
Context `{Builtins}.
Variable text : string.

(** The blocks that close at position [i]: one or none. *)
Let block_at (i : nat) : list string :=
  if closes (chars text) i then
    match block_start (chars text) i with
    | Some j => [substring j (S i - j) text]
    | None => []
    end
  else [].

(** The loop, entered at any position with the depth and the start that
    the prefix read so far determines, returns the first block closing
    from there on that parses. *)
Lemma scan_blocks : forall (rest : string) (pre : list ascii),
  chars text = (pre ++ chars rest)%list ->
  scan text rest (Z.of_nat (List.length pre)) (depth_of pre)
    (position (block_start (chars text) (List.length pre)))
  = first_success
      (map JSON_parse
         (flat_map block_at (seq (List.length pre) (String.length rest)))).
Proof.
  induction rest as [| ch rest IH]; intros pre Hl; [reflexivity |].
  cbn [chars list_ascii_of_string] in Hl. fold (chars rest) in Hl.
  assert (Hl' : chars text = ((pre ++ [ch]) ++ chars rest)%list)
    by (rewrite <- app_assoc; exact Hl).
  specialize (IH (pre ++ [ch])%list Hl').
  rewrite length_app in IH. cbn [List.length] in IH.
  rewrite Nat.add_1_r in IH.
  rewrite block_start_succ in IH.
  assert (Hopen : opens (chars text) (List.length pre)
                  = Ascii.eqb ch "{" && (depth_of pre =? 0)).
  { unfold opens. rewrite Hl at 1 2. rewrite is_at_middle, firstn_prefix.
    reflexivity. }
  assert (Hclose : closes (chars text) (List.length pre)
                   = Ascii.eqb ch "}" && (depth_of (pre ++ [ch]) =? 0)).
  { unfold closes. rewrite Hl at 1 2.
    rewrite is_at_middle, firstn_prefix_succ. reflexivity. }
  rewrite Hopen in IH.
  cbn [String.length seq flat_map scan].
  unfold block_at at 1. rewrite Hclose, map_app.
  replace (Z.of_nat (List.length pre) + 1)
    with (Z.of_nat (S (List.length pre))) by lia.
  pose proof (depth_of_snoc pre ch) as Hd.
  destruct (Ascii.eqb ch "{") eqn:E1.
  - assert (E2 : Ascii.eqb ch "}" = false).
    { apply Ascii.eqb_eq in E1. subst ch. reflexivity. }
    rewrite E2. rewrite Hd in IH. cbn [andb map app] in *. rewrite <- IH.
    destruct (depth_of pre =? 0); reflexivity.
  - cbn [andb] in IH. destruct (Ascii.eqb ch "}") eqn:E2.
    + replace (depth_of pre + -1) with (depth_of pre - 1) in Hd by lia.
      rewrite Hd in *. rewrite position_absent. cbn [andb].
      destruct (depth_of pre - 1 =? 0); cbn [andb app map]; [| exact IH].
      destruct (block_start (chars text) (List.length pre)) as [j |];
        cbn [negb app map first_success]; [| exact IH].
      cbn [position]. rewrite slice_positions.
      destruct (JSON_parse _); [reflexivity | exact IH].
    + replace (depth_of pre + 0) with (depth_of pre) in Hd by lia.
      rewrite Hd in IH. cbn [andb app map]. exact IH.
Qed.

Lemma scan_strategy3 : scan text text 0 0 (-1) = strategy3 text.
Proof.
  pose proof (scan_blocks text [] eq_refl) as E.
  cbn [List.length] in E. exact E.
Qed.

Lemma indexOf_from_find (c : ascii) : forall (rest : string) (pre : list ascii),
  chars text = (pre ++ chars rest)%list ->
  indexOf_from c rest (Z.of_nat (List.length pre))
  = position (find (is_at (chars text) c)
                (seq (List.length pre) (String.length rest))).
Proof.
  induction rest as [| ch rest IH]; intros pre Hl; [reflexivity |].
  cbn [chars list_ascii_of_string] in Hl. fold (chars rest) in Hl.
  cbn [indexOf_from String.length seq find].
  assert (Hat : is_at (chars text) c (List.length pre) = Ascii.eqb ch c)
    by (rewrite Hl; apply is_at_middle).
  rewrite Hat.
  destruct (Ascii.eqb ch c); [reflexivity |].
  specialize (IH (pre ++ [ch])%list).
  rewrite length_app in IH. cbn [List.length] in IH.
  rewrite Nat.add_1_r in IH.
  replace (Z.of_nat (List.length pre) + 1)
    with (Z.of_nat (S (List.length pre))) by lia.
  apply IH. rewrite <- app_assoc. exact Hl.
Qed.

Lemma lastIndexOf_from_find (c : ascii) :
  forall (rest : string) (pre : list ascii) (found : Z),
    chars text = (pre ++ chars rest)%list ->
    lastIndexOf_from c rest (Z.of_nat (List.length pre)) found
    = match find (is_at (chars text) c)
              (rev (seq (List.length pre) (String.length rest))) with
      | Some j => Z.of_nat j
      | None => found
      end.
Proof.
  induction rest as [| ch rest IH]; intros pre found Hl; [reflexivity |].
  cbn [chars list_ascii_of_string] in Hl. fold (chars rest) in Hl.
  cbn [lastIndexOf_from String.length seq rev].
  assert (Hat : is_at (chars text) c (List.length pre) = Ascii.eqb ch c)
    by (rewrite Hl; apply is_at_middle).
  rewrite find_snoc, Hat.
  specialize (IH (pre ++ [ch])%list
                 (if Ascii.eqb ch c then Z.of_nat (List.length pre) else found)).
  rewrite length_app in IH. cbn [List.length] in IH.
  rewrite Nat.add_1_r in IH.
  replace (Z.of_nat (List.length pre) + 1)
    with (Z.of_nat (S (List.length pre))) by lia.
  rewrite IH by (rewrite <- app_assoc; exact Hl).
  destruct (find _ _); [reflexivity |].
  destruct (Ascii.eqb ch c); reflexivity.
Qed.

Lemma slice_strategy2 :
  (if negb (indexOf "{" text =? -1) && negb (lastIndexOf "}" text =? -1)
      && (indexOf "{" text <? lastIndexOf "}" text)
   then JSON_parse (slice text (indexOf "{" text) (lastIndexOf "}" text + 1))
   else None)
  = strategy2 text.
Proof.
  unfold indexOf, lastIndexOf, strategy2, brace_slice.
  pose proof (indexOf_from_find "{" text [] eq_refl) as E1.
  pose proof (lastIndexOf_from_find "}" text [] (-1) eq_refl) as E2.
  cbn [List.length] in E1, E2. change (Z.of_nat 0) with 0 in E1, E2.
  rewrite E1, E2.
  destruct (find (is_at (chars text) "{") _) as [i |]; cbn [position];
    [| reflexivity].
  destruct (find (is_at (chars text) "}") _) as [j |].
  - replace (Z.of_nat i =? -1) with false by (symmetry; apply Z.eqb_neq; lia).
    replace (Z.of_nat j =? -1) with false by (symmetry; apply Z.eqb_neq; lia).
    cbn [negb andb].
    replace (Z.of_nat j + 1) with (Z.of_nat (S j)) by lia.
    rewrite slice_positions.
    destruct (Nat.ltb_spec i j) as [L | L].
    + replace (Z.of_nat i <? Z.of_nat j) with true
        by (symmetry; apply Z.ltb_lt; lia). reflexivity.
    + replace (Z.of_nat i <? Z.of_nat j) with false
        by (symmetry; apply Z.ltb_ge; lia). reflexivity.
  - rewrite andb_false_r. reflexivity.
Qed.

End Refinement.

Lemma extractJson_text `{Builtins} (t : string) :
  t <> "" -> extractJson (JStr t) = strategies (trim (strip_fences t)).
Proof.
  intros Ht. unfold extractJson, strategies.
  destruct (String.eqb_spec t ""); [contradiction |].
  cbn [first_success]. unfold strategy1.
  destruct (JSON_parse (trim (strip_fences t))); [reflexivity |].
  rewrite slice_strategy2.
  destruct (strategy2 (trim (strip_fences t))); [reflexivity |].
  rewrite scan_strategy3.
  destruct (strategy3 (trim (strip_fences t))); reflexivity.
Qed.

Lemma extractJson_nothing `{Builtins} (text : json) :
  (forall t, text = JStr t -> t = "") ->
  extractJson text = Throw (Error "Empty response").
Proof.
  intros Ht. destruct text as [| b | n | t | l | o]; try reflexivity.
  rewrite (Ht t eq_refl). reflexivity.
Qed.

Lemma cleaned_unique (t c : string) :
  cleaned t c <-> c = trim (strip_fences t).
Proof.
  split.
  - intros (u & Hu & Hc). rewrite (unfenced_unique _ _ Hu) in Hc.
    exact (trimmed_unique _ _ _ Hc (trimmed_trim _)).
  - intros ->. exists (strip_fences t).
    split; [apply unfenced_strip | apply trimmed_trim].
Qed.



(* ================================================================== *)
(** ** Further properties: pitch classes and scales *)
(* ================================================================== *)

(** X1.  [pc] sends every integer to its pitch class: a value of 0..11,
    also for negative integers, the same for pitches that differ by whole
    octaves, and left alone by a second application.  Outside the finite
    numbers it yields [NaN]. *)
Theorem pc_is_a_pitch_class (z k : Z) :
  (exists c, 0 <= c < 12
     /\ pc (of_Z z) = of_Z c
     /\ pc (of_Z (z + 12 * k)) = of_Z c
     /\ pc (pc (of_Z z)) = pc (of_Z z))
  /\ pc NaN = NaN /\ pc PosInf = NaN /\ pc NegInf = NaN.
Proof.
  split; [| repeat split; reflexivity].
  exists (z mod 12). split; [apply Z.mod_pos_bound; lia |].
  split; [apply pc_of_Z |]. split.
  - rewrite pc_of_Z. f_equal. rewrite Z.mul_comm. apply Z.mod_add. lia.
  - rewrite !pc_of_Z. f_equal. apply Z.mod_mod. lia.
Qed.

Lemma octave_mod (z k d : Z) :
  (z + 12 * k + d) mod 12 = (z + d) mod 12.
Proof.
  replace (z + 12 * k + d) with (z + d + k * 12) by lia.
  apply Z.mod_add. lia.
Qed.

Lemma search_octaves (s : Scale) (z k : Z) :
  safe z -> safe (z + 12 * k) ->
  forall (n : nat) (d : Z),
    0 <= d -> d + Z.of_nat n <= 7 ->
    exists off,
      search (of_Z z) s d n = of_Z (z + off)
      /\ search (of_Z (z + 12 * k)) s d n = of_Z (z + 12 * k + off).
Proof.
  intros Hz Hzk. induction n as [| n IH]; intros d Hd Hn.
  - exists 0. cbn [search]. rewrite !Z.add_0_r. split; reflexivity.
  - cbn [search].
    rewrite !sub_safe, !add_safe, !pc_of_Z by (assumption || lia).
    replace (z + 12 * k - d) with (z + 12 * k + - d) by lia.
    rewrite !octave_mod.
    replace (z + - d) with (z - d) by lia.
    destruct (Set_has (set s) (of_Z ((z - d) mod 12))).
    + exists (- d). split; f_equal; lia.
    + destruct (Set_has (set s) (of_Z ((z + d) mod 12))).
      * exists d. split; reflexivity.
      * apply IH; lia.
Qed.



(** Why the pitches are bounded: beyond the safe integers the neighbours of
    a pitch are rounded, and the snap no longer lands one semitone away.  In
    C major the B flat [2 ^ 53 + 2] has no double one below it, the pitch one
    above rounds to the C two above, and that C is answered; the G sharp
    [2 ^ 60 + 256] is its own neighbour and is answered as it is, out of
    scale. *)
Lemma snap_beyond_the_safe_integers :
  ~ safe (2 ^ 53 + 2)
  /\ sub (of_Z (2 ^ 53 + 2)) (of_Z 1) = of_Z (2 ^ 53)
  /\ add (of_Z (2 ^ 53 + 2)) (of_Z 1) = of_Z (2 ^ 53 + 4)
  /\ inScale (of_Z (2 ^ 53 + 2))
       (Some {| root := Own (of_Z 0); degrees := MODES_major;
                set := MODES_major |}) = false
  /\ nearestInScale (of_Z (2 ^ 53 + 2))
       (Some {| root := Own (of_Z 0); degrees := MODES_major;
                set := MODES_major |}) = of_Z (2 ^ 53 + 4)
  /\ inScale (of_Z (2 ^ 60 + 256))
       (Some {| root := Own (of_Z 0); degrees := MODES_major;
                set := MODES_major |}) = false
  /\ nearestInScale (of_Z (2 ^ 60 + 256))
       (Some {| root := Own (of_Z 0); degrees := MODES_major;
                set := MODES_major |}) = of_Z (2 ^ 60 + 256).
Proof.
  split; [unfold safe; simpl; lia |].
  repeat split; vm_compute; reflexivity.
Qed.

(** The pitch classes of the keys and the offsets of the modes, as
    integers. *)
Lemma PITCH_CLASS_values :
  map snd PITCH_CLASS
  = map of_Z [0; 1; 1; 2; 3; 3; 4; 5; 6; 6; 7; 8; 8; 9; 10; 10; 11].
Proof. reflexivity. Qed.

Lemma MODES_values :
  map snd MODES
  = map (map of_Z)
      [ [0; 2; 4; 5; 7; 9; 11]; [0; 2; 3; 5; 7; 8; 10];
        [0; 2; 3; 5; 7; 9; 10]; [0; 2; 4; 5; 7; 9; 10] ].
Proof. reflexivity. Qed.

Lemma of_Z_injective (a b : Z) : of_Z a = of_Z b -> a = b.
Proof. intros [= E]. exact E. Qed.

Lemma Set_has_of_Z (cs : list Z) (c : Z) :
  Set_has (map of_Z cs) (of_Z c) = true <-> In c cs.
Proof.
  unfold Set_has. rewrite existsb_exists. split.
  - intros (x & Hx & E). apply in_map_iff in Hx. destruct Hx as (b & <- & Hb).
    simpl in E. rewrite Qeq_bool_inject_Z in E.
    apply Z.eqb_eq in E. subst. exact Hb.
  - intros Hc. exists (of_Z c). split; [apply in_map; exact Hc |].
    simpl. rewrite Qeq_bool_inject_Z. apply Z.eqb_refl.
Qed.

Lemma distinct_NoDup (l : list Z) : distinct l = true -> NoDup l.
Proof.
  induction l as [| x r IH]; simpl; [constructor |].
  intros E. apply andb_true_iff in E. destruct E as [Hx Hr].
  constructor; [| apply IH; exact Hr].
  intros Hin. apply negb_true_iff in Hx.
  assert (existsb (Z.eqb x) r = true)
    by (apply existsb_exists; exists x; split; [exact Hin | apply Z.eqb_refl]).
  congruence.
Qed.

(** On every key of the table and every mode of the table, the set holds
    the seven classes [(root + d) mod 12], all different, and every
    pitch class out of the set has its lower neighbour in the set. *)
Lemma scale_table (rz : Z) (dzs : list Z) :
  In rz [0; 1; 1; 2; 3; 3; 4; 5; 6; 6; 7; 8; 8; 9; 10; 10; 11] ->
  In dzs [ [0; 2; 4; 5; 7; 9; 11]; [0; 2; 3; 5; 7; 8; 10];
           [0; 2; 3; 5; 7; 9; 10]; [0; 2; 4; 5; 7; 9; 10] ] ->
  new_Set (map (degree_class (Own (of_Z rz))) (map of_Z dzs))
  = map of_Z (classes rz dzs)
  /\ List.length (classes rz dzs) = 7%nat
  /\ distinct (classes rz dzs) = true
  /\ 0 <= rz < 12
  /\ forallb (fun c => existsb (Z.eqb c) (classes rz dzs)
                       || existsb (Z.eqb ((c - 1) mod 12)) (classes rz dzs))
       [0; 1; 2; 3; 4; 5; 6; 7; 8; 9; 10; 11] = true.
Proof.
  intros Hr Hd.
  repeat (destruct Hr as [<- | Hr]; [| try contradiction]);
    repeat (destruct Hd as [<- | Hd]; [| try contradiction]);
    (split; [vm_compute; reflexivity |]);
    (split; [reflexivity |]); (split; [reflexivity |]);
    (split; [lia |]); reflexivity.
Qed.

Section Built.
Context `{Builtins}.

(** The shape of a scale built on an own entry of the key table. *)
Lemma buildScale_own_shape (key mode : json) (s : Scale) (r : number) :
  buildScale key mode = Ok (Some s) ->
  root s = Own r ->
  exists rz dzs,
    r = of_Z rz
    /\ In rz [0; 1; 1; 2; 3; 3; 4; 5; 6; 6; 7; 8; 8; 9; 10; 10; 11]
    /\ degrees s = map of_Z dzs
    /\ In dzs [ [0; 2; 4; 5; 7; 9; 11]; [0; 2; 3; 5; 7; 8; 10];
                [0; 2; 3; 5; 7; 9; 10]; [0; 2; 4; 5; 7; 9; 10] ]
    /\ set s = map of_Z (classes rz dzs).
Proof.
  unfold buildScale.
  destruct (ToString key) as [k | e]; cbn [bind]; [| discriminate].
  destruct (match (if truthy mode then mode else JStr "") with
            | JStr m => Ok (toLowerCase m)
            | _ => Throw TypeError
            end) as [m | e]; cbn [bind]; [| discriminate].
  destruct (table_get PITCH_CLASS k) as [rt |] eqn:Ek; [| discriminate].
  assert (Hds : forall ds,
            match table_get MODES m with
            | Some d => d
            | None => Own MODES_major
            end = Own ds -> In ds (map snd MODES)).
  { intros ds. destruct (table_get MODES m) as [d |] eqn:Em.
    - intros ->. apply (own_In MODES m). apply table_get_own. exact Em.
    - intros [= <-]. left. reflexivity. }
  destruct (match table_get MODES m with
            | Some d => d
            | None => Own MODES_major
            end) as [ds |]; [| discriminate].
  specialize (Hds ds eq_refl).
  intros [= <-]. cbn [root degrees set]. intros ->.
  apply table_get_own, own_In in Ek.
  rewrite PITCH_CLASS_values in Ek. apply in_map_iff in Ek.
  destruct Ek as (rz & <- & Hrz).
  rewrite MODES_values in Hds. apply in_map_iff in Hds.
  destruct Hds as (dzs & <- & Hdzs).
  exists rz, dzs. repeat split; auto.
  apply (scale_table rz dzs Hrz Hdzs).
Qed.

End Built.

(** X3.  A scale built on a key of the table has exactly seven members,
    all different: the classes [(root + d) mod 12] for the seven offsets
    [d] of its mode; and an integer pitch conforms exactly when its pitch
    class is one of them. *)
Theorem buildScale_seven_classes `{Builtins} (key mode : json) (s : Scale)
    (r : number) :
  buildScale key mode = Ok (Some s) ->
  root s = Own r ->
  exists rz cs,
    r = of_Z rz /\ 0 <= rz < 12
    /\ set s = map of_Z cs
    /\ List.length cs = 7%nat
    /\ NoDup cs
    /\ (forall c, In c cs <->
                  exists dz, In (of_Z dz) (degrees s) /\ c = (rz + dz) mod 12)
    /\ (forall z, inScale (of_Z z) (Some s) = true <-> In (z mod 12) cs).
Proof.
  intros Hb Hr.
  destruct (buildScale_own_shape key mode s r Hb Hr)
    as (rz & dzs & -> & Hrz & Hdeg & Hdzs & Hset).
  destruct (scale_table rz dzs Hrz Hdzs) as (_ & Hlen & Hdist & Hbound & _).
  exists rz, (classes rz dzs). repeat split; auto; try lia.
  - apply distinct_NoDup. exact Hdist.
  - unfold classes. rewrite in_map_iff. intros (dz & <- & Hdz).
    exists dz. split; [| reflexivity]. rewrite Hdeg. apply in_map. exact Hdz.
  - intros (dz & Hdz & ->). rewrite Hdeg in Hdz. apply in_map_iff in Hdz.
    destruct Hdz as (dz' & E & Hdz'). apply of_Z_injective in E. subst dz'.
    unfold classes. apply in_map_iff. exists dz. split; [reflexivity | exact Hdz'].
  - unfold inScale. rewrite pc_of_Z, Hset. apply Set_has_of_Z.
  - unfold inScale. rewrite pc_of_Z, Hset. apply Set_has_of_Z.
Qed.

(** The scale of A minor. *)
Lemma buildScale_seven_classes_witness :
  exists s cs,
    buildScale (JStr "A") (JStr "minor") = Ok (Some s)
    /\ set s = map of_Z cs
    /\ NoDup cs
    /\ inScale (of_Z 60) (Some s) = true.
Proof.
  eexists.
  destruct (buildScale_seven_classes (JStr "A") (JStr "minor") _ (of_Z 9)
              eq_refl eq_refl)
    as (rz & cs & _ & _ & Hset & _ & Hnd & _).
  exists cs. split; [reflexivity |]. split; [exact Hset |].
  split; [exact Hnd | reflexivity].
Defined.

(** X4.  On a scale built on a key of the table, a pitch that does not
    conform is snapped exactly one semitone down; so the snap never raises
    a pitch, and it takes a pitch of 0..127 out of that range only from 0
    to -1.  The pitch is an integer whose neighbours are exact, up to
    [2 ^ 53 - 6] in magnitude. *)
Theorem snap_is_one_semitone_down `{Builtins} (key mode : json) (s : Scale)
    (r : number) (z : Z) :
  buildScale key mode = Ok (Some s) ->
  root s = Own r ->
  safe z ->
  inScale (of_Z z) (Some s) = false ->
  nearestInScale (of_Z z) (Some s) = of_Z (z - 1)
  /\ inScale (of_Z (z - 1)) (Some s) = true.
Proof.
  intros Hb Hr Hsafe Hout.
  destruct (buildScale_own_shape key mode s r Hb Hr)
    as (rz & dzs & -> & Hrz & _ & Hdzs & Hset).
  destruct (scale_table rz dzs Hrz Hdzs) as (_ & _ & _ & _ & Hdown).
  assert (Hin : forall y, inScale (of_Z y) (Some s) = true
                          <-> In (y mod 12) (classes rz dzs)).
  { intros y. unfold inScale. rewrite pc_of_Z, Hset. apply Set_has_of_Z. }
  assert (Hone : inScale (of_Z (z - 1)) (Some s) = true).
  { apply Hin. rewrite forallb_forall in Hdown.
    assert (Hc : In (z mod 12) [0; 1; 2; 3; 4; 5; 6; 7; 8; 9; 10; 11]).
    { pose proof (Z.mod_pos_bound z 12 ltac:(lia)). simpl. lia. }
    specialize (Hdown _ Hc). apply orb_true_iff in Hdown.
    destruct Hdown as [E | E]; apply existsb_exists in E;
      destruct E as (x & Hx & Ex); apply Z.eqb_eq in Ex; subst x.
    - apply Hin in Hx. congruence.
    - replace ((z - 1) mod 12) with ((z mod 12 - 1) mod 12); [exact Hx |].
      rewrite Zminus_mod_idemp_l. reflexivity. }
  split; [| exact Hone].
  unfold nearestInScale. rewrite Hout. cbn [search].
  rewrite sub_safe by (assumption || lia).
  unfold inScale in Hone. rewrite Hone. reflexivity.
Qed.

(** The lowest pitch in D major. *)
Lemma snap_is_one_semitone_down_witness :
  exists s,
    buildScale (JStr "D") (JStr "major") = Ok (Some s)
    /\ inScale (of_Z 0) (Some s) = false
    /\ nearestInScale (of_Z 0) (Some s) = of_Z (-1).
Proof.
  eexists. split; [reflexivity |]. split; [vm_compute; reflexivity |].
  exact (proj1 (snap_is_one_semitone_down (JStr "D") (JStr "major") _
                  (of_Z 2) 0 eq_refl eq_refl
                  (safe_small 0 ltac:(simpl; lia)) ltac:(vm_compute; reflexivity))).
Defined.

(** X5.  The mode is looked up without regard to case: a mode and its
    lower-case spelling build the same scale, or fail alike, on every
    key. *)
Theorem buildScale_ignores_case `{Builtins} (key : json) (m : string) :
  buildScale key (JStr m) = buildScale key (JStr (toLowerCase m)).
Proof.
  unfold buildScale. rewrite !mode_or_empty, toLowerCase_idempotent.
  reflexivity.
Qed.

(** X6.  For a key and a mode given as strings, [buildScale] returns
    [null] exactly when the key is neither in the key table nor a member
    of [Object.prototype], whatever the mode; and it throws exactly when
    the key is known and the mode, in lower case, is [constructor] or
    [__proto__], the two lower-case members of [Object.prototype].  Any
    other mode builds a scale. *)
Theorem buildScale_outcomes `{Builtins} (k m : string) :
  (buildScale (JStr k) (JStr m) = Ok None <->
   own PITCH_CLASS k = None /\ ~ In k Object_prototype)
  /\ (buildScale (JStr k) (JStr m) = Throw TypeError <->
      (own PITCH_CLASS k <> None \/ In k Object_prototype)
      /\ (toLowerCase m = "constructor" \/ toLowerCase m = "__proto__"))
  /\ ((own PITCH_CLASS k <> None \/ In k Object_prototype) ->
      toLowerCase m <> "constructor" -> toLowerCase m <> "__proto__" ->
      exists s, buildScale (JStr k) (JStr m) = Ok (Some s)).
Proof.
  rewrite buildScale_strings.
  assert (Hkey : table_get PITCH_CLASS k = None <->
                 own PITCH_CLASS k = None /\ ~ In k Object_prototype).
  { unfold table_get. destruct (own PITCH_CLASS k) as [r |].
    - split; [discriminate | intros [E _]; discriminate E].
    - destruct (existsb (String.eqb k) Object_prototype) eqn:E.
      + split; [discriminate |]. intros [_ Hn]. exfalso. apply Hn.
        apply existsb_exists in E. destruct E as (x & Hx & Ex).
        apply String.eqb_eq in Ex. subst x. exact Hx.
      + split; [| reflexivity]. intros _. split; [reflexivity |].
        intros Hin.
        assert (existsb (String.eqb k) Object_prototype = true)
          by (apply existsb_exists; exists k; split;
              [exact Hin | apply String.eqb_refl]).
        congruence. }
  assert (Hknown : table_get PITCH_CLASS k <> None <->
                   own PITCH_CLASS k <> None \/ In k Object_prototype).
  { rewrite Hkey. destruct (own PITCH_CLASS k) as [r |].
    - split; [intros _; left; discriminate | intros _ [E _]; discriminate E].
    - split.
      + intros Hn. right.
        destruct (in_dec string_dec k Object_prototype) as [Hin | Hnin];
          [exact Hin |]. exfalso. apply Hn. split; [reflexivity | exact Hnin].
      + intros [Hc | Hin] [_ Hn]; [apply Hc; reflexivity | exact (Hn Hin)]. }
  assert (Hmode : table_get MODES (toLowerCase m) = Some Inherited <->
                  toLowerCase m = "constructor" \/ toLowerCase m = "__proto__").
  { rewrite table_get_inherited. split.
    - intros [_ Hin]. apply inherited_lower_names. exact Hin.
    - intros [-> | ->]; split; try reflexivity; simpl; tauto. }
  destruct (table_get PITCH_CLASS k) as [rt |] eqn:Ek.
  - assert (Kn : own PITCH_CLASS k <> None \/ In k Object_prototype)
      by (apply Hknown; discriminate).
    destruct (table_get MODES (toLowerCase m)) as [[ds |] |] eqn:Em.
    + split; [| split].
      * split; [discriminate |]. intros Hn. apply Hkey in Hn. discriminate Hn.
      * split; [discriminate |]. intros [_ Hm]. apply Hmode in Hm.
        discriminate Hm.
      * intros _ _ _. eexists. reflexivity.
    + split; [| split].
      * split; [discriminate |]. intros Hn. apply Hkey in Hn. discriminate Hn.
      * split; [| reflexivity]. intros _. split; [exact Kn |].
        apply Hmode. reflexivity.
      * intros _ N1 N2. exfalso.
        destruct (proj1 Hmode eq_refl); contradiction.
    + split; [| split].
      * split; [discriminate |]. intros Hn. apply Hkey in Hn. discriminate Hn.
      * split; [discriminate |]. intros [_ Hm]. apply Hmode in Hm.
        discriminate Hm.
      * intros _ _ _. eexists. reflexivity.
  - assert (Hk : own PITCH_CLASS k = None /\ ~ In k Object_prototype)
      by (apply Hkey; reflexivity).
    split; [| split].
    + split; [intros _; exact Hk | reflexivity].
    + split; [discriminate |]. intros [Kn _]. exfalso.
      apply Hknown in Kn. apply Kn. reflexivity.
    + intros Kn. exfalso. apply Hknown in Kn. apply Kn. reflexivity.
Qed.

(** An unknown key gives [null] even with an unknown mode; a known key
    with an unknown mode gives a scale. *)
Lemma buildScale_outcomes_witness :
  buildScale (JStr "H") (JStr "lydian") = Ok None
  /\ exists s, buildScale (JStr "Bb") (JStr "Lydian") = Ok (Some s).
Proof.
  destruct (buildScale_outcomes "Bb" "Lydian") as (_ & _ & Hscale).
  split; [reflexivity |].
  apply Hscale; [left | |]; discriminate.
Defined.

Lemma pc_finite (q : Q) : exists x, pc (Fin q) = Fin x.
Proof.
  unfold pc. destruct (rem12_bound q) as (r & -> & Hr).
  destruct (double_finite (r + inject_Z 12)) as (y & Hy).
  - apply (Qle_lt_trans _ (Qabs r + Qabs (inject_Z 12)));
      [apply Qabs_triangle |].
    apply (Qlt_trans _ (inject_Z 12 + Qabs (inject_Z 12))).
    + apply Qplus_lt_l. exact Hr.
    + vm_compute. reflexivity.
  - cbn [add of_Z]. rewrite Hy. eexists. reflexivity.
Qed.

Lemma search_nothing (s : Scale) (q : Q) :
  (forall x, Set_has (set s) (Fin x) = false) ->
  (Qabs q <= MAX_VALUE)%Q ->
  forall (n : nat) (d : Z),
    0 <= d -> d + Z.of_nat n <= 7 -> search (Fin q) s d n = Fin q.
Proof.
  intros Hnone Hq. induction n as [| n IH]; intros d Hd Hn; cbn [search];
    [reflexivity |].
  destruct (sub_near_max q d Hq ltac:(lia)) as (a & ->).
  destruct (add_near_max q d Hq ltac:(lia)) as (b & ->).
  destruct (pc_finite a) as (x & ->).
  destruct (pc_finite b) as (y & ->).
  rewrite !Hnone. apply IH; lia.
Qed.

(** X7.  A key that names a member of [Object.prototype] (such as
    [constructor] or [toString]) is not rejected as unknown: with any
    mode that builds, the scale has an inherited root and the single
    member [NaN], so no finite pitch conforms to it and the nearest
    pitch of every finite pitch, up to the largest double, is that pitch
    itself. *)
Theorem buildScale_inherited_key `{Builtins} (k m : string) :
  In k Object_prototype ->
  toLowerCase m <> "constructor" ->
  toLowerCase m <> "__proto__" ->
  exists s,
    buildScale (JStr k) (JStr m) = Ok (Some s)
    /\ root s = Inherited
    /\ set s = [NaN]
    /\ forall q : Q,
         inScale (Fin q) (Some s) = false
         /\ ((Qabs q <= MAX_VALUE)%Q ->
             nearestInScale (Fin q) (Some s) = Fin q).
Proof.
  intros Hk N1 N2. rewrite buildScale_strings.
  assert (Ek : table_get PITCH_CLASS k = Some Inherited).
  { apply table_get_inherited. split; [| exact Hk].
    unfold Object_prototype in Hk. simpl in Hk.
    repeat (destruct Hk as [<- | Hk]; [reflexivity |]). contradiction. }
  rewrite Ek.
  assert (Hds : exists ds,
            match table_get MODES (toLowerCase m) with
            | Some d => d
            | None => Own MODES_major
            end = Own ds /\ In ds (map snd MODES)).
  { destruct (table_get MODES (toLowerCase m)) as [[ds |] |] eqn:Em.
    - exists ds. split; [reflexivity |].
      apply (own_In MODES (toLowerCase m)), table_get_own. exact Em.
    - exfalso. apply table_get_inherited in Em. destruct Em as [_ Hin].
      destruct (inherited_lower_names m Hin); contradiction.
    - exists MODES_major. split; [reflexivity | left; reflexivity]. }
  destruct Hds as (ds & -> & Hin).
  eexists. split; [reflexivity |]. cbn [root set].
  assert (Eset : new_Set (map (degree_class Inherited) ds) = [NaN]).
  { simpl in Hin.
    repeat (destruct Hin as [<- | Hin]; [reflexivity |]). contradiction. }
  rewrite Eset. split; [reflexivity |]. split; [reflexivity |].
  intros q.
  assert (Hout : inScale (Fin q)
                   (Some {| root := Inherited; degrees := ds; set := [NaN] |})
                 = false).
  { unfold inScale. cbn [set]. destruct (pc_finite q) as (x & ->). reflexivity. }
  split; [exact Hout |]. intros Hq.
  unfold nearestInScale. rewrite Hout.
  apply search_nothing; [intros x; reflexivity | exact Hq | lia | simpl; lia].
Qed.

(** The key [constructor]. *)
Lemma buildScale_inherited_key_witness :
  exists s,
    buildScale (JStr "constructor") (JStr "minor") = Ok (Some s)
    /\ inScale (of_Z 60) (Some s) = false
    /\ nearestInScale (of_Z 60) (Some s) = of_Z 60.
Proof.
  destruct (buildScale_inherited_key "constructor" "minor")
    as (s & Hs & _ & _ & Hq).
  - left. reflexivity.
  - discriminate.
  - discriminate.
  - exists s. split; [exact Hs |].
    destruct (Hq (inject_Z 60)) as [Hout Hnear].
    split; [exact Hout |]. apply Hnear. vm_compute. discriminate.
Defined.

(* ================================================================== *)
(** ** Further properties: the snap policy *)
(* ================================================================== *)

(** On a non-empty set of pitch classes the nearest pitch of an integer
    pitch is an integer pitch of the scale. *)
Lemma nearest_conforms (s : Scale) (z : Z) :
  pitch_class_set s ->
  safe z ->
  exists k, nearestInScale (of_Z z) (Some s) = of_Z k
            /\ inScale (of_Z k) (Some s) = true.
Proof.
  intros Hwf Hsafe. destruct (inScale (of_Z z) (Some s)) eqn:Hz.
  - exists z. rewrite (nearest_of_member s _ Hz). split; [reflexivity | exact Hz].
  - destruct (nearest_outcome z s Hwf Hsafe Hz)
      as (d & _ & _ & [[Hm ->] | (_ & Hm & ->)]).
    + exists (z - d). auto.
    + exists (z + d). auto.
Qed.

Lemma snapNotes_origin (sc : option Scale) (notes : list json) :
  forall (c : nat) (n : json),
    In n (fst (snapNotes sc notes c)) ->
    exists n0, In n0 notes
      /\ ((inScale (pitch_of n0) sc = true /\ n = n0)
          \/ (inScale (pitch_of n0) sc = false
              /\ n = with_p n0 (nearestInScale (pitch_of n0) sc))).
Proof.
  induction notes as [| m rest IH]; intros c n.
  - intros [].
  - rewrite snapNotes_cons. cbn [fst]. intros [E | Hin].
    + exists m. split; [left; reflexivity |].
      unfold snapNote in E. fold (pitch_of m) in E.
      destruct (inScale (pitch_of m) sc) eqn:Hm; cbn [fst] in E.
      * left. split; [reflexivity | symmetry; exact E].
      * right. split; [reflexivity | symmetry; exact E].
    + destruct (IH _ _ Hin) as (n0 & Hn0 & Hcase).
      exists n0. split; [right; exact Hn0 | exact Hcase].
Qed.

(** X8.  Under the snap policy, on a non-empty set of pitch classes, a
    clip whose pitches are integers is answered with integer pitches that
    all conform to the scale.  The integers are those whose neighbours
    are exact, up to [2 ^ 53 - 6] in magnitude, as are the pitches 0..127
    that the filter lets through. *)
Theorem snap_answers_conforming_notes `{Builtins} (cfg : Config) (s : Scale)
    (data : object) (doc st : json) :
  SNAP_TO_SCALE cfg = true ->
  pitch_class_set s ->
  Forall (fun n => exists z, safe z /\ prop n "p" = Some (JNum (of_Z z)))
    (notes_of data) ->
  enforceScale cfg (Some s) data = (Json doc, st) ->
  Forall (fun n => exists z, prop n "p" = Some (JNum (of_Z z))
                             /\ inScale (of_Z z) (Some s) = true)
    (clip_notes doc).
Proof.
  intros Hsnap Hwf Hint. unfold enforceScale. rewrite Hsnap.
  destruct (snapNotes (Some s) (notes_of data) 0) as [notes' c] eqn:E.
  destruct (finish_response (assign "notes" (JArr notes') data) c)
    as (d & Ed & Hnotes & _).
  rewrite Ed. intros [= <- _].
  change (clip_notes (JObj d)) with (notes_of d).
  rewrite Hnotes, notes_of_assign.
  apply Forall_forall. intros n Hin.
  replace notes' with (fst (snapNotes (Some s) (notes_of data) 0)) in Hin
    by (rewrite E; reflexivity).
  destruct (snapNotes_origin _ _ _ _ Hin) as (n0 & Hn0 & Hcase).
  rewrite Forall_forall in Hint. destruct (Hint n0 Hn0) as (z & Hz & Ez).
  unfold pitch_of in Hcase. rewrite Ez in Hcase. cbn [num] in Hcase.
  destruct Hcase as [[Hm ->] | [_ ->]].
  - exists z. split; [exact Ez | exact Hm].
  - destruct (nearest_conforms s z Hwf Hz) as (k & Ek & Hk).
    exists k. rewrite prop_with_p, Ek. split; [reflexivity | exact Hk].
Qed.

(** The C sharp of the C major clip is answered as a C. *)
Lemma snap_answers_conforming_notes_witness :
  exists doc st,
    enforceScale Samples.snap
      (Some {| root := Own (of_Z 0); degrees := MODES_major;
               set := MODES_major |})
      (Samples.fields Samples.c_major_clip) = (Json doc, st)
    /\ Forall (fun n => exists z, prop n "p" = Some (JNum (of_Z z))
                 /\ inScale (of_Z z)
                      (Some {| root := Own (of_Z 0); degrees := MODES_major;
                               set := MODES_major |}) = true)
         (clip_notes doc).
Proof.
  eexists. eexists. split; [vm_compute; reflexivity |].
  eapply (snap_answers_conforming_notes Samples.snap
            {| root := Own (of_Z 0); degrees := MODES_major;
               set := MODES_major |}
            (Samples.fields Samples.c_major_clip)).
  - reflexivity.
  - split; [discriminate |].
    apply (proj2 (pitch_class_set_check MODES_major eq_refl)).
  - repeat constructor. exists 61.
    split; [apply safe_small; simpl; lia | reflexivity].
  - vm_compute. reflexivity.
Defined.

Lemma assign_idempotent (k : string) (v : json) (o : object) :
  assign k v (assign k v o) = assign k v o.
Proof.
  induction o as [| [k' v'] o IH]; simpl.
  - rewrite String.eqb_refl. reflexivity.
  - destruct (String.eqb k k') eqn:E; simpl.
    + rewrite String.eqb_refl. reflexivity.
    + rewrite E, IH. reflexivity.
Qed.

Lemma with_p_idempotent (n : json) (p : number) :
  with_p (with_p n p) p = with_p n p.
Proof.
  destruct n; try reflexivity. simpl. rewrite assign_idempotent. reflexivity.
Qed.

Lemma snapNote_stable (sc : option Scale) (n : json) (c c' : nat) :
  Number_isFinite (prop n "p") = true ->
  snapNote sc (fst (snapNote sc n c)) c' = (fst (snapNote sc n c), c').
Proof.
  intros Hfin. destruct (finite_prop _ Hfin) as (x & Ex).
  unfold snapNote at 2 3. rewrite Ex. cbn [num].
  destruct (inScale (Fin x) sc) eqn:Hin; cbn [fst].
  - unfold snapNote. rewrite Ex. cbn [num].
    rewrite Hin. reflexivity.
  - unfold snapNote. rewrite prop_with_p. cbn [num].
    destruct (inScale (nearestInScale (Fin x) sc) sc) eqn:Hin2;
      [reflexivity |].
    assert (Efix : nearestInScale (Fin x) sc = Fin x).
    { destruct sc as [s |]; [| reflexivity].
      destruct (nearest_fixed_or_member s (Fin x)) as [E | E];
        [exact E | congruence]. }
    rewrite Efix, Efix, with_p_idempotent.
    rewrite strict_eq_refl by reflexivity. reflexivity.
Qed.

(** X9.  Snapping is stable: a second pass over notes that were already
    snapped, on the same scale, returns them as they are and counts no
    change. *)
Theorem snapNotes_stable (sc : option Scale) (notes : list json) (c c' : nat) :
  Forall (fun n => Number_isFinite (prop n "p") = true) notes ->
  snapNotes sc (fst (snapNotes sc notes c)) c'
  = (fst (snapNotes sc notes c), c').
Proof.
  intros Hfin. revert c c'.
  induction Hfin as [| n rest Hn _ IH]; intros c c'; [reflexivity |].
  rewrite (snapNotes_cons sc n rest c). cbn [fst].
  rewrite snapNotes_cons.
  rewrite (snapNote_stable sc n c c' Hn).
  cbn [fst snd]. rewrite IH. reflexivity.
Qed.

(** The D major clip, snapped twice. *)
Lemma snapNotes_stable_witness :
  snapNotes
    (Some {| root := Own (of_Z 2); degrees := MODES_major;
             set := map of_Z [2; 4; 6; 7; 9; 11; 1] |})
    [Samples.note 0 1 (121 # 2); Samples.note 1 1 (-1)] 0
  = ([Samples.note 0 1 (121 # 2); Samples.note 1 1 (-1)], 0%nat).
Proof.
  exact (snapNotes_stable
           (Some {| root := Own (of_Z 2); degrees := MODES_major;
                    set := map of_Z [2; 4; 6; 7; 9; 11; 1] |})
           [Samples.note 0 1 (121 # 2); Samples.note 1 1 0] 0 0
           ltac:(repeat constructor)).
Defined.

(* ================================================================== *)
(** ** Further properties: the answers of the route *)
(* ================================================================== *)

Lemma schema_missing_non_object (data : json) :
  (forall o, data <> JObj o) -> schema_missing data = true.
Proof.
  intros Hn. unfold schema_missing.
  destruct data as [| b | n | s | l | o];
    try (cbn [prop isArray negb]; rewrite orb_true_r; reflexivity).
  exfalso. exact (Hn o eq_refl).
Qed.

Section Answers.
Context `{Builtins}.

(** The four kinds of answer of [validate]. *)
Lemma validate_answers (cfg : Config) (req : Request) (barsNum : number)
    (data : json) (r : response) (st : json) :
  validate cfg req barsNum data = (r, st) ->
  (r = Send 400 SCHEMA_MISSING_FIELDS /\ schema_missing data = true)
  \/ (exists e, r = Send 400 (Thrown e) /\ schema_missing data = false)
  \/ (exists n k m, r = Send 400 (OUT_OF_SCALE (S n) k m)
                    /\ SNAP_TO_SCALE cfg = false /\ STRICT_SCALE cfg = true
                    /\ schema_missing data = false)
  \/ (exists doc, r = Json doc /\ schema_missing data = false).
Proof.
  unfold validate. destruct (schema_missing data) eqn:Hs.
  { intros [= <- _]. left. auto. }
  destruct data as [| b | n | s | l | o];
    try (rewrite schema_missing_non_object in Hs by discriminate;
         discriminate Hs).
  destruct (totalBeats o barsNum) as [total | e]; cbn [bind];
    [| intros [= <- _]; right; left; eauto].
  destruct (applyDefaults req barsNum o) as [o1 | e]; cbn [bind];
    [| intros [= <- _]; right; left; eauto].
  destruct (filterNotes total (notes_of o1)) as [kept | e];
    [| intros [= <- _]; right; left; eauto].
  destruct (scaleOf _) as [sc | e]; [| intros [= <- _]; right; left; eauto].
  unfold enforceScale, finish.
  destruct sc as [s |]; [| intros [= <- _]; right; right; right; eauto].
  destruct (SNAP_TO_SCALE cfg).
  - destruct (snapNotes _ _ _) as [notes' c].
    intros [= <- _]. right. right. right. eauto.
  - destruct (STRICT_SCALE cfg);
      [| intros [= <- _]; right; right; right; eauto].
    destruct (List.length _) as [| n] eqn:El;
      [intros [= <- _]; right; right; right; eauto |].
    destruct (_ <- ToString_opt _ ;; _)%js as [b | e] eqn:Eb.
    + intros [= <- _]. right. right. left.
      destruct (ToString_opt (lookup "key" _)) as [k |]; cbn [bind] in Eb;
        [| discriminate Eb].
      destruct (ToString_opt (lookup "mode" _)) as [m |]; cbn [bind] in Eb;
        [| discriminate Eb].
      injection Eb as <-. exists n, k, m. auto.
    + intros [= <- _]. right. left. eauto.
Qed.

Variable anthropic : call -> reply.

(** The four kinds of answer of the route. *)
Lemma compose_answers (cfg : Config) (req : Request) (r : response) :
  compose anthropic cfg req = r ->
  (exists e, r = Send 400 (Thrown e))
  \/ (exists c st d, system c = SYSTEM_PROMPT /\ anthropic c = Rejected st d
                     /\ r = Send st (Detail d))
  \/ (exists c1 content e1 c2,
        system c1 = SYSTEM_PROMPT /\ anthropic c1 = Message content
        /\ extractJson (JStr (text_of content)) = Throw e1
        /\ system c2 = REPAIR_PROMPT /\ temperature c2 = 0%Q
        /\ ((exists st d, anthropic c2 = Rejected st d
                          /\ r = Send 400 (AI_JSON_ERROR (Error d)))
            \/ (exists content2 e2,
                  anthropic c2 = Message content2
                  /\ extractJson (JStr (text_of content2)) = Throw e2
                  /\ r = Send 400 (AI_JSON_ERROR e2))))
  \/ (exists barsNum data,
        Num.truthy barsNum = true
        /\ r = fst (validate cfg req barsNum data)).
Proof.
  unfold compose.
  destruct (ToNumber (bars req)) as [n | e]; cbn [bind];
    [| intros <-; left; eauto].
  destruct (userPrompt req (if Num.truthy n then n else of_Z 8))
    as [prompt | e]; cbn [bind]; [| intros <-; left; eauto].
  assert (Hb : Num.truthy (if Num.truthy n then n else of_Z 8) = true)
    by (destruct (Num.truthy n) eqn:E; [exact E | reflexivity]).
  set (barsNum := if Num.truthy n then n else of_Z 8) in *.
  set (c1 := {| system := SYSTEM_PROMPT; temperature := 2 # 10;
                max_tokens := 3000; user := prompt |}).
  destruct (anthropic c1) as [content | status detail] eqn:E1;
    [| intros <-; right; left; exists c1, status, detail; auto].
  destruct (extractJson (JStr (text_of content))) as [data | e1] eqn:X1.
  { intros <-. right. right. right. exists barsNum, data. auto. }
  set (c2 := {| system := REPAIR_PROMPT; temperature := 0;
                max_tokens := 1200; user := _ |}).
  destruct (anthropic c2) as [content2 | status detail] eqn:E2.
  - destruct (extractJson (JStr (text_of content2))) as [data | e2] eqn:X2.
    + intros <-. right. right. right. exists barsNum, data. auto.
    + intros <-. right. right. left. exists c1, content, e1, c2.
      repeat split; auto. right. exists content2, e2. auto.
  - intros <-. right. right. left. exists c1, content, e1, c2.
    repeat split; auto. left. exists status, detail. auto.
Qed.

End Answers.

(** X10.  The route answers [OUT_OF_SCALE] only with status 400, only
    when the strict flag is on and the snap flag is off, and only with a
    positive count; with the snap policy on, no request is refused for its
    pitches. *)
Theorem out_of_scale_only_when_strict `{Builtins} (anthropic : call -> reply)
    (cfg : Config) (req : Request) (st : Z) (n : nat) (k m : string) :
  compose anthropic cfg req = Send st (OUT_OF_SCALE n k m) ->
  st = 400 /\ SNAP_TO_SCALE cfg = false /\ STRICT_SCALE cfg = true
  /\ (0 < n)%nat.
Proof.
  intros Hc.
  destruct (compose_answers anthropic cfg req _ Hc)
    as [(e & E) | [(c & s & d & _ & _ & E)
       | [(c1 & ct & e1 & c2 & _ & _ & _ & _ & _ & [(s & d & _ & E) | (ct2 & e2 & _ & _ & E)])
       | (b & data & _ & E)]]];
    try discriminate E.
  destruct (validate_answers cfg req b data _ _ (surjective_pairing _))
    as [[E1 _] | [(e & E1 & _) | [(n' & k' & m' & E1 & Hs & Ht & _) | (doc & E1 & _)]]];
    rewrite E1 in E; try discriminate E.
  injection E as -> -> -> ->. repeat split; auto. lia.
Qed.

(** The C major clip under the strict policy. *)
Lemma out_of_scale_only_when_strict_witness :
  compose (Samples.answers Samples.c_major_text) Samples.strict
    Samples.no_request = Send 400 (OUT_OF_SCALE 1 "C" "major")
  /\ SNAP_TO_SCALE Samples.strict = false.
Proof.
  assert (E : compose (Samples.answers Samples.c_major_text) Samples.strict
                Samples.no_request = Send 400 (OUT_OF_SCALE 1 "C" "major"))
    by (vm_compute; reflexivity).
  split; [exact E |].
  exact (proj1 (proj2 (out_of_scale_only_when_strict _ _ _ _ _ _ _ E))).
Defined.

(** X11.  Every answer of the route that is not a document has status
    400, except when the first call to the collaborator is rejected: the
    status and the detail of that rejection are then passed on. *)
Theorem failures_are_400_or_passed_on `{Builtins} (anthropic : call -> reply)
    (cfg : Config) (req : Request) (st : Z) (b : body) :
  compose anthropic cfg req = Send st b ->
  (st = 400 /\ forall d, b <> Detail d)
  \/ (exists c d, system c = SYSTEM_PROMPT /\ anthropic c = Rejected st d
                  /\ b = Detail d).
Proof.
  intros Hc.
  destruct (compose_answers anthropic cfg req _ Hc)
    as [(e & E) | [(c & s & d & Hsys & Hrej & E)
       | [(c1 & ct & e1 & c2 & _ & _ & _ & _ & _ & [(s & d & _ & E) | (ct2 & e2 & _ & _ & E)])
       | (bn & data & _ & E)]]].
  - injection E as -> ->. left. split; [reflexivity | discriminate].
  - injection E as -> ->. right. exists c, d. auto.
  - injection E as -> ->. left. split; [reflexivity | discriminate].
  - injection E as -> ->. left. split; [reflexivity | discriminate].
  - destruct (validate_answers cfg req bn data _ _ (surjective_pairing _))
      as [[E1 _] | [(e & E1 & _) | [(n' & k' & m' & E1 & _) | (doc & E1 & _)]]];
      rewrite E1 in E; try discriminate E; injection E as -> ->;
      left; (split; [reflexivity | discriminate]).
Qed.

(** A rejected first call, and a text without JSON. *)
Lemma failures_are_400_or_passed_on_witness :
  compose (fun _ => Rejected 429 "rate limited") Samples.snap
    Samples.no_request = Send 429 (Detail "rate limited")
  /\ exists c d, (fun _ : call => Rejected 429 "rate limited") c
                 = Rejected 429 d.
Proof.
  assert (E : compose (fun _ => Rejected 429 "rate limited") Samples.snap
                Samples.no_request = Send 429 (Detail "rate limited"))
    by (vm_compute; reflexivity).
  split; [exact E |].
  destruct (failures_are_400_or_passed_on _ _ _ _ _ E)
    as [[E4 _] | (c & d & _ & Hr & _)].
  - discriminate E4.
  - exists c, d. exact Hr.
Defined.

(** X12.  [AI_JSON_ERROR] is answered, with status 400, only after two
    failures: the text of the first reply yields no JSON, a repair call
    is made at temperature zero, and that call is rejected or its text
    yields no JSON either; the error carried is the one of the second
    failure. *)
Theorem ai_json_error_after_two_failures `{Builtins}
    (anthropic : call -> reply) (cfg : Config) (req : Request) (st : Z)
    (e : exn) :
  compose anthropic cfg req = Send st (AI_JSON_ERROR e) ->
  st = 400
  /\ exists c1 content e1 c2,
       system c1 = SYSTEM_PROMPT /\ anthropic c1 = Message content
       /\ extractJson (JStr (text_of content)) = Throw e1
       /\ system c2 = REPAIR_PROMPT /\ temperature c2 = 0%Q
       /\ ((exists s d, anthropic c2 = Rejected s d /\ e = Error d)
           \/ (exists content2,
                 anthropic c2 = Message content2
                 /\ extractJson (JStr (text_of content2)) = Throw e)).
Proof.
  intros Hc.
  destruct (compose_answers anthropic cfg req _ Hc)
    as [(e0 & E) | [(c & s & d & _ & _ & E)
       | [(c1 & ct & e1 & c2 & S1 & M1 & X1 & S2 & T2 & Hrep)
       | (bn & data & _ & E)]]]; try discriminate E.
  - split.
    + destruct Hrep as [(s & d & _ & E) | (ct2 & e2 & _ & _ & E)];
        injection E as -> _; reflexivity.
    + exists c1, ct, e1, c2. repeat split; auto.
      destruct Hrep as [(s & d & R & E) | (ct2 & e2 & M2 & X2 & E)].
      * injection E as _ ->. left. exists s, d. auto.
      * injection E as _ ->. right. exists ct2. auto.
  - destruct (validate_answers cfg req bn data _ _ (surjective_pairing _))
      as [[E1 _] | [(e' & E1 & _) | [(n' & k' & m' & E1 & _) | (doc & E1 & _)]]];
      rewrite E1 in E; discriminate E.
Qed.

(** A collaborator that never sends JSON. *)
Lemma ai_json_error_after_two_failures_witness :
  compose (Samples.answers "unparseable garbage") Samples.snap
    Samples.no_request
  = Send 400 (AI_JSON_ERROR (Error "No valid JSON found"))
  /\ exists content,
       extractJson (JStr (text_of content))
       = Throw (Error "No valid JSON found").
Proof.
  assert (E : compose (Samples.answers "unparseable garbage") Samples.snap
                Samples.no_request
              = Send 400 (AI_JSON_ERROR (Error "No valid JSON found")))
    by (vm_compute; reflexivity).
  split; [exact E |].
  destruct (ai_json_error_after_two_failures _ _ _ _ _ E)
    as (_ & c1 & ct & e1 & c2 & _ & _ & _ & _ & _ & [(s & d & R & _) | (ct2 & _ & X2)]).
  - discriminate R.
  - exists ct2. exact X2.
Defined.

Lemma schema_ok_iff (data : json) :
  schema_missing data = false <->
  exists o l v,
    data = JObj o /\ lookup "notes" o = Some (JArr l)
    /\ truthy_opt (lookup "time_signature" o) = true
    /\ lookup "length_bars" o = Some v /\ v <> JNull.
Proof.
  split.
  - intros Hs. destruct data as [| b | n | s | l | o];
      try (rewrite schema_missing_non_object in Hs by discriminate;
           discriminate Hs).
    unfold schema_missing in Hs. cbn [prop truthy negb orb] in Hs.
    apply orb_false_iff in Hs. destruct Hs as [Hs Hlb].
    apply orb_false_iff in Hs. destruct Hs as [Hn Hts].
    apply negb_false_iff in Hn, Hts.
    destruct (lookup "notes" o) as [[| | | | l |] |] eqn:En;
      try discriminate Hn.
    destruct (lookup "length_bars" o) as [v |] eqn:Ev; [| discriminate Hlb].
    exists o, l, v.
    split; [reflexivity |]. split; [exact En |]. split; [exact Hts |].
    split; [exact Ev |]. intros ->. discriminate Hlb.
  - intros (o & l & v & -> & Hn & Hts & Hlb & Hv).
    unfold schema_missing. cbn [prop truthy negb orb].
    rewrite Hn, Hts, Hlb. destruct v; try reflexivity. contradiction.
Qed.

(** X13.  The route answers [SCHEMA_MISSING_FIELDS] exactly when the
    candidate is not an object that has an array [notes], a truthy
    [time_signature], and a [length_bars] that is neither absent nor
    [null]. *)
Theorem schema_missing_exactly `{Builtins} (cfg : Config) (req : Request)
    (barsNum : number) (data : json) :
  fst (validate cfg req barsNum data) = Send 400 SCHEMA_MISSING_FIELDS
  <-> ~ (exists o l v,
           data = JObj o /\ lookup "notes" o = Some (JArr l)
           /\ truthy_opt (lookup "time_signature" o) = true
           /\ lookup "length_bars" o = Some v /\ v <> JNull).
Proof.
  rewrite <- schema_ok_iff.
  destruct (validate_answers cfg req barsNum data _ _ (surjective_pairing _))
    as [[E Hs] | [(e & E & Hs) | [(n & k & m & E & _ & _ & Hs) | (doc & E & Hs)]]];
    rewrite E, Hs; split; try discriminate; try congruence; auto.
Qed.

Lemma filterNotes_null (total : number) (notes : list json) :
  In JNull notes -> filterNotes total notes = Throw TypeError.
Proof.
  induction notes as [| n rest IH]; intros Hin; [contradiction |].
  cbn [filterNotes]. destruct Hin as [-> | Hin]; [reflexivity |].
  rewrite (IH Hin). destruct n; reflexivity.
Qed.

(** X14.  In [notes], an element that is not an object (a number, a
    string, a boolean, an array) is dropped like any other invalid note,
    but a [null] element makes the whole request fail: the answer is a
    400 carrying the [TypeError]. *)
Theorem null_note_fails_the_request `{Builtins} (cfg : Config) (req : Request)
    (barsNum total : number) (o : object) :
  (forall (t : number) (n : json),
     (forall f, n <> JObj f) -> n <> JNull ->
     filterNotes t [n] = Ok [])
  /\ (schema_missing (JObj o) = false ->
      totalBeats o barsNum = Ok total ->
      In JNull (notes_of o) ->
      fst (validate cfg req barsNum (JObj o)) = Send 400 (Thrown TypeError)).
Proof.
  split.
  - intros t n Hobj Hnull.
    destruct n as [| b | x | s | l | f]; try reflexivity.
    + contradiction.
    + exfalso. exact (Hobj f eq_refl).
  - intros Hs Ht Hin. unfold validate. rewrite Hs, Ht. cbn [bind].
    assert (Hl : exists bars', lengthBars o barsNum = Ok bars').
    { unfold totalBeats in Ht. destruct (beatsPerBar o); cbn [bind] in Ht;
        [| discriminate Ht].
      destruct (lengthBars o barsNum) as [bars' |]; [eauto | discriminate Ht]. }
    destruct Hl as (bars' & Hl).
    destruct (applyDefaults_total req _ _ _ Hl) as (o1 & Ho1).
    rewrite Ho1. cbn [bind].
    destruct (applyDefaults_spec _ _ _ _ Ho1) as (_ & _ & _ & _ & _ & _ & _ & Hsame).
    assert (En : notes_of o1 = notes_of o)
      by (unfold notes_of; rewrite Hsame by discriminate; reflexivity).
    rewrite En, (filterNotes_null total _ Hin). reflexivity.
Qed.

(** A clip with a [null] among its notes. *)
Lemma null_note_fails_the_request_witness :
  fst (validate Samples.snap Samples.no_request (of_Z 8)
         (Samples.clip (JNum (of_Z 4)) "C" "major"
            [Samples.note 0 1 60; JNull]))
  = Send 400 (Thrown TypeError).
Proof.
  exact (proj2 (null_note_fails_the_request Samples.snap Samples.no_request
                  (of_Z 8) (of_Z 16)
                  (Samples.fields
                     (Samples.clip (JNum (of_Z 4)) "C" "major"
                        [Samples.note 0 1 60; JNull])))
           eq_refl eq_refl (or_intror (or_introl eq_refl))).
Defined.

(** X15.  A document that is answered carries every field of the
    candidate other than [clip_type], [length_bars], [time_signature],
    [key], [mode], [notes] and [_snapped_info] exactly as the candidate
    had it (the instrument, for one); it gains no other field. *)
Theorem other_fields_pass_through `{Builtins} (cfg : Config) (req : Request)
    (barsNum : number) (o : object) (doc st : json) :
  validate cfg req barsNum (JObj o) = (Json doc, st) ->
  forall f,
    f <> "clip_type" -> f <> "length_bars" -> f <> "time_signature" ->
    f <> "key" -> f <> "mode" -> f <> "notes" -> f <> "_snapped_info" ->
    prop doc f = lookup f o.
Proof.
  intros Hv f F1 F2 F3 F4 F5 F6 F7.
  destruct (validate_doc _ _ _ _ _ _ Hv)
    as (o' & o1 & total & kept & sc & d & [= <-] & _ & _ & Hd & _ & _ & ->
        & Hsame & _).
  destruct (applyDefaults_spec _ _ _ _ Hd) as (_ & _ & _ & _ & _ & _ & _ & Hfr).
  cbn [prop]. rewrite Hsame by assumption. apply Hfr; assumption.
Qed.

(** The instrument of the C major clip. *)
Lemma other_fields_pass_through_witness :
  prop Samples.c_major_answer "instrument"
  = prop Samples.c_major_clip "instrument".
Proof.
  assert (E : validate Samples.snap Samples.no_request (of_Z 8)
                Samples.c_major_clip
              = (Json Samples.c_major_answer, Samples.c_major_answer))
    by (vm_compute; reflexivity).
  exact (other_fields_pass_through Samples.snap Samples.no_request (of_Z 8)
           (Samples.fields Samples.c_major_clip) _ _ E "instrument"
           ltac:(discriminate) ltac:(discriminate) ltac:(discriminate)
           ltac:(discriminate) ltac:(discriminate) ltac:(discriminate)
           ltac:(discriminate)).
Defined.

Lemma or_str_truthy (v : option json) (lit : string) :
  lit <> "" -> truthy (or_str v lit) = true.
Proof.
  intros Hl. unfold or_str.
  assert (T : truthy (JStr lit) = true).
  { cbn [truthy]. destruct (String.eqb_spec lit ""); [contradiction | reflexivity]. }
  destruct v as [x |]; [| exact T].
  destruct (truthy x) eqn:E; [exact E | exact T].
Qed.

Lemma truthy_sent (v : json) :
  truthy v = true -> sent v = JNull \/ truthy (sent v) = true.
Proof.
  destruct v as [| b | n | s | l | o]; cbn [sent]; auto.
  destruct n; cbn [isFinite]; auto.
Qed.

(** X16.  Every document the route answers arrives complete: [notes] is
    an array; [length_bars] is a finite number other than zero, or [null]
    when the bar count was infinite; [time_signature] is a non-empty
    string; and [clip_type] is truthy, or [null] when it was an infinite
    number. *)
Theorem answered_document_is_complete `{Builtins}
    (anthropic : call -> reply) (cfg : Config) (req : Request) (doc : json) :
  compose anthropic cfg req = Json doc ->
  exists (o : object) (l : list json) (lb : json) (ts : string) (ct : json),
    sent doc = JObj o
    /\ lookup "notes" o = Some (JArr l)
    /\ lookup "length_bars" o = Some lb
    /\ (lb = JNull
        \/ exists n, lb = JNum n /\ isFinite n = true /\ Num.truthy n = true)
    /\ lookup "time_signature" o = Some (JStr ts) /\ ts <> ""
    /\ lookup "clip_type" o = Some ct
    /\ (ct = JNull \/ truthy ct = true).
Proof.
  intros Hc.
  destruct (compose_success anthropic _ _ _ Hc)
    as (barsNum & data & st & Hb & Hv).
  destruct (validate_doc _ _ _ _ _ _ Hv)
    as (o & o1 & total & kept & sc & d & -> & Hs & Ht & Hd & Hf & _ & ->
        & Hsame & Hnotes).
  destruct (answered_totalBeats req barsNum total o o1 d Hs Ht Hd Hsame)
    as (bars' & ts & Hl & Hlb & Hts & _).
  pose proof (lengthBars_truthy o barsNum bars' Hb Hl) as Tb.
  destruct (applyDefaults_spec _ _ _ _ Hd) as (_ & _ & Hct & _ & Hts1 & _).
  rewrite <- (Hsame "clip_type") in Hct by discriminate.
  rewrite <- (Hsame "time_signature") in Hts1 by discriminate.
  assert (Hne : ts <> "").
  { rewrite Hts in Hts1. injection Hts1 as Ets.
    pose proof (or_str_truthy (lookup "time_signature" o) "4/4"
                  ltac:(discriminate)) as T.
    rewrite <- Ets in T. intros ->. discriminate T. }
  pose proof (validate_doc_notes _ _ _ _ _ _ Hv) as Hn.
  set (l := notes_of d) in *.
  set (ct0 := or_str (or_else (clipType req) (lookup "clip_type" o)) "chords")
    in *.
  exists (map (fun kv : string * json => let (k, x) := kv in (k, sent x)) d),
    (map sent l),
    (sent (JNum bars')), ts, (sent ct0).
  split; [reflexivity |].
  rewrite !lookup_sent, Hn, Hlb, Hts, Hct. cbn [option_map].
  split; [reflexivity |]. split; [reflexivity |]. split.
  { cbn [sent]. destruct (isFinite bars') eqn:Fb; [| left; reflexivity].
    right. exists bars'. auto. }
  split; [reflexivity |]. split; [exact Hne |]. split; [reflexivity |].
  apply truthy_sent. apply or_str_truthy. discriminate.
Qed.

(** The document answered for the C major clip. *)
Lemma answered_document_is_complete_witness :
  exists (o : object) (lb : json),
    sent Samples.c_major_answer = JObj o
    /\ lookup "length_bars" o = Some lb
    /\ (lb = JNull
        \/ exists n, lb = JNum n /\ isFinite n = true /\ Num.truthy n = true).
Proof.
  assert (E : compose (Samples.answers Samples.c_major_text) Samples.snap
                Samples.no_request = Json Samples.c_major_answer)
    by (vm_compute; reflexivity).
  destruct (answered_document_is_complete _ _ _ _ E)
    as (o & l & lb & ts & ct & Ho & _ & Hlb & Hcase & _).
  exists o, lb. auto.
Defined.

Lemma leb_within (tb db : Q) (total total' : number) :
  leb total total' = true -> within tb db total -> within tb db total'.
Proof.
  unfold within.
  destruct (double (tb + db)) as [| | | x], total as [| | | T],
    total' as [| | | T']; simpl;
    try discriminate; try contradiction; auto.
  intros L W. apply Qle_bool_iff in L. apply (Qle_trans _ T); assumption.
Qed.

(** X17.  The clamp is monotone in the length: a note that is kept for
    some total number of beats is kept for every larger total. *)
Theorem longer_clip_keeps_more (total total' : number) (n : json) :
  leb total total' = true ->
  keep total n = true ->
  keep total' n = true.
Proof.
  intros L K. apply keep_iff in K. apply keep_iff.
  destruct K as [(tb & db & Etb & Edb & Htb & Hdb & W) Hp].
  split; [| exact Hp].
  exists tb, db. repeat split; auto. exact (leb_within _ _ _ _ L W).
Qed.

(** A note that fits in sixteen beats fits in thirty-two. *)
Lemma longer_clip_keeps_more_witness :
  keep (of_Z 32) (Samples.note 15 1 60) = true.
Proof.
  exact (longer_clip_keeps_more (of_Z 16) (of_Z 32) (Samples.note 15 1 60)
           eq_refl eq_refl).
Defined.

(* ================================================================== *)
(** ** Further properties: extraction *)
(* ================================================================== *)

Lemma substring_whole (s : string) : substring 0 (String.length s) s = s.
Proof.
  induction s as [| c r IH]; simpl; [reflexivity | rewrite IH; reflexivity].
Qed.

Section Sound.
Context `{Builtins}.

Lemma scan_sound (text : string) (v : json) :
  forall (rest : string) (i depth start : Z),
    scan text rest i depth start = Some v ->
    exists a n, JSON_parse (substring a n text) = Some v.
Proof.
  induction rest as [| ch rest IH]; intros i depth start; cbn [scan];
    [discriminate |].
  destruct (Ascii.eqb ch "{"); [apply IH |].
  destruct (Ascii.eqb ch "}"); [| apply IH].
  destruct ((depth - 1 =? 0) && negb (start =? -1)); [| apply IH].
  destruct (JSON_parse (slice text start (i + 1))) as [w |] eqn:E;
    [| apply IH].
  intros [= <-]. eexists. eexists. exact E.
Qed.

End Sound.

(** X18.  Whatever [extractJson] returns was produced by [JSON.parse]
    from one contiguous piece of the text, once the fence markers are
    removed and the text is trimmed: nothing is returned that the parser
    did not accept. *)
Theorem extractJson_returns_a_parsed_piece `{Builtins} (t : string)
    (v : json) :
  extractJson (JStr t) = Ok v ->
  exists a n, JSON_parse (substring a n (trim (strip_fences t))) = Some v.
Proof.
  unfold extractJson. destruct (String.eqb t ""); [discriminate |].
  set (text := trim (strip_fences t)).
  destruct (JSON_parse text) as [w |] eqn:E1.
  { intros [= <-]. exists 0%nat, (String.length text).
    rewrite substring_whole. exact E1. }
  destruct (negb (indexOf "{" text =? -1) && negb (lastIndexOf "}" text =? -1)
            && (indexOf "{" text <? lastIndexOf "}" text)).
  - destruct (JSON_parse (slice text _ _)) as [w |] eqn:E2.
    + intros [= <-]. eexists. eexists. exact E2.
    + destruct (scan text text 0 0 (-1)) as [w |] eqn:E3; [| discriminate].
      intros [= <-]. exact (scan_sound text w _ _ _ _ E3).
  - destruct (scan text text 0 0 (-1)) as [w |] eqn:E3; [| discriminate].
    intros [= <-]. exact (scan_sound text w _ _ _ _ E3).
Qed.

(** The object found in the noisy text. *)
Lemma extractJson_returns_a_parsed_piece_witness :
  exists a n,
    JSON_parse (substring a n (trim (strip_fences Samples.noisy)))
    = Some (JObj [("a", JNum (of_Z 1))]).
Proof.
  assert (E : extractJson (JStr Samples.noisy)
              = Ok (JObj [("a", JNum (of_Z 1))]))
    by (vm_compute; reflexivity).
  exact (extractJson_returns_a_parsed_piece Samples.noisy _ E).
Defined.

(** X19.  A text in which three backticks never follow one another is
    left as it is by the removal of the fence markers. *)
Theorem strip_fences_without_markers (s : string) :
  (forall i, substring i 3 s <> "```") ->
  strip_fences s = s.
Proof.
  unfold strip_fences. induction s as [| c r IH]; intros Hno;
    [reflexivity |].
  cbn [strip_fences_from].
  destruct (String.prefix "```" (String c r)) eqn:P.
  - exfalso. apply (Hno 0%nat). apply prefix_correct in P. exact P.
  - rewrite IH; [reflexivity |].
    intros i. exact (Hno (S i)).
Qed.

(** A bare object has no fence marker. *)
Lemma strip_fences_without_markers_witness :
  strip_fences Samples.a_block = Samples.a_block.
Proof.
  apply strip_fences_without_markers.
  intros i.
  do 8 (destruct i as [| i]; [discriminate |]).
  destruct i; discriminate.
Defined.

(** X20.  With the snap flag off, the enforcement answers the document
    untouched, notes included and with nothing recorded, unless the
    strict flag is on and some note is out of scale; with both flags off
    out-of-scale notes pass unreported. *)
Theorem without_snap_the_clip_is_untouched `{Builtins} (cfg : Config)
    (sc : option Scale) (data : object) :
  SNAP_TO_SCALE cfg = false ->
  STRICT_SCALE cfg = false \/ outOfScale sc (notes_of data) = [] ->
  enforceScale cfg sc data = (Json (JObj data), JObj data).
Proof.
  intros Hsnap Hcase. unfold enforceScale. rewrite Hsnap.
  destruct sc as [s |]; [| reflexivity].
  destruct Hcase as [-> | ->]; [reflexivity |].
  destruct (STRICT_SCALE cfg); reflexivity.
Qed.

(** With both flags off, the C sharp of the C major clip is answered. *)
Lemma without_snap_the_clip_is_untouched_witness :
  enforceScale {| SNAP_TO_SCALE := false; STRICT_SCALE := false |}
    (Some {| root := Own (of_Z 0); degrees := MODES_major;
             set := MODES_major |})
    (Samples.fields Samples.c_major_clip)
  = (Json Samples.c_major_clip, Samples.c_major_clip).
Proof.
  exact (without_snap_the_clip_is_untouched
           {| SNAP_TO_SCALE := false; STRICT_SCALE := false |}
           (Some {| root := Own (of_Z 0); degrees := MODES_major;
                    set := MODES_major |})
           (Samples.fields Samples.c_major_clip) eq_refl
           (or_introl eq_refl)).
Defined.
